(** * Kanban column configuration, status migration and board transitions

    A shallow embedding of the column settings editor (KanbanSettings),
    the /api/kanban routes and the board's drag-drop and snooze handlers
    (KanbanBoard), followed by the properties of the specification that
    concern them. *)

From Stdlib Require Import NArith ZArith Ascii String.
From stdpp Require Import base option list gmap strings pretty sorting.

Local Open Scope N_scope.

(** ** JavaScript strings

    A JavaScript string is a sequence of UTF-16 code units. *)

Abbreviation jsstring := (list N).

Definition str (s : string) : jsstring :=
  N_of_ascii <$> list_ascii_of_string s.

(** Truthiness of a string value: only the empty string is falsy. *)
Definition truthy (s : jsstring) : bool :=
  match s with [] => false | _ :: _ => true end.

(** Truthiness of an optional string: [undefined] and the empty string are falsy. *)
Definition truthy_opt (o : option jsstring) : bool :=
  match o with Some s => truthy s | None => false end.

(** Decimal rendering of a non-negative integer inside a template literal. *)
Definition Number_toString (n : N) : jsstring := str (pretty n).

Module Slug.

Definition hyphen : N := 45.

Definition in_range (lo hi c : N) : bool := (lo <=? c) && (c <=? hi).

(** [\s] of a regular expression and the characters removed by
    [String.prototype.trim]: WhiteSpace and LineTerminator. *)
Definition is_space (c : N) : bool :=
  in_range 9 13 c || (c =? 32) || (c =? 160) || (c =? 5760)
  || in_range 8192 8202 c || (c =? 8232) || (c =? 8233) || (c =? 8239)
  || (c =? 8287) || (c =? 12288) || (c =? 65279).

(** [a-z0-9] *)
Definition is_lower_alnum (c : N) : bool :=
  in_range 97 122 c || in_range 48 57 c.

(** The class [a-z0-9\s-] kept by the first replace. *)
Definition is_kept (c : N) : bool :=
  is_lower_alnum c || is_space c || (c =? hyphen).

(** [toLowerCase], one code unit at a time.  A-Z go to a-z.  Outside
    ASCII only two code units have a lower case that contains a
    character of [a-z0-9\s-]: U+0130 (to "i" followed by U+0307) and
    U+212A, the Kelvin sign (to "k").  Every other code unit lowers to
    code units outside that class and outside white space; the model
    leaves those in place, and the replace that follows deletes them
    either way. *)
Definition lower_unit (c : N) : jsstring :=
  if in_range 65 90 c then [c + 32]
  else if c =? 304 then [105; 775]
  else if c =? 8490 then [107]
  else [c].

Definition toLowerCase (s : jsstring) : jsstring := s ≫= lower_unit.

Fixpoint trimStart (s : jsstring) : jsstring :=
  match s with
  | c :: s' => if is_space c then trimStart s' else s
  | [] => []
  end.

Definition trimEnd (s : jsstring) : jsstring := reverse (trimStart (reverse s)).

Definition trim (s : jsstring) : jsstring := trimEnd (trimStart s).

(** [.replace(/[^a-z0-9\s-]/g, "")] *)
Definition remove_special (s : jsstring) : jsstring :=
  filter (λ c, is_kept c = true) s.

(** [.replace(/p+/g, "-")] for a character class [p]: every maximal run
    of [p] becomes one hyphen.  [in_run] tells that the previous code unit
    belonged to the run being replaced. *)
Fixpoint replace_runs (p : N → bool) (in_run : bool) (s : jsstring) : jsstring :=
  match s with
  | [] => []
  | c :: s' =>
      if p c then
        if in_run then replace_runs p true s'
        else hyphen :: replace_runs p true s'
      else c :: replace_runs p false s'
  end.

Definition spaces_to_hyphen (s : jsstring) : jsstring :=
  replace_runs is_space false s.

Definition collapse_hyphens (s : jsstring) : jsstring :=
  replace_runs (λ c, c =? hyphen) false s.

(** [.replace(/^-|-$/g, "")]: one hyphen at the start and one at the end,
    when present; a string that is a single hyphen has one match. *)
Definition drop_leading_hyphen (s : jsstring) : jsstring :=
  match s with
  | c :: s' => if c =? hyphen then s' else s
  | [] => []
  end.

Fixpoint drop_trailing_hyphen (s : jsstring) : jsstring :=
  match s with
  | [] => []
  | c :: s' =>
      match s' with
      | [] => if c =? hyphen then [] else [c]
      | _ :: _ => c :: drop_trailing_hyphen s'
      end
  end.

Definition strip_edge_hyphens (s : jsstring) : jsstring :=
  drop_trailing_hyphen (drop_leading_hyphen s).

Definition generateSlugFromTitle (title : jsstring) : jsstring :=
  strip_edge_hyphens
    (collapse_hyphens
       (spaces_to_hyphen
          (remove_special
             (trim
                (toLowerCase title))))).

(** The shape the specification asks of a slug. *)
Definition is_slug_char (c : N) : bool := is_lower_alnum c || (c =? hyphen).

Fixpoint no_double_hyphen (s : jsstring) : bool :=
  match s with
  | c :: (d :: _) as s' =>
      negb ((c =? hyphen) && (d =? hyphen)) && no_double_hyphen s'
  | _ => true
  end.

Definition no_leading_hyphen (s : jsstring) : bool :=
  match s with c :: _ => negb (c =? hyphen) | [] => true end.

Definition no_trailing_hyphen (s : jsstring) : bool :=
  match last s with Some c => negb (c =? hyphen) | None => true end.

Definition well_formed (s : jsstring) : Prop :=
  Forall (λ c, is_slug_char c = true) s
  ∧ no_leading_hyphen s = true
  ∧ no_trailing_hyphen s = true
  ∧ no_double_hyphen s = true.

End Slug.

(** ** The settings editor (KanbanSettings) *)

Record KanbanColumn := mkColumn {
  col_id : jsstring;
  col_status : jsstring;
  col_title : jsstring;
  col_color : jsstring;
  col_icon : jsstring;
  col_gmailLabel : option jsstring;
  col_order : Z
}.

Global Instance KanbanColumn_eq_dec : EqDecision KanbanColumn.
Proof. solve_decision. Defined.

Definition set_status (status : jsstring) (c : KanbanColumn) : KanbanColumn :=
  mkColumn (col_id c) status (col_title c) (col_color c) (col_icon c)
           (col_gmailLabel c) (col_order c).

Definition set_order (order : Z) (c : KanbanColumn) : KanbanColumn :=
  mkColumn (col_id c) (col_status c) (col_title c) (col_color c) (col_icon c)
           (col_gmailLabel c) order.

(** A plain JavaScript object used as a string-keyed record: its own
    properties in creation order.  Assigning to an existing key keeps the
    key's position. *)
Abbreviation jsobject := (list (jsstring * jsstring)).

Fixpoint obj_set (k v : jsstring) (o : jsobject) : jsobject :=
  match o with
  | [] => [(k, v)]
  | (k', v') :: o' =>
      if decide (k' = k) then (k, v) :: o' else (k', v') :: obj_set k v o'
  end.

(** Keys that are canonical array indices ("0", "7", "42", below 2^32 - 1)
    are enumerated first, in ascending numeric order; the other keys follow
    in creation order. *)
Definition digit_value (c : N) : option N :=
  if Slug.in_range 48 57 c then Some (c - 48) else None.

Definition array_index (k : jsstring) : option N :=
  match k with
  | [] => None
  | [c] => digit_value c
  | c :: _ =>
      if c =? 48 then None
      else
        n ← foldl (λ acc d, a ← acc; v ← digit_value d; Some (10 * a + v))
                  (Some 0) k;
        if n <? 4294967295 then Some n else None
  end.

Fixpoint insert_by_index (e : N * (jsstring * jsstring))
    (l : list (N * (jsstring * jsstring))) : list (N * (jsstring * jsstring)) :=
  match l with
  | [] => [e]
  | e' :: l' => if e.1 <=? e'.1 then e :: l else e' :: insert_by_index e l'
  end.

Definition Object_entries (o : jsobject) : list (jsstring * jsstring) :=
  (snd <$> foldr insert_by_index []
             (omap (λ kv, i ← array_index kv.1; Some (i, kv)) o))
  ++ filter (λ kv, array_index kv.1 = None) o.

Module Settings.

(** A column collides with [status] when it carries it and is not the
    column being edited ([excludeId] may be [undefined]). *)
Definition status_taken (columns : list KanbanColumn)
    (excludeId : option jsstring) (status : jsstring) : bool :=
  existsb (λ col, bool_decide (col_status col = status)
                  && bool_decide (Some (col_id col) ≠ excludeId)) columns.

Definition baseStatus (gmailLabel : option jsstring) (title : jsstring) : jsstring :=
  match gmailLabel with
  | Some l => if truthy l then Slug.generateSlugFromTitle l
              else Slug.generateSlugFromTitle title
  | None => Slug.generateSlugFromTitle title
  end.

(** The statuses the loop of [generateUniqueStatus] tries, in order: the
    base, then the base with the suffixes -1, -2, ... *)
Definition candidate (base : jsstring) (k : nat) : jsstring :=
  match k with
  | O => base
  | S _ => base ++ [Slug.hyphen] ++ Number_toString (N.of_nat k)
  end.

(** The [while] loop of [generateUniqueStatus]; [fuel] bounds the number
    of times its condition is evaluated. *)
Fixpoint unique_status_loop (fuel : nat) (base : jsstring)
    (columns : list KanbanColumn) (excludeId : option jsstring)
    (status : jsstring) (counter : N) : option jsstring :=
  match fuel with
  | O => None
  | S fuel' =>
      if status_taken columns excludeId status then
        unique_status_loop fuel' base columns excludeId
          (base ++ [Slug.hyphen] ++ Number_toString counter) (counter + 1)
      else Some status
  end.

Definition generateUniqueStatus_fuel (fuel : nat)
    (gmailLabel : option jsstring) (title : jsstring)
    (columns : list KanbanColumn) (excludeId : option jsstring) : option jsstring :=
  let base := baseStatus gmailLabel title in
  unique_status_loop fuel base columns excludeId base 1.

(** The loop leaves after at most [length columns + 1] evaluations of its
    condition (lemma [generateUniqueStatus_returns] below), so that much
    fuel always yields the result. *)
Definition generateUniqueStatus (gmailLabel : option jsstring) (title : jsstring)
    (columns : list KanbanColumn) (excludeId : option jsstring) : jsstring :=
  default (baseStatus gmailLabel title)
    (generateUniqueStatus_fuel (S (length columns)) gmailLabel title columns excludeId).

Definition isGmailLabelUsed (gmailLabel : jsstring)
    (columns : list KanbanColumn) (excludeColumnId : option jsstring) : bool :=
  existsb (λ col, bool_decide (col_gmailLabel col = Some gmailLabel)
                  && bool_decide (Some (col_id col) ≠ excludeColumnId)) columns.

(** [originalStatuses] and [statusMigrations] are plain objects created by
    [{}] and holding strings: behind their own properties lie the members of
    [Object.prototype].  Read through a key that is not an own property,
    ["__proto__"] gives the prototype object itself and the other member
    names give built-in functions; every other key gives [undefined]. *)
Definition proto : jsstring := str "__proto__".

Inductive Inherited :=
| Prototype
| Builtin (name : jsstring).

(** The member of [Object.prototype] under [key]; a built-in function is
    given by the name it carries. *)
Definition Object_prototype (key : jsstring) : option Inherited :=
  if decide (key = proto) then Some Prototype
  else if decide (key = str "constructor") then Some (Builtin (str "Object"))
  else if decide (key ∈ [ str "__defineGetter__"; str "__defineSetter__";
                          str "hasOwnProperty"; str "__lookupGetter__";
                          str "__lookupSetter__"; str "isPrototypeOf";
                          str "propertyIsEnumerable"; str "toString"; str "valueOf";
                          str "toLocaleString" ])
  then Some (Builtin key)
  else None.

Inductive jsvalue :=
| JString (s : jsstring)
| JInherited (member : Inherited)
| JUndefined.

(** [object[key]] for an object with the own properties [own]. *)
Definition get (own : gmap jsstring jsstring) (key : jsstring) : jsvalue :=
  match own !! key with
  | Some v => JString v
  | None =>
      match Object_prototype key with
      | Some member => JInherited member
      | None => JUndefined
      end
  end.

(** [object[key] = value] for a string [value]: an own property is
    overwritten; otherwise the key ["__proto__"] reaches the setter of
    [Object.prototype], which ignores a value that is not an object, and any
    other key becomes an own property. *)
Definition set (key value : jsstring) (own : gmap jsstring jsstring) :
    gmap jsstring jsstring :=
  match own !! key with
  | Some _ => <[key := value]> own
  | None => if decide (key = proto) then own else <[key := value]> own
  end.

(** The same assignment on an object whose own properties are kept in
    creation order. *)
Definition assign (key value : jsstring) (o : jsobject) : jsobject :=
  if bool_decide (key ∈ o.*1) then obj_set key value o
  else if decide (key = proto) then o
  else obj_set key value o.

(** The property key that an inherited member used as a key turns into: its
    string conversion.  The text of a built-in function is written as V8
    prints it; other engines differ in its white space. *)
Definition String_of (member : Inherited) : jsstring :=
  match member with
  | Prototype => str "[object Object]"
  | Builtin name => str "function " ++ name ++ str "() { [native code] }"
  end.

(** State of the dialog: the edited columns and the own properties of the
    object that records, under each column id, the status the column had when
    the configuration was loaded. *)
Record State := mkState {
  columns : list KanbanColumn;
  originalStatuses : gmap jsstring jsstring
}.

(** [loadConfig], for columns that already carry a status:
    [statuses[col.id] = col.status] for each column. *)
Definition track_statuses (migratedColumns : list KanbanColumn) : gmap jsstring jsstring :=
  foldl (λ statuses col, set (col_id col) (col_status col) statuses) ∅ migratedColumns.

Definition loaded (migratedColumns : list KanbanColumn) : State :=
  mkState migratedColumns (track_statuses migratedColumns).

Definition orderedColumns (cols : list KanbanColumn) : list KanbanColumn :=
  imap (λ index col, set_order (Z.of_nat index) col) cols.

(** [const originalStatus = originalStatuses[col.id];
    if (originalStatus && originalStatus !== col.status)
    statusMigrations[originalStatus] = col.status].  An inherited member is
    truthy and differs from every string. *)
Definition statusMigrations (original : gmap jsstring jsstring)
    (ordered : list KanbanColumn) : jsobject :=
  foldl (λ migrations col,
           match get original (col_id col) with
           | JString originalStatus =>
               if truthy originalStatus
                  && bool_decide (originalStatus ≠ col_status col)
               then assign originalStatus (col_status col) migrations
               else migrations
           | JInherited member => assign (String_of member) (col_status col) migrations
           | JUndefined => migrations
           end) [] ordered.

(** [handleSave]: the arguments of [updateKanbanConfig], that is the body
    of the PUT request. *)
Definition handleSave (st : State) : list KanbanColumn * jsobject :=
  let ordered := orderedColumns (columns st) in
  (ordered, statusMigrations (originalStatuses st) ordered).

(** [handleAddColumn]; [newColumnId] is the generated id and [now] the
    value of [Date.now()]. *)
Definition handleAddColumn (newColumnId : jsstring) (now : N) (st : State) : State :=
  mkState
    (columns st ++
       [mkColumn newColumnId (str "new-status-" ++ Number_toString now)
                 (str "New Column") (str "bg-blue-500") (str "Inbox") None
                 (Z.of_nat (length (columns st)))])
    (originalStatuses st).

(** [handleDeleteColumn]; [confirmed] is the answer to the confirm dialog. *)
Definition handleDeleteColumn (confirmed : bool) (columnId : jsstring) (st : State) : State :=
  if (length (columns st) <=? 1)%nat then st
  else if confirmed then
    mkState (filter (λ col, col_id col ≠ columnId) (columns st)) (originalStatuses st)
  else st.

(** The keys the dialog passes to [handleUpdateColumn]. *)
Inductive Field := F_title | F_color | F_icon | F_gmailLabel.

Global Instance Field_eq_dec : EqDecision Field.
Proof. solve_decision. Defined.

(** [{ ...col, [field]: value }]; an [undefined] value of a string field
    is kept as the empty string, which is falsy like it. *)
Definition set_field (field : Field) (value : option jsstring) (c : KanbanColumn) : KanbanColumn :=
  match field with
  | F_title => mkColumn (col_id c) (col_status c) (default [] value) (col_color c)
                        (col_icon c) (col_gmailLabel c) (col_order c)
  | F_color => mkColumn (col_id c) (col_status c) (col_title c) (default [] value)
                        (col_icon c) (col_gmailLabel c) (col_order c)
  | F_icon => mkColumn (col_id c) (col_status c) (col_title c) (col_color c)
                       (default [] value) (col_gmailLabel c) (col_order c)
  | F_gmailLabel => mkColumn (col_id c) (col_status c) (col_title c) (col_color c)
                             (col_icon c) value (col_order c)
  end.

Definition handleUpdateColumn (columnId : jsstring) (field : Field)
    (value : option jsstring) (st : State) : State :=
  if bool_decide (field = F_gmailLabel) && truthy_opt value
     && isGmailLabelUsed (default [] value) (columns st) (Some columnId)
  then st
  else
    mkState
      ((λ col,
          if decide (col_id col = columnId) then
            let updatedCol := set_field field value col in
            match field with
            | F_gmailLabel =>
                set_status
                  (generateUniqueStatus value (col_title col) (columns st)
                     (Some (col_id col))) updatedCol
            | F_title =>
                let newTitle := if truthy_opt value then default [] value
                                else col_title col in
                set_status
                  (generateUniqueStatus (col_gmailLabel col) newTitle (columns st)
                     (Some (col_id col))) updatedCol
            | _ => updatedCol
            end
          else col) <$> columns st)
      (originalStatuses st).

End Settings.

(** ** The /api/kanban routes

    The configuration collection holds one column array per user id; the
    email collection is reached only through [updateMany].  A database call
    may throw: [Faults] says which ones do. *)

Record EmailDoc := mkDoc {
  doc_id : jsstring;
  doc_userId : jsstring;
  doc_status : jsstring
}.

(** A line of the migration log: modified count, old status, new status. *)
Record LogLine := Migrated {
  log_count : nat;
  log_old : jsstring;
  log_new : jsstring
}.

Record Store := mkStore {
  configs : gmap jsstring (list KanbanColumn);
  emails : list EmailDoc;
  console : list LogLine
}.

Record Faults := mkFaults {
  findOne_throws : bool;
  updateMany_throws : jsstring → jsstring → bool;
  config_write_throws : bool
}.

Definition no_faults : Faults := mkFaults false (λ _ _, false) false.

Inductive Response :=
| Ok200 (data : list KanbanColumn) (message : string)
| BadRequest400 (message : string)
| Unauthorized401
| NotFound404 (message : string)
| ServerError500.

(** Statements of a handler body: they read and write the store and either
    return a value or throw. *)
Inductive outcome (A : Type) :=
| Returned (a : A)
| Thrown.
Arguments Returned {A} a.
Arguments Thrown {A}.

Definition M (A : Type) : Type := Store → Store * outcome A.

Definition ret {A} (a : A) : M A := λ s, (s, Returned a).

Definition throw {A} : M A := λ s, (s, Thrown).

Definition bindM {A B} (m : M A) (k : A → M B) : M B :=
  λ s, match m s with
       | (s', Returned a) => k a s'
       | (s', Thrown) => (s', Thrown)
       end.

Notation "'let!' x ':=' m 'in' k" := (bindM m (λ x, k))
  (at level 10, x name, m at level 100, k at level 200).

(** [try { body } catch (error) { res.status(500).json(...) }] *)
Definition try_catch_500 (body : M Response) : Store → Store * Response :=
  λ s, match body s with
       | (s', Returned r) => (s', r)
       | (s', Thrown) => (s', ServerError500)
       end.

Module Routes.

Definition defaultColumns : list KanbanColumn :=
  [ mkColumn (str "col-inbox") (str "inbox") (str "Inbox") (str "bg-blue-500")
             (str "Inbox") (Some (str "INBOX")) 0;
    mkColumn (str "col-todo") (str "todo") (str "To Do") (str "bg-yellow-500")
             (str "Clock") (Some (str "STARRED")) 1;
    mkColumn (str "col-done") (str "done") (str "Done") (str "bg-green-500")
             (str "CheckCircle") None 2;
    mkColumn (str "col-snoozed") (str "snoozed") (str "Snoozed") (str "bg-purple-500")
             (str "Clock") None 3 ].

(** [await KanbanConfig.findOne({ userId })] *)
Definition findOne (f : Faults) (userId : jsstring) : M (option (list KanbanColumn)) :=
  λ s, if findOne_throws f then (s, Thrown)
       else (s, Returned (configs s !! userId)).

(** [config.save()] and [findOneAndUpdate(..., { upsert: true })]: the
    user's column array is replaced by [cols]. *)
Definition write_config (f : Faults) (userId : jsstring) (cols : list KanbanColumn) :
    M (list KanbanColumn) :=
  λ s, if config_write_throws f then (s, Thrown)
       else (mkStore (<[userId := cols]> (configs s)) (emails s) (console s),
             Returned cols).

Definition matches (userId oldStatus : jsstring) (e : EmailDoc) : bool :=
  bool_decide (doc_userId e = userId) && bool_decide (doc_status e = oldStatus).

(** The documents selected by [{ userId, status: oldStatus }] get
    [{ $set: { status: newStatus } }]. *)
Definition rewrite_status (userId oldStatus newStatus : jsstring)
    (mails : list EmailDoc) : list EmailDoc :=
  (λ e, if matches userId oldStatus e
        then mkDoc (doc_id e) (doc_userId e) newStatus else e) <$> mails.

Definition matched_count (userId oldStatus : jsstring) (mails : list EmailDoc) : nat :=
  length (filter (λ e, matches userId oldStatus e = true) mails).

(** [EmailModel.updateMany({ userId, status: oldStatus },
    { $set: { status: newStatus } })]; the result is [modifiedCount], the
    number of documents whose content changed. *)
Definition updateMany (f : Faults) (userId oldStatus newStatus : jsstring) : M nat :=
  λ s, if updateMany_throws f oldStatus newStatus then (s, Thrown)
       else
         (mkStore (configs s) (rewrite_status userId oldStatus newStatus (emails s))
                  (console s),
          Returned (if decide (oldStatus = newStatus) then 0%nat
                    else matched_count userId oldStatus (emails s))).

(** The rewrites of a list of entries, one after the other. *)
Definition rewrite_all (userId : jsstring) (entries : list (jsstring * jsstring))
    (mails : list EmailDoc) : list EmailDoc :=
  foldl (λ acc entry, rewrite_status userId entry.1 entry.2 acc) mails entries.

Definition console_log (l : LogLine) : M unit :=
  λ s, (mkStore (configs s) (emails s) (console s ++ [l]), Returned tt).

(** The loop over [Object.entries(statusMigrations)]. *)
Fixpoint migrate (f : Faults) (userId : jsstring) (entries : list (jsstring * jsstring)) :
    M unit :=
  match entries with
  | [] => ret tt
  | (oldStatus, newStatus) :: rest =>
      let! modifiedCount := updateMany f userId oldStatus newStatus in
      let! _ := console_log (Migrated modifiedCount oldStatus newStatus) in
      migrate f userId rest
  end.

(** [!column.id || !column.title || !column.color || !column.icon] *)
Definition incomplete (column : KanbanColumn) : bool :=
  negb (truthy (col_id column)) || negb (truthy (col_title column))
  || negb (truthy (col_color column)) || negb (truthy (col_icon column)).

(** GET /api/kanban/config *)
Definition get_config (f : Faults) (user : option jsstring) : Store → Store * Response :=
  try_catch_500
    match user with
    | None => ret Unauthorized401
    | Some userId =>
        let! config := findOne f userId in
        match config with
        | Some cols => ret (Ok200 cols "")
        | None =>
            let! cols := write_config f userId defaultColumns in
            ret (Ok200 cols "")
        end
    end.

(** Body of a PUT request; [put_columns] is [None] when [columns] is
    missing or not an array, [put_statusMigrations] when the field is
    missing. *)
Record PutBody := mkPut {
  put_columns : option (list KanbanColumn);
  put_statusMigrations : option jsobject
}.

(** [if (statusMigrations && Object.keys(statusMigrations).length > 0)
    { ... }] *)
Definition migration_step (f : Faults) (userId : jsstring) (body : PutBody) : M unit :=
  match put_statusMigrations body with
  | Some migrations =>
      if (0 <? length (Object_entries migrations))%nat
      then migrate f userId (Object_entries migrations)
      else ret tt
  | None => ret tt
  end.

(** PUT /api/kanban/config *)
Definition put_config (f : Faults) (user : option jsstring) (body : PutBody) :
    Store → Store * Response :=
  try_catch_500
    match user with
    | None => ret Unauthorized401
    | Some userId =>
        match put_columns body with
        | None => ret (BadRequest400 "Invalid columns data")
        | Some cols =>
            if existsb incomplete cols then
              ret (BadRequest400 "Each column must have id, title, color, and icon")
            else
              let! _ := migration_step f userId body in
              let! config := write_config f userId cols in
              ret (Ok200 config "Kanban configuration updated successfully")
        end
    end.

(** POST /api/kanban/config/columns *)
Definition post_column (f : Faults) (user : option jsstring) (column : KanbanColumn) :
    Store → Store * Response :=
  try_catch_500
    match user with
    | None => ret Unauthorized401
    | Some userId =>
        if incomplete column then
          ret (BadRequest400 "Column must have id, title, color, and icon")
        else
          let! found := findOne f userId in
          let cols := default [] found in
          if existsb (λ c, bool_decide (col_id c = col_id column)) cols then
            ret (BadRequest400 "Column with this ID already exists")
          else
            let! saved := write_config f userId (cols ++ [column]) in
            ret (Ok200 saved "Column added successfully")
    end.

(** DELETE /api/kanban/config/columns/:columnId *)
Definition delete_column (f : Faults) (user : option jsstring) (columnId : jsstring) :
    Store → Store * Response :=
  try_catch_500
    match user with
    | None => ret Unauthorized401
    | Some userId =>
        let! found := findOne f userId in
        match found with
        | None => ret (NotFound404 "Kanban configuration not found")
        | Some cols =>
            let! saved :=
              write_config f userId (filter (λ c, col_id c ≠ columnId) cols) in
            ret (Ok200 saved "Column removed successfully")
        end
    end.

(** A [Partial<KanbanColumn>]: the fields present in the request body. *)
Record ColumnPatch := mkPatch {
  p_id : option jsstring;
  p_status : option jsstring;
  p_title : option jsstring;
  p_color : option jsstring;
  p_icon : option jsstring;
  p_gmailLabel : option (option jsstring);
  p_order : option Z
}.

(** [{ ...column, ...updates, id: columnId }] *)
Definition merge (column : KanbanColumn) (updates : ColumnPatch) (columnId : jsstring) :
    KanbanColumn :=
  mkColumn columnId
           (default (col_status column) (p_status updates))
           (default (col_title column) (p_title updates))
           (default (col_color column) (p_color updates))
           (default (col_icon column) (p_icon updates))
           (default (col_gmailLabel column) (p_gmailLabel updates))
           (default (col_order column) (p_order updates)).

(** PATCH /api/kanban/config/columns/:columnId *)
Definition patch_column (f : Faults) (user : option jsstring) (columnId : jsstring)
    (updates : ColumnPatch) : Store → Store * Response :=
  try_catch_500
    match user with
    | None => ret Unauthorized401
    | Some userId =>
        let! found := findOne f userId in
        match found with
        | None => ret (NotFound404 "Kanban configuration not found")
        | Some cols =>
            match list_find (λ c, col_id c = columnId) cols with
            | None => ret (NotFound404 "Column not found")
            | Some (columnIndex, column) =>
                let! saved :=
                  write_config f userId
                    (<[columnIndex := merge column updates columnId]> cols) in
                ret (Ok200 saved "Column updated successfully")
            end
        end
    end.

End Routes.

(** ** The board (KanbanBoard): drag-drop and snooze *)

Record Email := mkEmail {
  e_id : jsstring;
  e_status : jsstring;
  e_snoozeUntil : option Z;
  e_subject : jsstring;
  e_isRead : bool
}.

(** Calls to the email API issued by a handler. *)
Inductive ApiCall :=
| snoozeEmail (emailId : jsstring) (snoozeUntil : Z)
| updateEmailStatus (emailId : jsstring) (status : jsstring).

(** [Date.prototype.getHours] and [setHours] work on the local reading of the
    clock.  A time zone gives the offset of local time from UTC, in
    milliseconds: [offset_at t] at the instant [t] ([LocalTZA(t, true)] of the
    language specification) and [offset_of_reading r] for the local reading
    [r] ([LocalTZA(r, false)]; a reading that occurs twice or not at all at a
    clock change is taken with the offset before the change). *)
Record TimeZone := mkZone {
  offset_at : Z → Z;
  offset_of_reading : Z → Z
}.

Module Board.

Record State := mkState {
  emailsByStatus : gmap jsstring (list Email);
  draggingEmail : option Email;
  snoozeEmailId : option jsstring
}.

(** What running a handler leaves behind: the API calls it made and the
    next state.  [Thrown] stands for a TypeError raised by a state updater,
    which the handler's own [catch] does not see. *)
Record Run := mkRun {
  calls : list ApiCall;
  next : outcome State
}.

(** [d = new Date(); d.setHours(d.getHours() + hours)] for the instant [now],
    in milliseconds: the local reading of [now] is moved by [hours] hours and
    the result is the instant that shows the new reading. *)
Definition plusHours (zone : TimeZone) (now hours : Z) : Z :=
  let reading := (now + offset_at zone now + hours * 3600000)%Z in
  (reading - offset_of_reading zone reading)%Z.

Definition snoozed : jsstring := str "snoozed".

Definition other_than (emailId : jsstring) (bucket : list Email) : list Email :=
  filter (λ e, e_id e ≠ emailId) bucket.

(** The updater of the snooze branch of [handleDrop]. *)
Definition drop_to_snoozed (dragging : Email) (snoozeUntil : Z)
    (prev : gmap jsstring (list Email)) : outcome (gmap jsstring (list Email)) :=
  let sourceStatus := e_status dragging in
  match prev !! sourceStatus, prev !! snoozed with
  | Some source, Some target =>
      Returned
        (<[snoozed :=
             target ++ [mkEmail (e_id dragging) snoozed (Some snoozeUntil)
                                (e_subject dragging) (e_isRead dragging)]]>
           (<[sourceStatus := other_than (e_id dragging) source]> prev))
  | _, _ => Thrown
  end.

(** The updater of the other branch of [handleDrop]. *)
Definition drop_to_status (dragging : Email) (targetStatus : jsstring)
    (prev : gmap jsstring (list Email)) : outcome (gmap jsstring (list Email)) :=
  let sourceStatus := e_status dragging in
  match prev !! sourceStatus, prev !! targetStatus with
  | Some source, Some target =>
      Returned
        (<[targetStatus :=
             target ++ [mkEmail (e_id dragging) targetStatus None
                                (e_subject dragging) (e_isRead dragging)]]>
           (<[sourceStatus := other_than (e_id dragging) source]> prev))
  | _, _ => Thrown
  end.

Definition commit (st : State) (dragging : option Email)
    (o : outcome (gmap jsstring (list Email))) : outcome State :=
  match o with
  | Returned m => Returned (mkState m dragging (snoozeEmailId st))
  | Thrown => Thrown
  end.

(** [handleDrop(targetStatus, e)]; [zone] is the time zone of the browser,
    [now] the current time and [api_ok] tells whether the awaited API call
    resolves. *)
Definition handleDrop (zone : TimeZone) (now : Z) (api_ok : bool) (targetStatus : jsstring)
    (st : State) : Run :=
  let cleared := mkState (emailsByStatus st) None (snoozeEmailId st) in
  match draggingEmail st with
  | None => mkRun [] (Returned cleared)
  | Some dragging =>
      if decide (e_status dragging = targetStatus) then mkRun [] (Returned cleared)
      else if decide (targetStatus = snoozed) then
        let snoozeUntil := plusHours zone now 1 in
        mkRun [snoozeEmail (e_id dragging) snoozeUntil]
              (if api_ok
               then commit st None (drop_to_snoozed dragging snoozeUntil (emailsByStatus st))
               else Returned cleared)
      else
        mkRun [updateEmailStatus (e_id dragging) targetStatus]
              (if api_ok
               then commit st None (drop_to_status dragging targetStatus (emailsByStatus st))
               else Returned cleared)
  end.

Definition inbox : jsstring := str "inbox".
Definition todo : jsstring := str "todo".
Definition done : jsstring := str "done".

(** The [for ... of] loop of [handleSnooze]'s updater: the first of the
    listed buckets that holds the email. *)
Fixpoint locate (prev : gmap jsstring (list Email)) (emailId : jsstring)
    (statuses : list jsstring) : outcome (option (Email * jsstring)) :=
  match statuses with
  | [] => Returned None
  | status :: rest =>
      match prev !! status with
      | None => Thrown
      | Some bucket =>
          match find (λ e, bool_decide (e_id e = emailId)) bucket with
          | Some found => Returned (Some (found, status))
          | None => locate prev emailId rest
          end
      end
  end.

(** An object literal: a field whose value is [undefined] reads like a
    missing one. *)
Definition literal (fields : list (jsstring * option (list Email))) :
    gmap jsstring (list Email) :=
  foldr (λ kv m, match kv.2 with Some v => <[kv.1 := v]> m | None => m end) ∅ fields.

Definition bucket_without (prev : gmap jsstring (list Email))
    (sourceStatus status emailId : jsstring) : option (list Email) :=
  if decide (sourceStatus = status)
  then other_than emailId <$> prev !! status
  else prev !! status.

(** [e.id === emailId ? { ...e, snoozeUntil } : e] *)
Definition resnooze (emailId : jsstring) (snoozeUntil : Z) (e : Email) : Email :=
  if decide (e_id e = emailId)
  then mkEmail (e_id e) (e_status e) (Some snoozeUntil) (e_subject e) (e_isRead e)
  else e.

(** The updater of [handleSnooze]. *)
Definition snooze_update (emailId : jsstring) (snoozeUntil : Z)
    (prev : gmap jsstring (list Email)) : outcome (gmap jsstring (list Email)) :=
  match locate prev emailId [inbox; todo; done; snoozed] with
  | Thrown => Thrown
  | Returned None => Returned prev
  | Returned (Some (emailToSnooze, sourceStatus)) =>
      match prev !! snoozed with
      | None => Thrown
      | Some bucket =>
          Returned
            (literal
               [ (inbox, bucket_without prev sourceStatus inbox emailId);
                 (todo, bucket_without prev sourceStatus todo emailId);
                 (done, bucket_without prev sourceStatus done emailId);
                 (snoozed,
                  Some
                    (if decide (sourceStatus = snoozed) then
                       resnooze emailId snoozeUntil <$> bucket
                     else
                       bucket ++ [mkEmail (e_id emailToSnooze) snoozed (Some snoozeUntil)
                                          (e_subject emailToSnooze)
                                          (e_isRead emailToSnooze)])) ])
      end
  end.

(** [handleSnooze(emailId, hours)] *)
Definition handleSnooze (zone : TimeZone) (now : Z) (api_ok : bool) (emailId : jsstring)
    (hours : Z) (st : State) : Run :=
  let snoozeUntil := plusHours zone now hours in
  mkRun [snoozeEmail emailId snoozeUntil]
        (if api_ok then
           match snooze_update emailId snoozeUntil (emailsByStatus st) with
           | Returned m => Returned (mkState m (draggingEmail st) None)
           | Thrown => Thrown
           end
         else Returned st).

End Board.

(** ** Invariants of the data model and sample data *)

Definition statuses_distinct (cols : list KanbanColumn) : Prop :=
  NoDup (col_status <$> cols).

Definition ids_distinct (cols : list KanbanColumn) : Prop :=
  NoDup (col_id <$> cols).

(** Every committed configuration has pairwise distinct statuses. *)
Definition committed_distinct (s : Store) : Prop :=
  ∀ owner cols, configs s !! owner = Some cols → statuses_distinct cols.

(** [order] equals the array position: 0, 1, ..., n-1. *)
Definition dense_order (cols : list KanbanColumn) : Prop :=
  ∀ i col, cols !! i = Some col → col_order col = Z.of_nat i.

Definition empty_store : Store := mkStore ∅ [] [].

Definition alice : jsstring := str "alice".

(** A complete column, for the examples. *)
Definition column (id status title : string) (label : option string) (order : Z) :
    KanbanColumn :=
  mkColumn (str id) (str status) (str title) (str "bg-blue-500") (str "Inbox")
           (str <$> label) order.

Definition store_of (cols : list KanbanColumn) (mails : list EmailDoc) : Store :=
  mkStore {[ alice := cols ]} mails [].

(** Two columns that carry the same status. *)
Definition same_status_columns : list KanbanColumn :=
  [ column "col-a" "todo" "To Do" None 0; column "col-b" "todo" "Later" None 1 ].

(** Two complete columns mapped to the same Gmail label. *)
Definition same_label_columns : list KanbanColumn :=
  [ column "col-a" "inbox" "Inbox" (Some "INBOX") 0;
    column "col-b" "inbox-1" "Incoming" (Some "INBOX") 1 ].

Definition mail (id status : string) : EmailDoc :=
  mkDoc (str id) alice (str status).

(** The editor after the default configuration was loaded and its second
    column deleted: the remaining columns carry the order values 0, 2, 3. *)
Definition three_columns_left : Settings.State :=
  Settings.handleDeleteColumn true (str "col-todo") (Settings.loaded Routes.defaultColumns).

(** Faults in which the rewrite of one entry throws. *)
Definition rewrite_fails (oldStatus newStatus : jsstring) : Faults :=
  mkFaults false (λ o n, bool_decide (o = oldStatus ∧ n = newStatus)) false.

(** Two columns, and the same two after both were renamed. *)
Definition two_columns : list KanbanColumn :=
  [ column "col-todo" "todo" "To Do" None 0; column "col-done" "done" "Done" None 1 ].

Definition two_columns_renamed : list KanbanColumn :=
  [ column "col-todo" "later" "Later" None 0;
    column "col-done" "archive" "Archive" None 1 ].

Definition two_renames : jsobject :=
  [ (str "todo", str "later"); (str "done", str "archive") ].

(** The editor after [two_columns] was loaded, "Done" renamed to "Archive"
    and then "To Do" renamed to "Done". *)
Definition chained_edit : Settings.State :=
  Settings.handleUpdateColumn (str "col-todo") Settings.F_title (Some (str "Done"))
    (Settings.handleUpdateColumn (str "col-done") Settings.F_title (Some (str "Archive"))
       (Settings.loaded two_columns)).

(** The editor after a column titled "Sent Mail" was renamed to "Archived". *)
Definition sent_mail_columns : list KanbanColumn :=
  [ column "col-inbox" "inbox" "Inbox" None 0;
    column "col-sent" "sent-mail" "Sent Mail" None 1 ].

Definition sent_mail_renamed : Settings.State :=
  Settings.handleUpdateColumn (str "col-sent") Settings.F_title (Some (str "Archived"))
    (Settings.loaded sent_mail_columns).

(** The status an email ends with when every entry of a migration map is
    applied to the status the email had before the save: the first entry
    whose old status matches decides. *)
Fixpoint renamed (entries : list (jsstring * jsstring)) (status : jsstring) : jsstring :=
  match entries with
  | [] => status
  | (oldStatus, newStatus) :: rest =>
      if decide (status = oldStatus) then newStatus else renamed rest status
  end.

Definition migrated (userId : jsstring) (entries : list (jsstring * jsstring))
    (e : EmailDoc) : EmailDoc :=
  if decide (doc_userId e = userId)
  then mkDoc (doc_id e) (doc_userId e) (renamed entries (doc_status e))
  else e.

(** No new status of the map is also one of its old statuses. *)
Definition chain_free (entries : list (jsstring * jsstring)) : Prop :=
  NoDup entries.*1 ∧ ∀ o n, (o, n) ∈ entries → n ∉ entries.*1.

(** A board with the four default buckets and one bucket of a custom
    column. *)
Definition card (id status : string) (snoozeUntil : option Z) : Email :=
  mkEmail (str id) (str status) snoozeUntil (str "Hello") false.

Definition sample_board : gmap jsstring (list Email) :=
  <[ str "archived" := [card "e5" "archived" None] ]>
    (<[ Board.snoozed := [card "e3" "snoozed" (Some 500%Z); card "e4" "snoozed" (Some 700%Z)] ]>
       (<[ Board.done := [] ]>
          (<[ Board.todo := [card "e2" "todo" None] ]>
             (<[ Board.inbox := [card "e1" "inbox" None] ]> ∅)))).

Definition dragging (e : Email) : Board.State :=
  Board.mkState sample_board (Some e) None.

(** A time zone without clock changes, [ms] milliseconds ahead of UTC. *)
Definition fixed_offset (ms : Z) : TimeZone := mkZone (λ _, ms) (λ _, ms).

Definition utc : TimeZone := fixed_offset 0.

(** A time zone whose clocks are set back one hour at the instant [change],
    from two hours ahead of UTC to one: the readings below [change] + 2 h are
    summer-time readings. *)
Definition set_back (change : Z) : TimeZone :=
  mkZone (λ t, if (t <? change)%Z then 7200000%Z else 3600000%Z)
         (λ reading, if (reading <? change + 7200000)%Z then 7200000%Z else 3600000%Z).

(** 25 October 2026, 01:00 UTC, when central Europe sets its clocks back from
    03:00 to 02:00. *)
Definition autumn_2026 : Z := 1792890000000.

(** ** Further operations of the editor, the board and the search bar *)

(** [Array.prototype.sort] with a comparator: the sort is stable, so for a
    consistent comparator its result is the one of any stable sort.  This is
    insertion sort, each element placed before the first element it does not
    come after. *)
Fixpoint insert_sorted {A} (cmp : A → A → Z) (x : A) (l : list A) : list A :=
  match l with
  | [] => [x]
  | y :: l' => if (cmp x y <=? 0)%Z then x :: l else y :: insert_sorted cmp x l'
  end.

Definition Array_sort {A} (cmp : A → A → Z) (l : list A) : list A :=
  foldr (insert_sorted cmp) [] l.

Module SettingsOps.

(** [config.columns.sort((a, b) => a.order - b.order)] *)
Definition sort_by_order (cols : list KanbanColumn) : list KanbanColumn :=
  Array_sort (λ a b, (col_order a - col_order b)%Z) cols.

(** The migration of [loadConfig]: a column without a status takes its id as
    status and gets a generated id.  [fresh i] is the value of
    [generateColumnId()] for the column at position [i]. *)
Definition normalise (fresh : nat → jsstring) (i : nat) (col : KanbanColumn) : KanbanColumn :=
  if truthy (col_status col) then col
  else mkColumn (fresh i) (col_id col) (col_title col) (col_color col) (col_icon col)
                (col_gmailLabel col) (col_order col).

(** [loadConfig] when [getKanbanConfig] resolves with [serverColumns]. *)
Definition loadConfig (fresh : nat → jsstring) (serverColumns : list KanbanColumn) :
    Settings.State :=
  Settings.loaded (imap (normalise fresh) (sort_by_order serverColumns)).

Inductive Direction := up | down.

(** [handleMoveColumn] *)
Definition handleMoveColumn (columnId : jsstring) (direction : Direction)
    (st : Settings.State) : Settings.State :=
  let cols := Settings.columns st in
  match list_find (λ col, col_id col = columnId) cols with
  | None => st
  | Some (index, _) =>
      let targetIndex :=
        match direction with
        | up => (Z.of_nat index - 1)%Z
        | down => (Z.of_nat index + 1)%Z
        end in
      if ((targetIndex <? 0) || (Z.of_nat (length cols) <=? targetIndex))%Z then st
      else
        match cols !! index, cols !! Z.to_nat targetIndex with
        | Some a, Some b =>
            Settings.mkState (<[Z.to_nat targetIndex := a]> (<[index := b]> cols))
                             (Settings.originalStatuses st)
        | _, _ => st
        end
  end.

(** The Gmail label of a column when it has a non-empty one, and the
    non-empty Gmail labels of a column list, in order. *)
Definition label_of (col : KanbanColumn) : option jsstring :=
  match col_gmailLabel col with
  | Some l => if truthy l then Some l else None
  | None => None
  end.

Definition labels (cols : list KanbanColumn) : list jsstring := omap label_of cols.

(** The statuses recorded at load time agree with the columns being edited. *)
Definition in_sync (st : Settings.State) : Prop :=
  ∀ col, col ∈ Settings.columns st →
         Settings.originalStatuses st !! col_id col = Some (col_status col).

End SettingsOps.

Module BoardOps.

(** The empty buckets set up by the board's [loadConfig]. *)
Definition initial_buckets (cols : list KanbanColumn) : gmap jsstring (list Email) :=
  foldl (λ initialEmails col, <[col_status col := []]> initialEmails) ∅ cols.

(** [results.forEach((emails, index) => newEmailsByStatus[columns[index].status]
    = emails)] *)
Definition collect (cols : list KanbanColumn) (results : list (list Email)) :
    gmap jsstring (list Email) :=
  foldl (λ newEmailsByStatus cr, <[col_status cr.1 := cr.2]> newEmailsByStatus) ∅
        (zip cols results).

(** [Promise.all] over the calls of the email API, one per column: it
    rejects as soon as one call does. *)
Fixpoint all_results (api : jsstring → outcome (list Email)) (cols : list KanbanColumn) :
    outcome (list (list Email)) :=
  match cols with
  | [] => Returned []
  | col :: rest =>
      match api (col_status col), all_results api rest with
      | Returned emails, Returned others => Returned (emails :: others)
      | _, _ => Thrown
      end
  end.

(** [fetchEmailsByStatus] for the loaded columns [cols]; [api] is
    [emailsAPI.fetchEmailsByStatus].  The optional mailbox sync before it
    has its own [catch] and leaves the state alone. *)
Definition fetchEmailsByStatus (api : jsstring → outcome (list Email))
    (cols : list KanbanColumn) (st : Board.State) : Board.State :=
  match cols with
  | [] => st
  | _ :: _ =>
      match all_results api cols with
      | Returned results =>
          Board.mkState (collect cols results) (Board.draggingEmail st)
                        (Board.snoozeEmailId st)
      | Thrown => st
      end
  end.

(** [Object.values(emailsByStatus).reduce((sum, emails) => sum + emails.length, 0)] *)
Definition allEmailsCount (m : gmap jsstring (list Email)) : nat :=
  map_fold (λ _ bucket sum, (sum + length bucket)%nat) 0%nat m.

Inductive SortBy := newest | oldest.

Section Filter.
(** The fields of an email read by the filter: [new Date(e.timestamp).getTime()]
    and [e.attachments && e.attachments.length > 0]. *)
Variables (time : Email → Z) (hasAttachments : Email → bool).

Definition by_date (sortBy : SortBy) (a b : Email) : Z :=
  match sortBy with
  | newest => (time b - time a)%Z
  | oldest => (time a - time b)%Z
  end.

Definition shown (filterUnread filterAttachments : bool) (e : Email) : bool :=
  (if filterUnread then negb (e_isRead e) else true)
  && (if filterAttachments then hasAttachments e else true).

Definition getFilteredAndSortedEmails (sortBy : SortBy)
    (filterUnread filterAttachments : bool) (emails : list Email) : list Email :=
  let unread :=
    if filterUnread then filter (λ e, e_isRead e = false) emails else emails in
  let attached :=
    if filterAttachments then filter (λ e, hasAttachments e = true) unread else unread in
  Array_sort (by_date sortBy) attached.

End Filter.

End BoardOps.

Module SearchBar.

Inductive SearchType := fuzzy | semantic.

Record State := mkState {
  query : jsstring;
  suggestions : list jsstring;
  showSuggestions : bool;
  selectedIndex : Z;
  searchType : SearchType
}.

(** A call of the [onSearch] prop. *)
Record Search := mkSearch {
  search_query : jsstring;
  search_semantic : bool
}.

(** [handleSearch] *)
Definition handleSearch (searchQuery : jsstring) (st : State) : State * option Search :=
  if truthy (Slug.trim searchQuery) then
    (mkState (query st) (suggestions st) false (selectedIndex st) (searchType st),
     Some (mkSearch (Slug.trim searchQuery)
                    (match searchType st with semantic => true | fuzzy => false end)))
  else (st, None).

Inductive Key := Enter | ArrowDown | ArrowUp | Escape | OtherKey.

(** [handleKeyDown] *)
Definition handleKeyDown (key : Key) (st : State) : State * option Search :=
  let n := Z.of_nat (length (suggestions st)) in
  match key with
  | Enter =>
      if ((0 <=? selectedIndex st) && (selectedIndex st <? n))%Z then
        match suggestions st !! Z.to_nat (selectedIndex st) with
        | Some selected =>
            handleSearch selected
              (mkState selected (suggestions st) (showSuggestions st)
                       (selectedIndex st) (searchType st))
        | None => (st, None)
        end
      else handleSearch (query st) st
  | ArrowDown =>
      (mkState (query st) (suggestions st) (showSuggestions st)
               (if (selectedIndex st <? n - 1)%Z then (selectedIndex st + 1)%Z else 0%Z)
               (searchType st), None)
  | ArrowUp =>
      (mkState (query st) (suggestions st) (showSuggestions st)
               (if (0 <? selectedIndex st)%Z then (selectedIndex st - 1)%Z else (n - 1)%Z)
               (searchType st), None)
  | Escape =>
      (mkState (query st) (suggestions st) false (-1)%Z (searchType st), None)
  | OtherKey => (st, None)
  end.

(** [handleSuggestionClick] *)
Definition handleSuggestionClick (suggestion : jsstring) (st : State) : State * option Search :=
  handleSearch suggestion
    (mkState suggestion (suggestions st) (showSuggestions st) (selectedIndex st)
             (searchType st)).

(** [handleClear] *)
Definition handleClear (st : State) : State :=
  mkState [] [] false (selectedIndex st) (searchType st).

End SearchBar.

(** Every committed configuration has pairwise distinct column ids. *)
Definition committed_ids_distinct (s : Store) : Prop :=
  ∀ owner cols, configs s !! owner = Some cols → ids_distinct cols.

(** The same emails in the same order, where only the statuses of the emails
    of [userId] may differ. *)
Definition same_cards (userId : option jsstring) (before after : list EmailDoc) : Prop :=
  Forall2 (λ e e', doc_id e' = doc_id e ∧ doc_userId e' = doc_userId e
                   ∧ (Some (doc_userId e) ≠ userId → e' = e)) before after.

(** Edits of the dialog that touch no title and no Gmail label. *)
Inductive NeutralEdit :=
| Move (columnId : jsstring) (direction : SettingsOps.Direction)
| Recolor (columnId : jsstring) (value : option jsstring)
| Reicon (columnId : jsstring) (value : option jsstring)
| Remove (confirmed : bool) (columnId : jsstring).

Definition apply_edit (st : Settings.State) (e : NeutralEdit) : Settings.State :=
  match e with
  | Move columnId direction => SettingsOps.handleMoveColumn columnId direction st
  | Recolor columnId value =>
      Settings.handleUpdateColumn columnId Settings.F_color value st
  | Reicon columnId value =>
      Settings.handleUpdateColumn columnId Settings.F_icon value st
  | Remove confirmed columnId => Settings.handleDeleteColumn confirmed columnId st
  end.

(** * Properties *)

(** ** Slugs *)

Module SlugFacts.
Import Slug.

Local Arguments N.eqb : simpl never.
Local Arguments N.leb : simpl never.

(** Turn boolean comparisons of code units in [H] into arithmetic. *)
Ltac unit_arith H :=
  repeat (progress
    rewrite ?orb_true_iff, ?andb_true_iff, ?N.leb_le, ?N.eqb_eq in H).

Lemma slug_char_not_space c : is_slug_char c = true → is_space c = false.
Proof.
  unfold is_slug_char, is_lower_alnum, is_space, in_range, hyphen.
  intros H. apply not_true_iff_false. intros Hs.
  unit_arith H. unit_arith Hs. lia.
Qed.

Lemma slug_char_kept c : is_slug_char c = true → is_kept c = true.
Proof.
  unfold is_slug_char, is_kept.
  destruct (is_lower_alnum c), (is_space c), (c =? hyphen); done.
Qed.

Lemma kept_not_space_slug c :
  is_kept c = true → is_space c = false → is_slug_char c = true.
Proof.
  unfold is_slug_char, is_kept.
  destruct (is_lower_alnum c), (is_space c), (c =? hyphen); done.
Qed.

Lemma slug_char_lower c : is_slug_char c = true → lower_unit c = [c].
Proof.
  unfold is_slug_char, is_lower_alnum, lower_unit, in_range, hyphen. intros H.
  unit_arith H.
  destruct (65 <=? c) eqn:E1, (c <=? 90) eqn:E2, (c =? 304) eqn:E3,
    (c =? 8490) eqn:E4; simpl; try done;
    rewrite ?N.leb_le, ?N.eqb_eq in *; lia.
Qed.

Lemma hyphen_slug_char : is_slug_char hyphen = true.
Proof. reflexivity. Qed.

(** *** The shape of each stage *)

Lemma remove_special_kept s : Forall (λ c, is_kept c = true) (remove_special s).
Proof.
  unfold remove_special. apply Forall_forall. intros c Hc.
  by apply list_elem_of_filter in Hc as [? _].
Qed.

Lemma spaces_to_hyphen_slug_chars b s :
  Forall (λ c, is_kept c = true) s →
  Forall (λ c, is_slug_char c = true) (replace_runs is_space b s).
Proof.
  intros H. revert b. induction H as [|c s Hc _ IH]; intros b; simpl; [constructor|].
  destruct (is_space c) eqn:E.
  - destruct b; [apply IH|]. constructor; [apply hyphen_slug_char | apply IH].
  - constructor; [by apply kept_not_space_slug | apply IH].
Qed.

Lemma replace_runs_slug_chars p b s :
  Forall (λ c, is_slug_char c = true) s →
  Forall (λ c, is_slug_char c = true) (replace_runs p b s).
Proof.
  intros H. revert b. induction H as [|c s Hc _ IH]; intros b; simpl; [constructor|].
  destruct (p c).
  - destruct b; [apply IH|]. constructor; [apply hyphen_slug_char | apply IH].
  - constructor; [done | apply IH].
Qed.

Lemma no_double_cons c s :
  (c =? hyphen) = false ∨ no_leading_hyphen s = true →
  no_double_hyphen s = true →
  no_double_hyphen (c :: s) = true.
Proof.
  destruct s as [|d s]; [done|]. simpl. intros [->| ->%negb_true_iff] ->;
    by rewrite ?andb_false_r.
Qed.

Lemma no_double_tail c s : no_double_hyphen (c :: s) = true → no_double_hyphen s = true.
Proof. destruct s as [|d s]; [done|]. simpl. by intros [_ ?]%andb_true_iff. Qed.

Lemma no_double_head c s :
  no_double_hyphen (c :: s) = true →
  (c =? hyphen) = true → no_leading_hyphen s = true.
Proof.
  destruct s as [|d s]; [done|]. simpl. intros [H _]%andb_true_iff E.
  rewrite E in H. by destruct (d =? hyphen).
Qed.

Lemma collapse_no_double b s :
  no_double_hyphen (replace_runs (λ c, c =? hyphen) b s) = true
  ∧ (b = true → no_leading_hyphen (replace_runs (λ c, c =? hyphen) b s) = true).
Proof.
  revert b. induction s as [|c s IH]; intros b; simpl; [done|].
  destruct (c =? hyphen) eqn:E.
  - destruct b.
    + apply IH.
    + split; [|done]. destruct (IH true) as [H1 H2].
      apply no_double_cons; [right; by apply H2 | done].
  - destruct (IH false) as [H1 _]. split.
    + apply no_double_cons; [by left | done].
    + intros _. simpl. by rewrite E.
Qed.

Lemma drop_leading_slug_chars s :
  Forall (λ c, is_slug_char c = true) s →
  Forall (λ c, is_slug_char c = true) (drop_leading_hyphen s).
Proof.
  destruct s as [|c s]; simpl; [done|]. intros H.
  destruct (c =? hyphen); [by inversion H | done].
Qed.

Lemma drop_trailing_slug_chars s :
  Forall (λ c, is_slug_char c = true) s →
  Forall (λ c, is_slug_char c = true) (drop_trailing_hyphen s).
Proof.
  induction 1 as [|c s Hc Hs IH]; simpl; [constructor|].
  destruct s as [|d s].
  - destruct (c =? hyphen); [constructor | by constructor].
  - by constructor.
Qed.

Lemma drop_leading_no_double s :
  no_double_hyphen s = true → no_double_hyphen (drop_leading_hyphen s) = true.
Proof.
  destruct s as [|c s]; [done|]. intros H. cbn [drop_leading_hyphen].
  destruct (c =? hyphen); [by eapply no_double_tail | done].
Qed.

Lemma drop_leading_no_leading s :
  no_double_hyphen s = true → no_leading_hyphen (drop_leading_hyphen s) = true.
Proof.
  destruct s as [|c s]; [done|]. intros H. unfold drop_leading_hyphen.
  destruct (c =? hyphen) eqn:E; [by eapply no_double_head | simpl; by rewrite E].
Qed.

Lemma drop_trailing_no_double s :
  no_double_hyphen s = true → no_double_hyphen (drop_trailing_hyphen s) = true.
Proof.
  induction s as [|c s IH]; [done|]. intros H.
  destruct s as [|d s].
  - simpl. by destruct (c =? hyphen).
  - change (drop_trailing_hyphen (c :: d :: s))
      with (c :: drop_trailing_hyphen (d :: s)).
    pose proof (IH (no_double_tail _ _ H)) as IH'.
    destruct (c =? hyphen) eqn:E.
    + apply no_double_cons; [|done]. right.
      pose proof (no_double_head _ _ H E) as Hd. simpl in Hd.
      destruct s as [|d' s]; simpl; [|done].
      destruct (d =? hyphen) eqn:E'; [done|]. simpl. by rewrite E'.
    + apply no_double_cons; [by left | done].
Qed.

Lemma drop_trailing_no_leading s :
  no_leading_hyphen s = true → no_leading_hyphen (drop_trailing_hyphen s) = true.
Proof.
  destruct s as [|c [|d s]]; simpl; [done| |done].
  destruct (c =? hyphen) eqn:E; simpl; [done|]. by rewrite E.
Qed.

Lemma drop_trailing_no_trailing s :
  no_double_hyphen s = true → no_trailing_hyphen (drop_trailing_hyphen s) = true.
Proof.
  unfold no_trailing_hyphen.
  induction s as [|c s IH]; [done|]. intros H.
  destruct s as [|d s].
  - simpl. destruct (c =? hyphen) eqn:E; simpl; [done | by rewrite E].
  - change (drop_trailing_hyphen (c :: d :: s))
      with (c :: drop_trailing_hyphen (d :: s)).
    specialize (IH (no_double_tail _ _ H)).
    destruct (drop_trailing_hyphen (d :: s)) as [|x xs] eqn:Ed.
    + simpl. destruct s as [|d' s]; [|done]. simpl in Ed.
      destruct (d =? hyphen) eqn:E'; [|done].
      simpl in H. rewrite E', andb_true_r in H.
      by destruct (c =? hyphen).
    + by rewrite last_cons_cons.
Qed.

End SlugFacts.

Module SlugIdempotence.
Import Slug SlugFacts.

Local Arguments N.eqb : simpl never.
Local Arguments N.leb : simpl never.

(** *** Each stage leaves a well-formed slug alone *)

Lemma toLowerCase_fixes s :
  Forall (λ c, is_slug_char c = true) s → toLowerCase s = s.
Proof.
  unfold toLowerCase. induction 1 as [|c s Hc _ IH]; [done|].
  by rewrite bind_cons, (slug_char_lower c Hc), IH.
Qed.

Lemma trimStart_fixes s :
  Forall (λ c, is_slug_char c = true) s → trimStart s = s.
Proof.
  destruct 1 as [|c s Hc _]; [done|]. simpl.
  by rewrite (slug_char_not_space c Hc).
Qed.

Lemma trim_fixes s :
  Forall (λ c, is_slug_char c = true) s → trim s = s.
Proof.
  intros H. unfold trim, trimEnd. rewrite (trimStart_fixes s H).
  rewrite trimStart_fixes by by apply Forall_reverse.
  apply reverse_involutive.
Qed.

Lemma remove_special_fixes s :
  Forall (λ c, is_slug_char c = true) s → remove_special s = s.
Proof.
  unfold remove_special. induction 1 as [|c s Hc _ IH]; [done|].
  rewrite filter_cons_True by by apply slug_char_kept. by rewrite IH.
Qed.

Lemma spaces_to_hyphen_fixes s :
  Forall (λ c, is_slug_char c = true) s → spaces_to_hyphen s = s.
Proof.
  unfold spaces_to_hyphen. generalize false.
  intros b H. revert b. induction H as [|c s Hc _ IH]; intros b; [done|].
  simpl. by rewrite (slug_char_not_space c Hc), IH.
Qed.

Lemma collapse_fixes b s :
  no_double_hyphen s = true →
  (b = true → no_leading_hyphen s = true) →
  replace_runs (λ c, c =? hyphen) b s = s.
Proof.
  revert b. induction s as [|c s IH]; intros b Hd Hl; [done|].
  cbn [replace_runs]. destruct (c =? hyphen) eqn:E.
  - destruct b.
    + specialize (Hl eq_refl). simpl in Hl. by rewrite E in Hl.
    + f_equal; [symmetry; by apply N.eqb_eq|].
      apply IH; [by eapply no_double_tail|]. intros _. by eapply no_double_head.
  - f_equal. apply IH; [by eapply no_double_tail | done].
Qed.

Lemma drop_leading_fixes s :
  no_leading_hyphen s = true → drop_leading_hyphen s = s.
Proof.
  destruct s as [|c s]; [done|]. simpl. by intros ->%negb_true_iff.
Qed.

Lemma drop_trailing_fixes s :
  no_trailing_hyphen s = true → drop_trailing_hyphen s = s.
Proof.
  unfold no_trailing_hyphen. induction s as [|c s IH]; [done|].
  destruct s as [|d s].
  - simpl. by intros ->%negb_true_iff.
  - rewrite last_cons_cons. intros H.
    change (drop_trailing_hyphen (c :: d :: s))
      with (c :: drop_trailing_hyphen (d :: s)).
    by rewrite IH.
Qed.

Lemma well_formed_fixed s : well_formed s → generateSlugFromTitle s = s.
Proof.
  intros (Hc & Hl & Ht & Hd). unfold generateSlugFromTitle.
  rewrite (toLowerCase_fixes s Hc), (trim_fixes s Hc), (remove_special_fixes s Hc),
    (spaces_to_hyphen_fixes s Hc).
  unfold collapse_hyphens. rewrite collapse_fixes by done.
  unfold strip_edge_hyphens. rewrite (drop_leading_fixes s Hl).
  by apply drop_trailing_fixes.
Qed.

Lemma generateSlugFromTitle_well_formed L : well_formed (generateSlugFromTitle L).
Proof.
  unfold generateSlugFromTitle.
  set (t := collapse_hyphens _).
  assert (Forall (λ c, is_slug_char c = true) t) as Hc.
  { apply replace_runs_slug_chars, spaces_to_hyphen_slug_chars, remove_special_kept. }
  assert (no_double_hyphen t = true) as Hd by apply collapse_no_double.
  unfold strip_edge_hyphens. repeat split.
  - by apply drop_trailing_slug_chars, drop_leading_slug_chars.
  - by apply drop_trailing_no_leading, drop_leading_no_leading.
  - by apply drop_trailing_no_trailing, drop_leading_no_double.
  - by apply drop_trailing_no_double, drop_leading_no_double.
Qed.

End SlugIdempotence.

(** C6. For every input string [L], [generateSlugFromTitle L] contains only
    characters of [a-z0-9-], neither starts nor ends with a hyphen, has no
    two consecutive hyphens, and applying [generateSlugFromTitle] to it
    again gives the same string. *)
Theorem C6_slug_shape_and_idempotent (L : jsstring) :
  Forall (λ c, Slug.is_slug_char c = true) (Slug.generateSlugFromTitle L)
  ∧ Slug.no_leading_hyphen (Slug.generateSlugFromTitle L) = true
  ∧ Slug.no_trailing_hyphen (Slug.generateSlugFromTitle L) = true
  ∧ Slug.no_double_hyphen (Slug.generateSlugFromTitle L) = true
  ∧ Slug.generateSlugFromTitle (Slug.generateSlugFromTitle L)
    = Slug.generateSlugFromTitle L.
Proof.
  pose proof (SlugIdempotence.generateSlugFromTitle_well_formed L) as H.
  pose proof (SlugIdempotence.well_formed_fixed _ H) as Hfix.
  destruct H as (? & ? & ? & ?). done.
Qed.

(** ** Unique statuses *)

Module UniqueStatus.
Import Settings.

Global Instance str_inj : Inj (=) (=) str.
Proof.
  intros s1 s2 H. unfold str in H.
  assert (Inj (=) (=) N_of_ascii) as Hinj.
  { intros a b Hab. by rewrite <- (ascii_N_embedding a), Hab, ascii_N_embedding. }
  apply (inj (fmap N_of_ascii)) in H.
  by rewrite <- (string_of_list_ascii_of_string s1), H, string_of_list_ascii_of_string.
Qed.

Global Instance Number_toString_inj : Inj (=) (=) Number_toString.
Proof. intros a b H. unfold Number_toString in H. by apply (inj str), (inj pretty) in H. Qed.

Global Instance candidate_inj base : Inj (=) (=) (candidate base).
Proof.
  intros [|j] [|k] H; simpl in H; [done| | |].
  - apply (f_equal length) in H. rewrite length_app in H. simpl in H. lia.
  - apply (f_equal length) in H. rewrite length_app in H. simpl in H. lia.
  - apply app_inv_head in H. injection H as H. apply (inj Number_toString) in H. lia.
Qed.

Section Loop.
Variables (base : jsstring) (columns : list KanbanColumn) (excludeId : option jsstring).

Let taken := status_taken columns excludeId.

Lemma taken_elem status :
  taken status = true ↔
  ∃ col, col ∈ columns ∧ col_status col = status ∧ Some (col_id col) ≠ excludeId.
Proof.
  unfold taken, status_taken. rewrite existsb_exists. split.
  - intros (col & Hin & [H1 H2]%andb_true_iff).
    exists col. apply list_elem_of_In in Hin.
    apply bool_decide_eq_true in H1, H2. done.
  - intros (col & Hin & H1 & H2). exists col. split; [by apply list_elem_of_In|].
    apply andb_true_iff. split; by apply bool_decide_eq_true.
Qed.

Lemma taken_status status : taken status = true → status ∈ col_status <$> columns.
Proof.
  intros (col & Hin & <- & _)%taken_elem. by apply list_elem_of_fmap_2.
Qed.

(** The loop started at candidate [j] returns the first free candidate
    [k] at or after [j], as soon as the fuel reaches it. *)
Lemma loop_reaches fuel j k :
  (j ≤ k < j + fuel)%nat →
  taken (candidate base k) = false →
  (∀ i, (j ≤ i < k)%nat → taken (candidate base i) = true) →
  unique_status_loop fuel base columns excludeId
    (candidate base j) (N.of_nat j + 1)
  = Some (candidate base k).
Proof.
  revert j. induction fuel as [|fuel IH]; intros j Hjk Hfree Hbelow; [lia|].
  cbn [unique_status_loop]. fold taken.
  destruct (decide (j = k)) as [->|Hne].
  - by rewrite Hfree.
  - rewrite Hbelow by lia.
    replace (base ++ [Slug.hyphen] ++ Number_toString (N.of_nat j + 1))
      with (candidate base (S j))
      by (unfold candidate; do 3 f_equal; lia).
    replace (N.of_nat j + 1 + 1) with (N.of_nat (S j) + 1) by lia.
    apply IH; [lia | done |]. intros i Hi. apply Hbelow. lia.
Qed.

(** Among the first [length columns + 1] candidates one is free: they
    are pairwise different and each taken one is the status of a column. *)
Lemma free_candidate_exists :
  ∃ k, (k ≤ length columns)%nat
       ∧ taken (candidate base k) = false
       ∧ ∀ i, (i < k)%nat → taken (candidate base i) = true.
Proof.
  destruct (list_find (λ k, taken (candidate base k) = false)
              (seq 0 (S (length columns)))) as [[i k]|] eqn:E.
  - apply list_find_Some in E as (Hi & Hfree & Hbelow).
    apply lookup_seq in Hi as [-> Hi]. exists i. split; [lia|]. split; [done|].
    intros i' Hi'. specialize (Hbelow i' i').
    rewrite lookup_seq in Hbelow.
    destruct (taken (candidate base i')); [done|].
    exfalso. apply Hbelow; [split; [done | lia] | done | done].
  - exfalso. apply list_find_None in E.
    assert (candidate base <$> seq 0 (S (length columns))
            ⊆+ col_status <$> columns) as Hsub.
    { apply NoDup_submseteq.
      - apply NoDup_fmap_2; [apply _ | apply NoDup_seq].
      - intros s (k & -> & Hk)%list_elem_of_fmap. apply taken_status.
        rewrite Forall_forall in E. specialize (E k Hk).
        by destruct (taken (candidate base k)). }
    apply submseteq_length in Hsub.
    rewrite !length_fmap, length_seq in Hsub. lia.
Qed.

Lemma loop_returns :
  ∃ k, (k ≤ length columns)%nat
       ∧ taken (candidate base k) = false
       ∧ (∀ i, (i < k)%nat → taken (candidate base i) = true)
       ∧ ∀ fuel, (length columns < fuel)%nat →
           unique_status_loop fuel base columns excludeId base 1
           = Some (candidate base k).
Proof.
  destruct free_candidate_exists as (k & Hk & Hfree & Hbelow).
  exists k. repeat split; [done..|]. intros fuel Hfuel.
  apply (loop_reaches fuel 0 k); [lia | done |]. intros i Hi. apply Hbelow. lia.
Qed.

End Loop.

(** [generateUniqueStatus] returns: the fuel given to its loop is enough,
    and more fuel does not change the result. *)
Lemma generateUniqueStatus_returns gmailLabel title columns excludeId fuel :
  (length columns < fuel)%nat →
  generateUniqueStatus_fuel fuel gmailLabel title columns excludeId
  = Some (generateUniqueStatus gmailLabel title columns excludeId).
Proof.
  intros Hfuel. unfold generateUniqueStatus, generateUniqueStatus_fuel.
  destruct (loop_returns (baseStatus gmailLabel title) columns excludeId)
    as (k & _ & _ & _ & Hloop).
  rewrite (Hloop (S (length columns))) by lia. by rewrite (Hloop fuel).
Qed.

Lemma generateUniqueStatus_candidate gmailLabel title columns excludeId :
  ∃ k, (k ≤ length columns)%nat
       ∧ generateUniqueStatus gmailLabel title columns excludeId
         = candidate (baseStatus gmailLabel title) k
       ∧ status_taken columns excludeId
           (candidate (baseStatus gmailLabel title) k) = false
       ∧ ∀ i, (i < k)%nat →
           status_taken columns excludeId
             (candidate (baseStatus gmailLabel title) i) = true.
Proof.
  destruct (loop_returns (baseStatus gmailLabel title) columns excludeId)
    as (k & Hk & Hfree & Hbelow & Hloop).
  exists k. repeat split; [done| |done..].
  unfold generateUniqueStatus, generateUniqueStatus_fuel.
  by rewrite (Hloop (S (length columns))) by lia.
Qed.

Lemma generateUniqueStatus_free gmailLabel title columns excludeId col :
  col ∈ columns → Some (col_id col) ≠ excludeId →
  col_status col ≠ generateUniqueStatus gmailLabel title columns excludeId.
Proof.
  intros Hin Hid Heq.
  destruct (generateUniqueStatus_candidate gmailLabel title columns excludeId)
    as (k & _ & Hr & Hfree & _).
  rewrite <- Hr in Hfree. apply not_true_iff_false in Hfree. apply Hfree.
  apply taken_elem. by exists col.
Qed.

End UniqueStatus.

(** C5. For every label, title, column list and excluded id,
    [generateUniqueStatus] returns (its loop ends within the columns' number
    plus one tests); the status returned is the status of no column of the
    list other than the excluded ones; it is the base slug itself when the
    base collides with no other column, and otherwise the base followed by
    "-k" for the least positive integer k whose candidate collides with no
    other column. *)
Theorem C5_generateUniqueStatus_least_free
    (gmailLabel : option jsstring) (title : jsstring)
    (columns : list KanbanColumn) (excludeId : option jsstring) :
  let base := Settings.baseStatus gmailLabel title in
  let result := Settings.generateUniqueStatus gmailLabel title columns excludeId in
  let suffixed (k : N) := base ++ [Slug.hyphen] ++ Number_toString k in
  Settings.generateUniqueStatus_fuel (S (length columns)) gmailLabel title columns excludeId
  = Some result
  ∧ (∀ col, col ∈ columns → Some (col_id col) ≠ excludeId → col_status col ≠ result)
  ∧ match Settings.status_taken columns excludeId base with
    | false => result = base
    | true =>
        ∃ k : N, 0 < k ∧ result = suffixed k
                 ∧ Settings.status_taken columns excludeId (suffixed k) = false
                 ∧ ∀ i : N, 0 < i < k →
                     Settings.status_taken columns excludeId (suffixed i) = true
    end.
Proof.
  intros base result suffixed. split; [|split].
  - apply UniqueStatus.generateUniqueStatus_returns. lia.
  - intros col. apply UniqueStatus.generateUniqueStatus_free.
  - destruct (UniqueStatus.generateUniqueStatus_candidate gmailLabel title columns excludeId)
      as (k & _ & Hr & Hfree & Hbelow).
    fold base in Hr, Hfree, Hbelow. fold result in Hr.
    destruct (Settings.status_taken columns excludeId base) eqn:Hbase.
    + destruct k as [|k]; [simpl in Hfree; congruence|].
      exists (N.of_nat (S k)). split; [lia|]. split; [done|]. split; [done|].
      intros i Hi. specialize (Hbelow (N.to_nat i)).
      destruct (N.to_nat i) as [|i'] eqn:Ei; [lia|].
      unfold Settings.candidate in Hbelow. rewrite <- Ei, N2Nat.id in Hbelow.
      apply Hbelow. lia.
    + destruct k as [|k]; [done|].
      specialize (Hbelow 0%nat). simpl in Hbelow. rewrite Hbelow in Hbase by lia. done.
Qed.

(** ** The routes: what each request leaves in the configuration collection *)

Module RoutesFacts.
Import Routes.

Lemma migrate_configs f u entries s :
  configs (migrate f u entries s).1 = configs s.
Proof.
  revert s. induction entries as [|[old new] rest IH]; intros s; [done|].
  cbn [migrate]. unfold bindM, updateMany, console_log.
  destruct (updateMany_throws f old new); [done|]. by rewrite IH.
Qed.

Lemma migration_step_configs f u body s :
  configs (migration_step f u body s).1 = configs s.
Proof.
  unfold migration_step. destruct (put_statusMigrations body) as [m|]; [|done].
  destruct (0 <? _)%nat; [apply migrate_configs | done].
Qed.

Lemma put_config_unfold f u body cols s :
  put_columns body = Some cols →
  existsb incomplete cols = false →
  put_config f (Some u) body s =
    match migration_step f u body s with
    | (s1, Returned _) =>
        if config_write_throws f then (s1, ServerError500)
        else (mkStore (<[u := cols]> (configs s1)) (emails s1) (console s1),
              Ok200 cols "Kanban configuration updated successfully")
    | (s1, Thrown) => (s1, ServerError500)
    end.
Proof.
  intros Hcols Hvalid. unfold put_config, try_catch_500.
  rewrite Hcols, Hvalid. unfold bindM, write_config, ret.
  destruct (migration_step f u body s) as [s1 [[]|]]; [|done].
  by destruct (config_write_throws f).
Qed.

(** A PUT request either answers 200 and stores exactly the columns of its
    body for the requesting user, or leaves the configuration collection as
    it was. *)
Lemma put_config_configs f user body s :
  (∃ u cols msg, user = Some u ∧ put_columns body = Some cols
     ∧ (put_config f user body s).2 = Ok200 cols msg
     ∧ configs (put_config f user body s).1 = <[u := cols]> (configs s))
  ∨ (configs (put_config f user body s).1 = configs s
     ∧ ∀ data msg, (put_config f user body s).2 ≠ Ok200 data msg).
Proof.
  destruct user as [u|]; [|by right].
  destruct (put_columns body) as [cols|] eqn:Hcols;
    [|right; unfold put_config, try_catch_500; by rewrite Hcols].
  destruct (existsb incomplete cols) eqn:Hvalid;
    [right; unfold put_config, try_catch_500; by rewrite Hcols, Hvalid|].
  rewrite (put_config_unfold f u body cols s Hcols Hvalid).
  pose proof (migration_step_configs f u body s) as Hm.
  destruct (migration_step f u body s) as [s1 [[]|]]; simpl in Hm.
  - destruct (config_write_throws f).
    + right. by split.
    + left. exists u, cols, "Kanban configuration updated successfully"%string.
      simpl. by rewrite Hm.
  - right. by split.
Qed.

Lemma post_column_configs f user column s :
  (∃ u msg, user = Some u
     ∧ (∀ c, c ∈ default [] (configs s !! u) → col_id c ≠ col_id column)
     ∧ (post_column f user column s).2
       = Ok200 (default [] (configs s !! u) ++ [column]) msg
     ∧ configs (post_column f user column s).1
       = <[u := default [] (configs s !! u) ++ [column]]> (configs s))
  ∨ (post_column f user column s).1 = s.
Proof.
  destruct user as [u|]; [|by right].
  unfold post_column, try_catch_500.
  destruct (incomplete column); [by right|].
  unfold bindM, findOne, write_config, ret.
  destruct (findOne_throws f); [by right|].
  destruct (existsb _ _) eqn:Hdup; [by right|].
  destruct (config_write_throws f); [by right|].
  left. exists u, "Column added successfully"%string. repeat split; [|done..].
  intros c Hc Heq. apply not_true_iff_false in Hdup. apply Hdup.
  apply existsb_exists. exists c. split; [by apply list_elem_of_In|].
  by apply bool_decide_eq_true.
Qed.

Lemma delete_column_configs f user columnId s :
  (∃ u cols msg, user = Some u ∧ configs s !! u = Some cols
     ∧ (delete_column f user columnId s).2
       = Ok200 (filter (λ c, col_id c ≠ columnId) cols) msg
     ∧ configs (delete_column f user columnId s).1
       = <[u := filter (λ c, col_id c ≠ columnId) cols]> (configs s))
  ∨ (delete_column f user columnId s).1 = s.
Proof.
  destruct user as [u|]; [|by right].
  unfold delete_column, try_catch_500, bindM, findOne, write_config, ret.
  destruct (findOne_throws f); [by right|].
  destruct (configs s !! u) as [cols|] eqn:E; [|by right].
  destruct (config_write_throws f); [by right|].
  left. by exists u, cols, "Column removed successfully"%string.
Qed.

Lemma patch_column_configs f user columnId updates s :
  (∃ u cols i column msg, user = Some u ∧ configs s !! u = Some cols
     ∧ cols !! i = Some column
     ∧ (patch_column f user columnId updates s).2
       = Ok200 (<[i := merge column updates columnId]> cols) msg
     ∧ configs (patch_column f user columnId updates s).1
       = <[u := <[i := merge column updates columnId]> cols]> (configs s))
  ∨ (patch_column f user columnId updates s).1 = s.
Proof.
  destruct user as [u|]; [|by right].
  unfold patch_column, try_catch_500, bindM, findOne, write_config, ret.
  destruct (findOne_throws f); [by right|].
  destruct (configs s !! u) as [cols|] eqn:E; [|by right].
  destruct (list_find _ cols) as [[i column]|] eqn:Hfind; [|by right].
  destruct (config_write_throws f); [by right|].
  left. exists u, cols, i, column, "Column updated successfully"%string.
  apply list_find_Some in Hfind as (Hi & _ & _). done.
Qed.

End RoutesFacts.

(** ** Distinct statuses *)

Module Distinct.
Import Routes RoutesFacts.

Lemma elem_of_insert_inv {A} (l : list A) i x y :
  y ∈ <[i := x]> l → y = x ∨ y ∈ l.
Proof.
  revert i. induction l as [|a l IH]; intros i; [by right|].
  destruct i as [|i]; simpl.
  - intros [->|?]%elem_of_cons; [by left | right; by right].
  - intros [->|H]%elem_of_cons; [right; by left|].
    destruct (IH i H) as [->|?]; [by left | right; by right].
Qed.

Lemma NoDup_insert_fresh {A} (l : list A) i x :
  NoDup l → x ∉ l → NoDup (<[i := x]> l).
Proof.
  intros Hl. revert i. induction Hl as [|a l Ha Hl IH]; intros i Hx; [constructor|].
  apply not_elem_of_cons in Hx as [Hxa Hx].
  destruct i as [|i]; simpl; constructor; [done..| |by apply IH].
  intros [->|?]%elem_of_insert_inv; done.
Qed.

Lemma committed_distinct_insert s u cols s' :
  committed_distinct s → statuses_distinct cols →
  configs s' = <[u := cols]> (configs s) →
  committed_distinct s'.
Proof.
  intros Hs Hcols Heq owner cols' Hlook. rewrite Heq in Hlook.
  destruct (decide (u = owner)) as [->|Hne].
  - rewrite lookup_insert_eq in Hlook. by injection Hlook as <-.
  - rewrite lookup_insert_ne in Hlook by done. by eapply Hs.
Qed.

Lemma committed_distinct_same s s' :
  committed_distinct s → configs s' = configs s → committed_distinct s'.
Proof. intros Hs Heq owner cols. rewrite Heq. apply Hs. Qed.

Lemma committed_distinct_current s u :
  committed_distinct s → statuses_distinct (default [] (configs s !! u)).
Proof.
  intros Hs. destruct (configs s !! u) as [cols|] eqn:E; [by eapply Hs | constructor].
Qed.

Lemma merge_keeps_distinct cols i column updates columnId :
  statuses_distinct cols → cols !! i = Some column →
  (∀ st, p_status updates = Some st → st ∉ col_status <$> cols) →
  statuses_distinct (<[i := merge column updates columnId]> cols).
Proof.
  unfold statuses_distinct. intros Hcols Hi Hfresh. rewrite list_fmap_insert.
  destruct (p_status updates) as [st|] eqn:E; simpl; rewrite E; simpl.
  - apply NoDup_insert_fresh; [done | by apply Hfresh].
  - rewrite list_insert_id; [done|]. by rewrite list_lookup_fmap, Hi.
Qed.

End Distinct.

(** C1 (as amended). The routes compare no statuses: they keep the committed
    configurations free of duplicate statuses whenever the data they are
    given brings none.  Starting from a store whose configurations all have
    pairwise distinct statuses, this still holds after a PUT whose columns
    have pairwise distinct statuses, after a POST of a column whose status
    no column of the requesting user carries, and after a PATCH that either
    carries no status or carries one that no column of the requesting user
    has. *)
Theorem C1_routes_keep_distinct_statuses_of_distinct_input
    (f : Faults) (user : option jsstring) (s : Store) :
  committed_distinct s →
  (∀ body,
     (∀ cols, Routes.put_columns body = Some cols → statuses_distinct cols) →
     committed_distinct (Routes.put_config f user body s).1)
  ∧ (∀ column,
       (∀ u, user = Some u →
             col_status column ∉ col_status <$> default [] (configs s !! u)) →
       committed_distinct (Routes.post_column f user column s).1)
  ∧ (∀ columnId updates,
       (∀ u st, user = Some u → Routes.p_status updates = Some st →
                st ∉ col_status <$> default [] (configs s !! u)) →
       committed_distinct (Routes.patch_column f user columnId updates s).1).
Proof.
  intros Hs. split; [|split].
  - intros body Hbody.
    destruct (RoutesFacts.put_config_configs f user body s)
      as [(u & cols & msg & -> & Hcols & _ & Hcfg)|[Hcfg _]].
    + eapply Distinct.committed_distinct_insert; [done | by apply Hbody | done].
    + by eapply Distinct.committed_distinct_same.
  - intros column Hfresh.
    destruct (RoutesFacts.post_column_configs f user column s)
      as [(u & msg & -> & _ & _ & Hcfg)| ->]; [|done].
    eapply Distinct.committed_distinct_insert; [done| |done].
    unfold statuses_distinct. rewrite fmap_app. apply NoDup_app. split; [|split].
    + by apply Distinct.committed_distinct_current.
    + intros st Hst [->|[]%elem_of_nil]%elem_of_cons. by eapply Hfresh.
    + apply NoDup_singleton.
  - intros columnId updates Hfresh.
    destruct (RoutesFacts.patch_column_configs f user columnId updates s)
      as [(u & cols & i & column & msg & -> & Hlook & Hi & _ & Hcfg)| ->]; [|done].
    eapply Distinct.committed_distinct_insert; [done| |done].
    apply Distinct.merge_keeps_distinct; [by eapply Hs | done |].
    intros st Hst. specialize (Hfresh u st eq_refl Hst). by rewrite Hlook in Hfresh.
Qed.

Lemma store_of_distinct cols mails :
  statuses_distinct cols → committed_distinct (store_of cols mails).
Proof.
  intros Hcols owner cols' Hlook. simpl in Hlook.
  by apply lookup_singleton_Some in Hlook as [_ <-].
Qed.

Lemma defaultColumns_distinct : statuses_distinct Routes.defaultColumns.
Proof. unfold statuses_distinct. compute_done. Defined.

Lemma C1_witness :
  committed_distinct (store_of Routes.defaultColumns [])
  ∧ committed_distinct
      (Routes.put_config no_faults (Some alice)
         (Routes.mkPut (Some Routes.defaultColumns) None)
         (store_of Routes.defaultColumns [])).1.
Proof.
  split; [apply store_of_distinct, defaultColumns_distinct|].
  apply (C1_routes_keep_distinct_statuses_of_distinct_input no_faults (Some alice)
           (store_of Routes.defaultColumns [])).
  - apply store_of_distinct, defaultColumns_distinct.
  - intros cols [= <-]. apply defaultColumns_distinct.
Defined.

(** C1 as stated fails: a PUT whose two columns carry the same status is
    answered 200 and committed as it is. *)
Lemma C1_counterexample :
  committed_distinct empty_store
  ∧ Routes.put_config no_faults (Some alice)
      (Routes.mkPut (Some same_status_columns) None) empty_store
    = (store_of same_status_columns [],
       Ok200 same_status_columns "Kanban configuration updated successfully")
  ∧ ¬ committed_distinct (store_of same_status_columns []).
Proof.
  split; [|split].
  - intros owner cols Hlook. simpl in Hlook. by rewrite lookup_empty in Hlook.
  - unfold Routes.put_config, try_catch_500, bindM, Routes.migration_step,
      Routes.write_config, ret, store_of. simpl. by rewrite insert_empty.
  - intros H. specialize (H alice same_status_columns (lookup_singleton_eq _ _)).
    unfold statuses_distinct in H. apply NoDup_cons in H as [H _].
    apply H. vm_compute. left.
Qed.

(** ** Validation of a PUT request *)

Lemma incomplete_lacks col :
  Routes.incomplete col = true ↔
  col_id col = [] ∨ col_title col = [] ∨ col_color col = [] ∨ col_icon col = [].
Proof.
  unfold Routes.incomplete.
  destruct (col_id col), (col_title col), (col_color col), (col_icon col);
    simpl; intuition congruence.
Qed.

Lemma isGmailLabelUsed_elem label cols excludeId :
  Settings.isGmailLabelUsed label cols excludeId = true ↔
  ∃ col, col ∈ cols ∧ col_gmailLabel col = Some label ∧ Some (col_id col) ≠ excludeId.
Proof.
  unfold Settings.isGmailLabelUsed. rewrite existsb_exists. split.
  - intros (col & Hin & [H1 H2]%andb_true_iff). exists col.
    apply list_elem_of_In in Hin. apply bool_decide_eq_true in H1, H2. done.
  - intros (col & Hin & H1 & H2). exists col. split; [by apply list_elem_of_In|].
    apply andb_true_iff. split; by apply bool_decide_eq_true.
Qed.

(** C4 (as amended). A PUT whose columns include one without a non-empty id,
    title, color or icon is answered 400 and leaves the store (configurations
    and emails) exactly as it was.  The PUT route does not compare Gmail
    labels; a duplicate label is refused by the settings editor instead:
    [handleUpdateColumn] leaves the edited columns unchanged when the label
    chosen for a column is already carried by another column. *)
Theorem C4_put_rejects_incomplete_editor_rejects_used_label :
  (∀ f u body cols col s,
     Routes.put_columns body = Some cols → col ∈ cols →
     col_id col = [] ∨ col_title col = [] ∨ col_color col = [] ∨ col_icon col = [] →
     Routes.put_config f (Some u) body s
     = (s, BadRequest400 "Each column must have id, title, color, and icon"))
  ∧ (∀ columnId label st other,
       label ≠ [] → other ∈ Settings.columns st →
       col_gmailLabel other = Some label → col_id other ≠ columnId →
       Settings.handleUpdateColumn columnId Settings.F_gmailLabel (Some label) st = st).
Proof.
  split.
  - intros f u body cols col s Hcols Hin Hlacks.
    unfold Routes.put_config, try_catch_500. rewrite Hcols.
    assert (existsb Routes.incomplete cols = true) as ->; [|done].
    apply existsb_exists. exists col. split; [by apply list_elem_of_In|].
    by apply incomplete_lacks.
  - intros columnId label st other Hlabel Hin Hother Hid.
    unfold Settings.handleUpdateColumn.
    assert (Settings.isGmailLabelUsed label (Settings.columns st) (Some columnId) = true)
      as Hused.
    { apply isGmailLabelUsed_elem. exists other. repeat split; [done..|]. congruence. }
    destruct label as [|c label]; [done|]. simpl in *. by rewrite Hused.
Qed.

Lemma C4_witness :
  Routes.put_config no_faults (Some alice)
    (Routes.mkPut (Some [column "col-a" "todo" "" None 0]) None)
    (store_of Routes.defaultColumns [mail "m1" "todo"])
  = (store_of Routes.defaultColumns [mail "m1" "todo"],
     BadRequest400 "Each column must have id, title, color, and icon")
  ∧ Settings.handleUpdateColumn (str "col-done") Settings.F_gmailLabel
      (Some (str "INBOX")) (Settings.loaded Routes.defaultColumns)
    = Settings.loaded Routes.defaultColumns.
Proof.
  destruct C4_put_rejects_incomplete_editor_rejects_used_label as [Hput Hedit].
  split.
  - apply (Hput no_faults alice _ [column "col-a" "todo" "" None 0]
             (column "col-a" "todo" "" None 0)); [reflexivity | by left |].
    right. left. reflexivity.
  - apply (Hedit (str "col-done") (str "INBOX") (Settings.loaded Routes.defaultColumns)
             (column "col-inbox" "inbox" "Inbox" (Some "INBOX") 0)).
    + discriminate.
    + by left.
    + reflexivity.
    + vm_compute. discriminate.
Defined.

(** C4 as stated fails: a PUT with two complete columns mapped to the same
    Gmail label is answered 200 and committed. *)
Lemma C4_counterexample :
  col_gmailLabel <$> same_label_columns = [Some (str "INBOX"); Some (str "INBOX")]
  ∧ Routes.put_config no_faults (Some alice)
      (Routes.mkPut (Some same_label_columns) None) (store_of Routes.defaultColumns [])
    = (store_of same_label_columns [],
       Ok200 same_label_columns "Kanban configuration updated successfully").
Proof.
  split; [reflexivity|].
  unfold Routes.put_config, try_catch_500, bindM, Routes.migration_step,
    Routes.write_config, ret, store_of. simpl. by rewrite insert_singleton_eq.
Qed.

(** ** Deleting columns *)

Lemma filter_other_id_length (cols : list KanbanColumn) columnId :
  ids_distinct cols →
  (length cols ≤ S (length (filter (λ col, col_id col ≠ columnId) cols)))%nat.
Proof.
  unfold ids_distinct. induction cols as [|c cols IH]; [simpl; lia|].
  rewrite fmap_cons. intros [Hc Hcols]%NoDup_cons.
  destruct (decide (col_id c = columnId)) as [Heq|Hne].
  - rewrite filter_cons_False by (intros ?; done).
    assert (filter (λ col, col_id col ≠ columnId) cols = cols) as ->; [|simpl; lia].
    clear IH Hcols. induction cols as [|d cols IH]; [done|].
    rewrite fmap_cons in Hc. apply not_elem_of_cons in Hc as [Hd Hc].
    rewrite filter_cons_True by congruence. by rewrite IH.
  - rewrite filter_cons_True by done. simpl. specialize (IH Hcols). lia.
Qed.

(** C8 (as amended). The guard against removing the last column is in the
    settings editor: with at most one column [handleDeleteColumn] changes
    nothing, and with pairwise distinct column ids it never leaves the edited
    list empty.  The DELETE route has no such guard. *)
Theorem C8_editor_refuses_to_delete_last_column
    (confirmed : bool) (columnId : jsstring) (st : Settings.State) :
  ids_distinct (Settings.columns st) →
  (1 ≤ length (Settings.columns st))%nat →
  ((length (Settings.columns st) = 1)%nat →
   Settings.handleDeleteColumn confirmed columnId st = st)
  ∧ (1 ≤ length (Settings.columns (Settings.handleDeleteColumn confirmed columnId st)))%nat.
Proof.
  intros Hids Hlen. unfold Settings.handleDeleteColumn. split.
  - intros ->. done.
  - destruct (length (Settings.columns st) <=? 1)%nat eqn:E; [done|].
    apply Nat.leb_gt in E. destruct confirmed; [|done]. simpl.
    pose proof (filter_other_id_length (Settings.columns st) columnId Hids). lia.
Qed.

Lemma C8_witness :
  ids_distinct (Settings.columns (Settings.loaded [column "col-a" "todo" "To Do" None 0]))
  ∧ (1 ≤ length (Settings.columns (Settings.loaded [column "col-a" "todo" "To Do" None 0])))%nat
  ∧ Settings.handleDeleteColumn true (str "col-a")
      (Settings.loaded [column "col-a" "todo" "To Do" None 0])
    = Settings.loaded [column "col-a" "todo" "To Do" None 0].
Proof.
  assert (ids_distinct
            (Settings.columns (Settings.loaded [column "col-a" "todo" "To Do" None 0])))
    as Hids by (unfold ids_distinct; compute_done).
  split; [done|]. split; [simpl; lia|].
  apply (C8_editor_refuses_to_delete_last_column true (str "col-a")
           (Settings.loaded [column "col-a" "todo" "To Do" None 0]));
    [done | simpl; lia | reflexivity].
Defined.

(** C8 as stated fails: the DELETE route removes the only column of a
    configuration, answers 200 and leaves zero columns. *)
Lemma C8_counterexample :
  Routes.delete_column no_faults (Some alice) (str "col-a")
    (store_of [column "col-a" "todo" "To Do" None 0] [])
  = (store_of [] [], Ok200 [] "Column removed successfully").
Proof.
  unfold Routes.delete_column, try_catch_500, bindM, Routes.findOne,
    Routes.write_config, ret, store_of. simpl.
  rewrite lookup_singleton_eq. simpl. by rewrite insert_singleton_eq.
Qed.

(** ** Order values *)

Lemma orderedColumns_dense cols : dense_order (Settings.orderedColumns cols).
Proof.
  intros i col. unfold Settings.orderedColumns. rewrite list_lookup_imap.
  destruct (cols !! i); [|done]. by intros [= <-].
Qed.

(** C9 (as amended). A save made through the settings editor persists order
    values 0..n-1 by position: [handleSave] renumbers the columns before
    sending them and a PUT answered 200 stores the columns it was sent.  The
    routes themselves renumber nothing: POST, DELETE and PATCH persist the
    order values they are given or left with. *)
Theorem C9_editor_save_persists_dense_order
    (f : Faults) (u : jsstring) (st : Settings.State) (s s' : Store)
    (data : list KanbanColumn) (msg : string) :
  Routes.put_config f (Some u)
    (Routes.mkPut (Some (Settings.handleSave st).1) (Some (Settings.handleSave st).2)) s
  = (s', Ok200 data msg) →
  ∃ persisted, configs s' !! u = Some persisted
               ∧ length persisted = length (Settings.columns st)
               ∧ dense_order persisted.
Proof.
  intros Hput.
  destruct (RoutesFacts.put_config_configs f (Some u)
              (Routes.mkPut (Some (Settings.handleSave st).1)
                            (Some (Settings.handleSave st).2)) s)
    as [(u' & cols & msg' & [= <-] & [= <-] & _ & Hcfg)|[_ Hno]].
  - rewrite Hput in Hcfg. simpl in Hcfg.
    exists (Settings.orderedColumns (Settings.columns st)).
    rewrite Hcfg, lookup_insert_eq. split; [done|]. split.
    + unfold Settings.orderedColumns. apply length_imap.
    + apply orderedColumns_dense.
  - rewrite Hput in Hno. by specialize (Hno data msg).
Qed.

Lemma C9_witness :
  ∃ s' data msg,
    Routes.put_config no_faults (Some alice)
      (Routes.mkPut (Some (Settings.handleSave three_columns_left).1)
                    (Some (Settings.handleSave three_columns_left).2))
      (store_of Routes.defaultColumns [])
    = (s', Ok200 data msg)
    ∧ ∃ persisted, configs s' !! alice = Some persisted
                   ∧ length persisted = 3%nat ∧ dense_order persisted.
Proof.
  eexists _, _, _. split; [vm_compute; reflexivity|].
  eapply (C9_editor_save_persists_dense_order no_faults alice
            three_columns_left (store_of Routes.defaultColumns [])).
  vm_compute. reflexivity.
Defined.

(** C9 as stated fails: removing the second of the four default columns
    through the DELETE route persists the order values 0, 2, 3. *)
Lemma C9_counterexample :
  ∃ s' data msg,
    Routes.delete_column no_faults (Some alice) (str "col-todo")
      (store_of Routes.defaultColumns [])
    = (s', Ok200 data msg)
    ∧ (col_order <$> default [] (configs s' !! alice)) = [0; 2; 3]%Z
    ∧ ¬ dense_order (default [] (configs s' !! alice)).
Proof.
  eexists _, _, _. split; [|split].
  - unfold Routes.delete_column, try_catch_500, bindM, Routes.findOne,
      Routes.write_config, ret, store_of. simpl.
    rewrite lookup_singleton_eq. simpl. rewrite insert_singleton_eq. reflexivity.
  - simpl. rewrite lookup_singleton_eq. reflexivity.
  - simpl. rewrite lookup_singleton_eq. intros H.
    specialize (H 1%nat _ eq_refl). simpl in H. discriminate.
Qed.

(** ** A failing migration *)

Module Migration.
Import Routes.

Lemma migrate_emails_ok f u entries s :
  (∀ o n, (o, n) ∈ entries → updateMany_throws f o n = false) →
  (migrate f u entries s).2 = Returned tt
  ∧ emails (migrate f u entries s).1 = rewrite_all u entries (emails s)
  ∧ configs (migrate f u entries s).1 = configs s.
Proof.
  revert s. induction entries as [|[old new] rest IH]; intros s Hok; [done|].
  cbn [migrate]. unfold bindM, updateMany, console_log.
  rewrite (Hok old new) by left.
  destruct (IH (mkStore (configs s) (rewrite_status u old new (emails s))
                        (console s ++ [Migrated
                           (if decide (old = new) then 0%nat
                            else matched_count u old (emails s)) old new])))
    as (H1 & H2 & H3).
  { intros o n Hin. apply Hok. by right. }
  done.
Qed.

(** When the rewrite of an entry throws, the loop stops there: the entries
    before it have been applied and stay applied, the later ones are not
    attempted. *)
Lemma migrate_stops f u applied old new rest s :
  (∀ o n, (o, n) ∈ applied → updateMany_throws f o n = false) →
  updateMany_throws f old new = true →
  (migrate f u (applied ++ (old, new) :: rest) s).2 = Thrown
  ∧ emails (migrate f u (applied ++ (old, new) :: rest) s).1
    = rewrite_all u applied (emails s)
  ∧ configs (migrate f u (applied ++ (old, new) :: rest) s).1 = configs s.
Proof.
  revert s. induction applied as [|[o n] applied IH]; intros s Hok Hthrow.
  - simpl. unfold bindM, updateMany. by rewrite Hthrow.
  - cbn [app migrate]. unfold bindM, updateMany, console_log.
    rewrite (Hok o n) by left.
    match goal with
    | |- context [migrate f u _ ?s1] =>
        destruct (IH s1) as (H1 & H2 & H3);
          [intros o' n' Hin; apply Hok; by right | done |]
    end.
    simpl in H1, H2, H3 |- *.
    destruct (migrate f u _ _) as [s2 [[]|]]; simpl in *; [discriminate | done].
Qed.

End Migration.

(** C3 (as amended). When the rewrite of a migration entry throws, the PUT
    request is answered 500 and the new column array is not committed: the
    configuration collection stays as it was.  The entries before the failing
    one have been applied and are not rolled back; the later ones are not
    attempted. *)
Theorem C3_failed_migration_aborts_the_save
    (f : Faults) (u : jsstring) (cols : list KanbanColumn) (migrations : jsobject)
    (applied rest : list (jsstring * jsstring)) (old new : jsstring) (s : Store) :
  existsb Routes.incomplete cols = false →
  Object_entries migrations = applied ++ (old, new) :: rest →
  (∀ o n, (o, n) ∈ applied → updateMany_throws f o n = false) →
  updateMany_throws f old new = true →
  let result := Routes.put_config f (Some u) (Routes.mkPut (Some cols) (Some migrations)) s in
  result.2 = ServerError500
  ∧ configs result.1 = configs s
  ∧ emails result.1 = Routes.rewrite_all u applied (emails s).
Proof.
  intros Hvalid Hentries Hok Hthrow result. subst result.
  rewrite (RoutesFacts.put_config_unfold f u
             (Routes.mkPut (Some cols) (Some migrations)) cols s eq_refl Hvalid).
  unfold Routes.migration_step. cbn [Routes.put_statusMigrations]. rewrite Hentries.
  assert ((0 <? length (applied ++ (old, new) :: rest))%nat = true) as ->.
  { apply Nat.ltb_lt. rewrite length_app. simpl. lia. }
  destruct (Migration.migrate_stops f u applied old new rest s Hok Hthrow)
    as (H1 & H2 & H3).
  destruct (Routes.migrate f u _ s) as [s1 [[]|]]; [done|]. done.
Qed.

Lemma C3_witness :
  existsb Routes.incomplete two_columns_renamed = false
  ∧ Object_entries two_renames
    = [(str "todo", str "later")] ++ (str "done", str "archive") :: []
  ∧ updateMany_throws (rewrite_fails (str "done") (str "archive"))
      (str "done") (str "archive") = true
  ∧ let result :=
      Routes.put_config (rewrite_fails (str "done") (str "archive")) (Some alice)
        (Routes.mkPut (Some two_columns_renamed) (Some two_renames))
        (store_of two_columns [mail "m1" "todo"; mail "m2" "done"]) in
    result.2 = ServerError500
    ∧ configs result.1 = {[ alice := two_columns ]}
    ∧ emails result.1 = [mail "m1" "later"; mail "m2" "done"].
Proof.
  split; [reflexivity|]. split; [reflexivity|]. split; [reflexivity|].
  apply (C3_failed_migration_aborts_the_save
           (rewrite_fails (str "done") (str "archive")) alice two_columns_renamed
           two_renames [(str "todo", str "later")] [] (str "done") (str "archive")
           (store_of two_columns [mail "m1" "todo"; mail "m2" "done"]));
    [reflexivity | reflexivity | | reflexivity].
  intros o n [= -> ->]%list_elem_of_singleton. reflexivity.
Defined.

(** C3 as stated fails: the rewrite of the second of two entries throws; the
    request is answered 500, the stored columns are still the old ones, and
    the email rewritten by the first entry keeps its new status. *)
Lemma C3_counterexample :
  Routes.put_config (rewrite_fails (str "done") (str "archive")) (Some alice)
    (Routes.mkPut (Some two_columns_renamed) (Some two_renames))
    (store_of two_columns [mail "m1" "todo"; mail "m2" "done"])
  = (mkStore {[ alice := two_columns ]} [mail "m1" "later"; mail "m2" "done"]
             [Migrated 1 (str "todo") (str "later")],
     ServerError500)
  ∧ two_columns ≠ two_columns_renamed.
Proof. split; [reflexivity | discriminate]. Qed.

(** ** Status migration *)

Module MigrationFacts.
Import Routes.

Lemma renamed_not_key entries status :
  status ∉ entries.*1 → renamed entries status = status.
Proof.
  induction entries as [|[o n] rest IH]; [done|]. simpl.
  intros [Hne Hrest]%not_elem_of_cons. rewrite decide_False by done. by apply IH.
Qed.

Lemma matches_rewrite_other u o n o' e :
  o' ≠ o → o' ≠ n →
  matches u o' (if matches u o e then mkDoc (doc_id e) (doc_userId e) n else e)
  = matches u o' e.
Proof.
  intros Ho Hn. unfold matches.
  repeat case_bool_decide; simpl in *; try done; repeat case_bool_decide; congruence.
Qed.

Lemma matched_count_rewrite_other u o n o' mails :
  o' ≠ o → o' ≠ n →
  matched_count u o' (rewrite_status u o n mails) = matched_count u o' mails.
Proof.
  intros Ho Hn. unfold matched_count, rewrite_status.
  induction mails as [|e mails IH]; [done|].
  rewrite fmap_cons, !filter_cons, (matches_rewrite_other u o n o' e Ho Hn).
  destruct (decide (matches u o' e = true)); simpl; by rewrite IH.
Qed.

Lemma migrated_step u o n rest e :
  n ∉ rest.*1 →
  migrated u rest (if matches u o e then mkDoc (doc_id e) (doc_userId e) n else e)
  = migrated u ((o, n) :: rest) e.
Proof.
  intros Hn. unfold migrated, matches. simpl.
  destruct (decide (doc_userId e = u)) as [Hu|Hu].
  - rewrite (bool_decide_eq_true_2 _ Hu). simpl.
    destruct (decide (doc_status e = o)) as [Hs|Hs].
    + rewrite (bool_decide_eq_true_2 _ Hs). simpl. rewrite decide_True by done.
      by rewrite renamed_not_key.
    + rewrite (bool_decide_eq_false_2 _ Hs). by rewrite decide_True.
  - rewrite (bool_decide_eq_false_2 _ Hu). simpl. by rewrite decide_False.
Qed.

(** Without faults and without a chain, the loop rewrites every email of
    the user according to the map and logs, for each entry, the number of
    emails that carried the old status before the save. *)
Lemma migrate_chain_free u entries s :
  chain_free entries →
  migrate no_faults u entries s
  = (mkStore (configs s) (migrated u entries <$> emails s)
             (console s ++
                ((λ entry, Migrated (matched_count u entry.1 (emails s)) entry.1 entry.2)
                   <$> entries)),
     Returned tt).
Proof.
  revert s. induction entries as [|[o n] rest IH]; intros s [Hkeys Hfree].
  - simpl. unfold ret. destruct s as [c m l]. simpl. f_equal. f_equal.
    + unfold migrated. simpl. induction m as [|e m IHm]; [done|].
      rewrite fmap_cons, <- IHm. f_equal. destruct e; simpl. by destruct (decide _).
    + by rewrite app_nil_r.
  - rewrite fmap_cons in Hkeys. apply NoDup_cons in Hkeys as [Ho Hkeys].
    assert (n ∉ ((o, n) :: rest).*1) as Hn by (apply (Hfree o n); left).
    rewrite fmap_cons in Hn. apply not_elem_of_cons in Hn as [Hno Hn]. simpl in Hno.
    cbn [migrate]. unfold bindM, updateMany, console_log. simpl.
    rewrite IH.
    2:{ split; [done|]. intros o' n' Hin.
        assert (n' ∉ ((o, n) :: rest).*1) as H' by (apply (Hfree o' n'); by right).
        rewrite fmap_cons in H'. by apply not_elem_of_cons in H' as [_ ?]. }
    simpl. f_equal. f_equal.
    + unfold rewrite_status. rewrite <- list_fmap_compose.
      apply list_fmap_ext. intros i e _. simpl. by apply migrated_step.
    + rewrite <- app_assoc. f_equal. simpl. f_equal.
      * by rewrite decide_False by congruence.
      * apply list_fmap_ext. intros i [o' n'] Hin. simpl. f_equal.
        apply matched_count_rewrite_other.
        -- intros ->. apply Ho. apply list_elem_of_lookup_2 in Hin.
           by apply (list_elem_of_fmap_2 fst) in Hin.
        -- intros ->. apply Hn. apply list_elem_of_lookup_2 in Hin.
           by apply (list_elem_of_fmap_2 fst) in Hin.
Qed.

(** A PUT without faults whose migration map has no chain: the columns are
    committed, every email of the user is rewritten according to the map and
    each entry's count is the number of emails that carried its old status. *)
Lemma put_config_chain_free u cols migrations s :
  existsb incomplete cols = false →
  chain_free (Object_entries migrations) →
  put_config no_faults (Some u) (mkPut (Some cols) (Some migrations)) s
  = (mkStore (<[u := cols]> (configs s))
             (migrated u (Object_entries migrations) <$> emails s)
             (console s ++
                ((λ entry, Migrated (matched_count u entry.1 (emails s)) entry.1 entry.2)
                   <$> Object_entries migrations)),
     Ok200 cols "Kanban configuration updated successfully").
Proof.
  intros Hvalid Hfree.
  rewrite (RoutesFacts.put_config_unfold no_faults u
             (mkPut (Some cols) (Some migrations)) cols s eq_refl Hvalid).
  unfold migration_step. cbn [put_statusMigrations].
  destruct (Object_entries migrations) as [|entry entries] eqn:E.
  - simpl. unfold ret. simpl. f_equal. destruct s as [c m l]. simpl. f_equal.
    + unfold migrated. simpl. induction m as [|e m IHm]; [done|].
      rewrite fmap_cons, <- IHm. f_equal. destruct e; simpl. by destruct (decide _).
    + by rewrite app_nil_r.
  - cbn [length Nat.ltb Nat.leb]. by rewrite (migrate_chain_free u _ s Hfree).
Qed.

End MigrationFacts.

(** The renaming of the specification's example: a column titled "Sent Mail"
    renamed to "Archived" gets the status "archived"; the save sends the
    single entry sent-mail -> archived, which rewrites exactly the two emails
    that carried "sent-mail" and reports the count 2. *)
Example sent_mail_to_archived :
  col_status <$> Settings.columns sent_mail_renamed = [str "inbox"; str "archived"]
  ∧ (Settings.handleSave sent_mail_renamed).2 = [(str "sent-mail", str "archived")]
  ∧ Routes.put_config no_faults (Some alice)
      (Routes.mkPut (Some (Settings.handleSave sent_mail_renamed).1)
                    (Some (Settings.handleSave sent_mail_renamed).2))
      (store_of sent_mail_columns
         [mail "m1" "sent-mail"; mail "m2" "inbox"; mail "m3" "sent-mail"])
    = (mkStore {[ alice := (Settings.handleSave sent_mail_renamed).1 ]}
               [mail "m1" "archived"; mail "m2" "inbox"; mail "m3" "archived"]
               [Migrated 2 (str "sent-mail") (str "archived")],
       Ok200 (Settings.handleSave sent_mail_renamed).1
             "Kanban configuration updated successfully").
Proof. split; [reflexivity|]. split; reflexivity. Qed.

(** C2. The claim fails on a chain of renames.  With the columns "To Do"
    (status todo) and "Done" (status done) loaded, renaming "Done" to
    "Archive" and then "To Do" to "Done" and saving sends the map
    todo -> done, done -> archive.  The entries are applied one after the
    other: the email that carried "todo" is first moved to "done" and then,
    with the email that carried "done", to "archive".  It ends in the column
    of the other email instead of its own, and the count reported for
    done -> archive is 2 although one email carried "done" before the save. *)
Theorem C2_chained_renames_merge_two_columns :
  Settings.handleSave chained_edit
  = ([ column "col-todo" "done" "Done" None 0;
       column "col-done" "archive" "Archive" None 1 ],
     [ (str "todo", str "done"); (str "done", str "archive") ])
  ∧ Routes.put_config no_faults (Some alice)
      (Routes.mkPut (Some (Settings.handleSave chained_edit).1)
                    (Some (Settings.handleSave chained_edit).2))
      (store_of two_columns [mail "m1" "todo"; mail "m2" "done"])
    = (mkStore {[ alice := (Settings.handleSave chained_edit).1 ]}
               [mail "m1" "archive"; mail "m2" "archive"]
               [ Migrated 1 (str "todo") (str "done");
                 Migrated 2 (str "done") (str "archive") ],
       Ok200 (Settings.handleSave chained_edit).1
             "Kanban configuration updated successfully")
  ∧ Routes.matched_count alice (str "done") [mail "m1" "todo"; mail "m2" "done"] = 1%nat.
Proof. split; [reflexivity|]. split; reflexivity. Qed.

(** ** Drag and drop *)

Module BoardFacts.
Import Board.




End BoardFacts.

(** C7. In the hour before the clocks are set back, a drop on the snooze
    column snoozes the email for two hours, not one.  The board runs in a
    time zone that is two hours ahead of UTC until 25 October 2026, 01:00 UTC,
    and one hour ahead from then on; the email "e2" of the "todo" bucket is
    dropped on the column "snoozed" half an hour before the change.  The
    snooze call and the card appended to the "snoozed" bucket carry the
    instant two hours after the drop.  The same drop in a time zone without
    clock changes carries the instant one hour after it. *)
Theorem C7_drop_before_clock_change_snoozes_two_hours :
  let now := (autumn_2026 - 1800000)%Z in
  let run := Board.handleDrop (set_back autumn_2026) now true Board.snoozed
               (dragging (card "e2" "todo" None)) in
  Board.calls run = [snoozeEmail (str "e2") (now + 2 * 3600000)]
  ∧ match Board.next run with
    | Returned st' =>
        Board.emailsByStatus st' !! Board.snoozed
        = Some [card "e3" "snoozed" (Some 500%Z); card "e4" "snoozed" (Some 700%Z);
                card "e2" "snoozed" (Some (now + 2 * 3600000)%Z)]
        ∧ Board.emailsByStatus st' !! str "todo" = Some []
    | Thrown => False
    end
  ∧ Board.calls (Board.handleDrop utc now true Board.snoozed
                   (dragging (card "e2" "todo" None)))
    = [snoozeEmail (str "e2") (now + 3600000)].
Proof. vm_compute. repeat split; reflexivity. Qed.

(** ** Explicit snooze *)

Module SnoozeFacts.
Import Board BoardFacts.

Lemma literal_four (a b c : option (list Email)) (v : list Email) :
  let m := literal [(inbox, a); (todo, b); (done, c); (snoozed, Some v)] in
  m !! inbox = a ∧ m !! todo = b ∧ m !! done = c ∧ m !! snoozed = Some v
  ∧ ∀ status, status ∉ [inbox; todo; done; snoozed] → m !! status = None.
Proof.
  assert (inbox ≠ todo) by compute_done. assert (inbox ≠ done) by compute_done.
  assert (inbox ≠ snoozed) by compute_done. assert (todo ≠ done) by compute_done.
  assert (todo ≠ snoozed) by compute_done. assert (done ≠ snoozed) by compute_done.
  unfold literal. simpl. repeat split.
  - destruct a, b, c; by simplify_map_eq.
  - destruct a, b, c; by simplify_map_eq.
  - destruct a, b, c; by simplify_map_eq.
  - destruct a, b, c; by simplify_map_eq.
  - intros status Hs.
    assert (status ≠ inbox ∧ status ≠ todo ∧ status ≠ done ∧ status ≠ snoozed)
      as (? & ? & ? & ?).
    { repeat split; intros ->; apply Hs; repeat constructor. }
    destruct a, b, c; by simplify_map_eq.
Qed.

End SnoozeFacts.

(** C10. Snoozing again an email of the "snoozed" bucket loses the buckets of
    the custom columns.  On a board with the four default buckets and the
    bucket "archived" of a custom column, [handleSnooze] for the email "e4" of
    the "snoozed" bucket issues the snooze call and replaces the email's
    [snoozeUntil], and the projection it leaves has no "archived" bucket any
    more.  [handleSnooze] for the email "e5", which carries the status
    "archived", leaves the projection of that board as it was; on the same
    board without its "done" bucket it does not: its updater throws. *)
Theorem C10_resnooze_loses_the_custom_buckets :
  let run := Board.handleSnooze utc 1000 true (str "e4") 2
               (Board.mkState sample_board None (Some (str "e4"))) in
  sample_board !! Board.snoozed
  = Some [card "e3" "snoozed" (Some 500%Z); card "e4" "snoozed" (Some 700%Z)]
  ∧ sample_board !! str "archived" = Some [card "e5" "archived" None]
  ∧ Board.calls run = [snoozeEmail (str "e4") 7201000]
  ∧ match Board.next run with
    | Returned st' =>
        Board.emailsByStatus st' !! Board.snoozed
        = Some [card "e3" "snoozed" (Some 500%Z); card "e4" "snoozed" (Some 7201000%Z)]
        ∧ Board.emailsByStatus st' !! str "archived" = None
    | Thrown => False
    end
  ∧ Board.next (Board.handleSnooze utc 1000 true (str "e5") 2
                  (Board.mkState sample_board None (Some (str "e5"))))
    = Returned (Board.mkState sample_board None None)
  ∧ Board.next (Board.handleSnooze utc 1000 true (str "e5") 2
                  (Board.mkState (delete Board.done sample_board) None
                                 (Some (str "e5"))))
    = Thrown.
Proof. vm_compute. repeat split; reflexivity. Qed.

(** ** The editor keeps statuses distinct *)

Module EditorFacts.
Import Settings.

(** The column that replaces [col] in [handleUpdateColumn]. *)
Lemma updated_status all columnId field value col :
  col_status
    (if decide (col_id col = columnId) then
       let updatedCol := set_field field value col in
       match field with
       | F_gmailLabel =>
           set_status (generateUniqueStatus value (col_title col) all (Some (col_id col)))
                      updatedCol
       | F_title =>
           let newTitle := if truthy_opt value then default [] value else col_title col in
           set_status
             (generateUniqueStatus (col_gmailLabel col) newTitle all (Some (col_id col)))
             updatedCol
       | _ => updatedCol
       end
     else col)
  = if decide (col_id col = columnId) then
      match field with
      | F_gmailLabel => generateUniqueStatus value (col_title col) all (Some (col_id col))
      | F_title =>
          generateUniqueStatus (col_gmailLabel col)
            (if truthy_opt value then default [] value else col_title col)
            all (Some (col_id col))
      | _ => col_status col
      end
    else col_status col.
Proof. destruct (decide _); [|done]. by destruct field. Qed.

Lemma update_keeps_distinct (all cols : list KanbanColumn) (g : KanbanColumn → jsstring)
    columnId :
  (∀ col, col ∈ cols → col ∈ all) →
  (∀ col other, col_id col = columnId → other ∈ all → col_id other ≠ columnId →
                col_status other ≠ g col) →
  ids_distinct cols → statuses_distinct cols →
  NoDup ((λ col, if decide (col_id col = columnId) then g col else col_status col)
           <$> cols).
Proof.
  unfold ids_distinct, statuses_distinct.
  intros Hsub Hfree. induction cols as [|c cs IH]; [constructor|].
  rewrite !fmap_cons. intros [Hid Hids]%NoDup_cons [Hst Hsts]%NoDup_cons.
  assert (∀ col, col ∈ cs → col ∈ all) as Hsub' by (intros col ?; apply Hsub; by right).
  apply NoDup_cons. split; [|by apply IH].
  intros (d & Heq & Hd)%list_elem_of_fmap.
  destruct (decide (col_id c = columnId)) as [Hc|Hc];
    destruct (decide (col_id d = columnId)) as [Hd'|Hd'].
  - apply Hid. apply list_elem_of_fmap. exists d. split; [congruence | done].
  - by apply (Hfree c d Hc (Hsub' d Hd) Hd').
  - apply (Hfree d c Hd' (Hsub c ltac:(left)) Hc). done.
  - apply Hst. apply list_elem_of_fmap. by exists d.
Qed.

(** With pairwise distinct ids and statuses, an edit of a column leaves the
    statuses of the edited list pairwise distinct. *)
Lemma handleUpdateColumn_keeps_distinct columnId field value st :
  ids_distinct (columns st) → statuses_distinct (columns st) →
  statuses_distinct (columns (handleUpdateColumn columnId field value st)).
Proof.
  intros Hids Hsts. unfold handleUpdateColumn.
  destruct (_ && _ && _); [done|]. cbn [columns].
  unfold statuses_distinct. rewrite <- list_fmap_compose.
  erewrite list_fmap_ext;
    [|intros i col _; apply (updated_status (columns st) columnId field value col)].
  destruct field.
  - apply (update_keeps_distinct (columns st) (columns st)
             (λ col, generateUniqueStatus (col_gmailLabel col)
                       (if truthy_opt value then default [] value else col_title col)
                       (columns st) (Some (col_id col)))); [done| |done..].
    intros col other Hcol Hin Hne.
    apply UniqueStatus.generateUniqueStatus_free; [done | congruence].
  - erewrite list_fmap_ext; [exact Hsts|]. intros i col _. simpl. by destruct (decide _).
  - erewrite list_fmap_ext; [exact Hsts|]. intros i col _. simpl. by destruct (decide _).
  - apply (update_keeps_distinct (columns st) (columns st)
             (λ col, generateUniqueStatus value (col_title col)
                       (columns st) (Some (col_id col)))); [done| |done..].
    intros col other Hcol Hin Hne.
    apply UniqueStatus.generateUniqueStatus_free; [done | congruence].
Qed.

End EditorFacts.

(** ** Worked examples *)

Example slug_sent_mail : Slug.generateSlugFromTitle (str "Sent Mail") = str "sent-mail".
Proof. reflexivity. Qed.

Example slug_inbox : Slug.generateSlugFromTitle (str "INBOX") = str "inbox".
Proof. reflexivity. Qed.

Example slug_punctuation :
  Slug.generateSlugFromTitle (str "  --Hello,   World!! - 2 --") = str "hello-world-2".
Proof. reflexivity. Qed.

Example slug_empty : Slug.generateSlugFromTitle (str "?!") = [].
Proof. reflexivity. Qed.

Example unique_status_second_suffix :
  Settings.generateUniqueStatus None (str "Done")
    [ column "c1" "done" "Done" None 0; column "c2" "done-1" "Done" None 1;
      column "c3" "todo" "To Do" None 2 ] None
  = str "done-2".
Proof. reflexivity. Qed.

Example unique_status_excludes_own_column :
  Settings.generateUniqueStatus (Some (str "INBOX")) (str "Anything")
    Routes.defaultColumns (Some (str "col-inbox"))
  = str "inbox".
Proof. reflexivity. Qed.

Example entries_put_array_indices_first :
  Object_entries [ (str "todo", str "a"); (str "10", str "b"); (str "9", str "c");
                   (str "01", str "d") ]
  = [ (str "9", str "c"); (str "10", str "b"); (str "todo", str "a");
      (str "01", str "d") ].
Proof. reflexivity. Qed.

(** * Further properties of the routes *)

Module RoutesMore.
Import Routes RoutesFacts.

Lemma get_config_cases f user s :
  (∃ u cols, user = Some u ∧ findOne_throws f = false ∧ configs s !! u = Some cols
             ∧ get_config f user s = (s, Ok200 cols ""))
  ∨ (∃ u, user = Some u ∧ findOne_throws f = false ∧ configs s !! u = None
          ∧ config_write_throws f = false
          ∧ get_config f user s
            = (mkStore (<[u := defaultColumns]> (configs s)) (emails s) (console s),
               Ok200 defaultColumns ""))
  ∨ ((get_config f user s).1 = s ∧ ∀ data msg, (get_config f user s).2 ≠ Ok200 data msg).
Proof.
  destruct user as [u|]; [|right; right; by split].
  unfold get_config, try_catch_500, bindM, findOne, write_config, ret.
  destruct (findOne_throws f) eqn:Er; [right; right; by split|].
  destruct (configs s !! u) as [cols|] eqn:E.
  - left. by exists u, cols.
  - destruct (config_write_throws f) eqn:Ef.
    + right. right. by split.
    + right. left. by exists u.
Qed.

Lemma rewrite_status_same_cards u o n mails :
  same_cards (Some u) mails (rewrite_status u o n mails).
Proof.
  unfold same_cards, rewrite_status.
  induction mails as [|e mails IH]; [constructor|].
  rewrite fmap_cons. constructor; [|done].
  unfold matches. destruct (bool_decide (doc_userId e = u)) eqn:Hu; simpl.
  - apply bool_decide_eq_true in Hu.
    destruct (bool_decide (doc_status e = o)); simpl;
      (split; [done|]; split; [done|]); intros Hne; congruence.
  - done.
Qed.

Lemma same_cards_refl user mails : same_cards user mails mails.
Proof. unfold same_cards. induction mails; constructor; done. Qed.

Lemma same_cards_trans user l1 l2 l3 :
  same_cards user l1 l2 → same_cards user l2 l3 → same_cards user l1 l3.
Proof.
  unfold same_cards. intros H12. revert l3.
  induction H12 as [|e1 e2 l1 l2 (Hi & Hu & Hs) _ IH]; intros l3 H23.
  - by inversion H23.
  - inversion H23 as [|? e3 ? l3' (Hi' & Hu' & Hs') H23']; subst.
    constructor; [|by apply IH].
    split; [congruence|]. split; [congruence|].
    intros Hne. rewrite <- (Hs Hne). apply Hs'.
    rewrite (Hs Hne). done.
Qed.

Lemma migrate_same_cards f u entries s :
  same_cards (Some u) (emails s) (emails (migrate f u entries s).1).
Proof.
  revert s. induction entries as [|[old new] rest IH]; intros s.
  - apply same_cards_refl.
  - cbn [migrate]. unfold bindM, updateMany, console_log.
    destruct (updateMany_throws f old new); [apply same_cards_refl|].
    eapply same_cards_trans; [apply (rewrite_status_same_cards u old new)|].
    match goal with |- context [migrate f u rest ?s1] => specialize (IH s1) end.
    simpl in IH. destruct (migrate f u rest _) as [s2 [[]|]]; exact IH.
Qed.

Lemma put_config_same_cards f user body s :
  same_cards user (emails s) (emails (put_config f user body s).1).
Proof.
  destruct user as [u|]; [|apply same_cards_refl].
  destruct (put_columns body) as [cols|] eqn:Hcols;
    [|unfold put_config, try_catch_500; rewrite Hcols; apply same_cards_refl].
  destruct (existsb incomplete cols) eqn:Hvalid;
    [unfold put_config, try_catch_500; rewrite Hcols, Hvalid; apply same_cards_refl|].
  rewrite (put_config_unfold f u body cols s Hcols Hvalid).
  assert (same_cards (Some u) (emails s) (emails (migration_step f u body s).1)) as H.
  { unfold migration_step. destruct (put_statusMigrations body) as [m|];
      [|apply same_cards_refl].
    destruct (0 <? _)%nat; [apply migrate_same_cards | apply same_cards_refl]. }
  destruct (migration_step f u body s) as [s1 [[]|]]; [|exact H].
  by destruct (config_write_throws f).
Qed.

End RoutesMore.

(** X1. A request made as one user leaves the configuration of every other
    owner as it was, whatever the route, its arguments and the faults. *)
Theorem X1_routes_leave_other_owners_configuration
    (f : Faults) (user : option jsstring) (owner : jsstring) (s : Store) :
  user ≠ Some owner →
  configs (Routes.get_config f user s).1 !! owner = configs s !! owner
  ∧ (∀ body, configs (Routes.put_config f user body s).1 !! owner = configs s !! owner)
  ∧ (∀ column, configs (Routes.post_column f user column s).1 !! owner
               = configs s !! owner)
  ∧ (∀ columnId, configs (Routes.delete_column f user columnId s).1 !! owner
                 = configs s !! owner)
  ∧ (∀ columnId updates,
       configs (Routes.patch_column f user columnId updates s).1 !! owner
       = configs s !! owner).
Proof.
  intros Hne. split; [|split; [|split; [|split]]].
  - destruct (RoutesMore.get_config_cases f user s)
      as [(u & cols & -> & _ & _ & ->)|[(u & -> & _ & _ & _ & ->)|[-> _]]]; [done| |done].
    simpl. apply lookup_insert_ne. congruence.
  - intros body. destruct (RoutesFacts.put_config_configs f user body s)
      as [(u & cols & msg & -> & _ & _ & ->)|[-> _]]; [|done].
    apply lookup_insert_ne. congruence.
  - intros column. destruct (RoutesFacts.post_column_configs f user column s)
      as [(u & msg & -> & _ & _ & ->)| ->]; [|done].
    apply lookup_insert_ne. congruence.
  - intros columnId. destruct (RoutesFacts.delete_column_configs f user columnId s)
      as [(u & cols & msg & -> & _ & _ & ->)| ->]; [|done].
    apply lookup_insert_ne. congruence.
  - intros columnId updates.
    destruct (RoutesFacts.patch_column_configs f user columnId updates s)
      as [(u & cols & i & column & msg & -> & _ & _ & _ & ->)| ->]; [|done].
    apply lookup_insert_ne. congruence.
Qed.

Lemma X1_witness :
  Some alice ≠ Some (str "bob")
  ∧ configs (Routes.delete_column no_faults (Some alice) (str "col-todo")
               (mkStore (<[str "bob" := two_columns]> {[ alice := Routes.defaultColumns ]})
                        [] [])).1 !! str "bob"
    = Some two_columns.
Proof.
  assert (Some alice ≠ Some (str "bob")) as Hne by (vm_compute; discriminate).
  split; [exact Hne|].
  destruct (X1_routes_leave_other_owners_configuration no_faults (Some alice) (str "bob")
              (mkStore (<[str "bob" := two_columns]> {[ alice := Routes.defaultColumns ]})
                       [] []) Hne) as (_ & _ & _ & Hdel & _).
  rewrite Hdel. simpl. apply lookup_insert_eq.
Defined.

(** X2. No route adds, removes, reorders or reassigns emails.  GET, POST,
    DELETE and PATCH leave the email collection as it is; after a PUT,
    whatever its migration map and the faults, the collection holds the same
    email ids with the same owners in the same order, and the emails of other
    users are unchanged. *)
Theorem X2_routes_conserve_emails (f : Faults) (user : option jsstring) (s : Store) :
  emails (Routes.get_config f user s).1 = emails s
  ∧ (∀ column, emails (Routes.post_column f user column s).1 = emails s)
  ∧ (∀ columnId, emails (Routes.delete_column f user columnId s).1 = emails s)
  ∧ (∀ columnId updates,
       emails (Routes.patch_column f user columnId updates s).1 = emails s)
  ∧ (∀ body, same_cards user (emails s) (emails (Routes.put_config f user body s).1)).
Proof.
  split; [|split; [|split; [|split]]].
  - destruct (RoutesMore.get_config_cases f user s)
      as [(u & cols & -> & _ & _ & ->)|[(u & -> & _ & _ & _ & ->)|[-> _]]]; done.
  - intros column. destruct user as [u|]; [|done].
    unfold Routes.post_column, try_catch_500, bindM, Routes.findOne,
      Routes.write_config, ret.
    destruct (Routes.incomplete column); [done|].
    destruct (findOne_throws f); [done|].
    destruct (existsb _ _); [done|]. by destruct (config_write_throws f).
  - intros columnId. destruct (RoutesFacts.delete_column_configs f user columnId s)
      as [(u & cols & msg & -> & Hl & _ & _)| ->]; [|done].
    unfold Routes.delete_column, try_catch_500, bindM, Routes.findOne,
      Routes.write_config, ret. destruct (findOne_throws f); [done|].
    rewrite Hl. by destruct (config_write_throws f).
  - intros columnId updates. destruct user as [u|]; [|done].
    unfold Routes.patch_column, try_catch_500, bindM, Routes.findOne,
      Routes.write_config, ret. destruct (findOne_throws f); [done|].
    destruct (configs s !! u); [|done]. destruct (list_find _ _) as [[i c]|]; [|done].
    by destruct (config_write_throws f).
  - intros body. apply RoutesMore.put_config_same_cards.
Qed.

(** X3. A GET answered 200 returns what is then stored for the user: the
    four default columns, now stored, for a user who had no configuration, and
    the stored columns, with the store untouched, otherwise.  A later GET
    changes nothing: it is answered 500 when reading the configuration fails
    and returns the same columns otherwise, whatever the other faults. *)
Theorem X3_get_config_seeds_once
    (f : Faults) (u : jsstring) (s s1 : Store) (cols : list KanbanColumn) (msg : string) :
  Routes.get_config f (Some u) s = (s1, Ok200 cols msg) →
  configs s1 !! u = Some cols
  ∧ match configs s !! u with
    | Some stored => cols = stored ∧ s1 = s
    | None => cols = Routes.defaultColumns
    end
  ∧ ∀ f', Routes.get_config f' (Some u) s1
          = (s1, if findOne_throws f' then ServerError500 else Ok200 cols msg).
Proof.
  intros Hget.
  destruct (RoutesMore.get_config_cases f (Some u) s)
    as [(u' & cols' & [= <-] & _ & Hl & Heq)|[(u' & [= <-] & _ & Hl & _ & Heq)|[_ Hno]]].
  - rewrite Heq in Hget. injection Hget as <- <- <-. rewrite Hl.
    split; [done|]. split; [done|]. intros f'.
    unfold Routes.get_config, try_catch_500, bindM, Routes.findOne, ret.
    destruct (findOne_throws f'); [done|]. by rewrite Hl.
  - rewrite Heq in Hget. injection Hget as <- <- <-. rewrite Hl. simpl.
    split; [apply lookup_insert_eq|]. split; [done|]. intros f'.
    unfold Routes.get_config, try_catch_500, bindM, Routes.findOne, ret. simpl.
    destruct (findOne_throws f'); [done|]. by rewrite lookup_insert_eq.
  - rewrite Hget in Hno. by specialize (Hno cols msg).
Qed.

Lemma X3_witness :
  Routes.get_config no_faults (Some alice) empty_store
  = (store_of Routes.defaultColumns [], Ok200 Routes.defaultColumns "")
  ∧ ∀ f', Routes.get_config f' (Some alice) (store_of Routes.defaultColumns [])
          = (store_of Routes.defaultColumns [],
             if findOne_throws f' then ServerError500 else Ok200 Routes.defaultColumns "").
Proof.
  assert (Routes.get_config no_faults (Some alice) empty_store
          = (store_of Routes.defaultColumns [], Ok200 Routes.defaultColumns "")) as H.
  { unfold Routes.get_config, try_catch_500, bindM, Routes.findOne, Routes.write_config,
      ret, store_of. simpl. rewrite lookup_empty. simpl. by rewrite insert_empty. }
  split; [exact H|].
  apply (X3_get_config_seeds_once no_faults alice empty_store _ _ _ H).
Defined.

(** X4. POST keeps column ids distinct: a column whose id is already in the
    user's configuration is answered 400, once the configuration has been
    read, and nothing is stored, so if every committed configuration has
    pairwise distinct ids before a POST, the same holds after it, whatever the
    faults. *)
Theorem X4_post_column_keeps_ids_distinct
    (f : Faults) (user : option jsstring) (column : KanbanColumn) (s : Store) :
  committed_ids_distinct s →
  committed_ids_distinct (Routes.post_column f user column s).1
  ∧ ∀ u cols existing,
      user = Some u → configs s !! u = Some cols → existing ∈ cols →
      col_id existing = col_id column → Routes.incomplete column = false →
      findOne_throws f = false →
      Routes.post_column f user column s
      = (s, BadRequest400 "Column with this ID already exists").
Proof.
  intros Hs. split.
  - destruct (RoutesFacts.post_column_configs f user column s)
      as [(u & msg & -> & Hfresh & _ & Hcfg)| ->]; [|done].
    intros owner cols Hl. rewrite Hcfg in Hl.
    destruct (decide (u = owner)) as [->|Hne].
    + rewrite lookup_insert_eq in Hl. injection Hl as <-.
      unfold ids_distinct. rewrite fmap_app. apply NoDup_app. split; [|split].
      * destruct (configs s !! owner) as [c|] eqn:E; [by eapply Hs | constructor].
      * intros i (c & -> & Hc)%list_elem_of_fmap [Heq|[]%elem_of_nil]%elem_of_cons.
        by apply (Hfresh c Hc).
      * apply NoDup_singleton.
    + rewrite lookup_insert_ne in Hl by done. by eapply Hs.
  - intros u cols existing -> Hl Hin Heq Hcomplete Hread.
    unfold Routes.post_column, try_catch_500, bindM, Routes.findOne, ret.
    rewrite Hcomplete, Hread, Hl. simpl.
    assert (existsb (λ c, bool_decide (col_id c = col_id column)) cols = true) as ->;
      [|done].
    apply existsb_exists. exists existing. split; [by apply list_elem_of_In|].
    by apply bool_decide_eq_true.
Qed.

Lemma store_of_ids_distinct cols mails :
  ids_distinct cols → committed_ids_distinct (store_of cols mails).
Proof.
  intros Hcols owner cols' Hlook. simpl in Hlook.
  by apply lookup_singleton_Some in Hlook as [_ <-].
Qed.

Lemma X4_witness :
  committed_ids_distinct (store_of two_columns [])
  ∧ committed_ids_distinct
      (Routes.post_column no_faults (Some alice) (column "col-new" "new" "New" None 2)
         (store_of two_columns [])).1
  ∧ Routes.post_column no_faults (Some alice) (column "col-done" "later" "Later" None 2)
      (store_of two_columns [])
    = (store_of two_columns [], BadRequest400 "Column with this ID already exists").
Proof.
  assert (committed_ids_distinct (store_of two_columns [])) as H
    by (apply store_of_ids_distinct; unfold ids_distinct; compute_done).
  split; [exact H|]. split.
  - apply (X4_post_column_keeps_ids_distinct no_faults (Some alice) _ _ H).
  - destruct (X4_post_column_keeps_ids_distinct no_faults (Some alice)
                (column "col-done" "later" "Later" None 2) _ H) as [_ Hdup].
    apply (Hdup alice two_columns (column "col-done" "done" "Done" None 1));
      [reflexivity | apply lookup_singleton_eq | repeat constructor
      | reflexivity | reflexivity | reflexivity].
Defined.

(** X5. Adding a column with POST and removing it again with DELETE restores
    the store: for a user with a stored configuration and a complete column
    whose id is new, and without faults, the store after the two requests is
    the store before them. *)
Theorem X5_post_then_delete_restores
    (u : jsstring) (cols : list KanbanColumn) (column : KanbanColumn) (s : Store) :
  configs s !! u = Some cols →
  Routes.incomplete column = false →
  (∀ c, c ∈ cols → col_id c ≠ col_id column) →
  (Routes.post_column no_faults (Some u) column s).2
  = Ok200 (cols ++ [column]) "Column added successfully"
  ∧ Routes.delete_column no_faults (Some u) (col_id column)
      (Routes.post_column no_faults (Some u) column s).1
    = (s, Ok200 cols "Column removed successfully").
Proof.
  intros Hl Hcomplete Hfresh.
  assert (existsb (λ c, bool_decide (col_id c = col_id column)) cols = false) as Hno.
  { apply not_true_iff_false. intros (c & Hc & Heq)%existsb_exists.
    apply list_elem_of_In in Hc. apply bool_decide_eq_true in Heq.
    by apply (Hfresh c Hc). }
  assert (filter (λ c, col_id c ≠ col_id column) (cols ++ [column]) = cols) as Hfilter.
  { rewrite filter_app, filter_cons_False, filter_nil, app_nil_r by (intros ?; done).
    clear Hl Hno. induction cols as [|c cols IH]; [done|].
    rewrite filter_cons_True by (apply Hfresh; left).
    f_equal. apply IH. intros c' Hc'. apply Hfresh. by right. }
  unfold Routes.post_column, Routes.delete_column, try_catch_500, bindM,
    Routes.findOne, Routes.write_config, ret.
  rewrite Hcomplete, Hl. simpl. rewrite Hno. simpl.
  split; [done|]. rewrite lookup_insert_eq. simpl. rewrite Hfilter.
  rewrite insert_insert_eq, (insert_id _ _ _ Hl). by destruct s.
Qed.

Lemma X5_witness :
  configs (store_of two_columns [mail "m1" "todo"]) !! alice = Some two_columns
  ∧ Routes.delete_column no_faults (Some alice) (str "col-new")
      (Routes.post_column no_faults (Some alice) (column "col-new" "new" "New" None 2)
         (store_of two_columns [mail "m1" "todo"])).1
    = (store_of two_columns [mail "m1" "todo"],
       Ok200 two_columns "Column removed successfully").
Proof.
  assert (configs (store_of two_columns [mail "m1" "todo"]) !! alice = Some two_columns)
    as Hl by apply lookup_singleton_eq.
  split; [exact Hl|].
  apply (X5_post_then_delete_restores alice two_columns
           (column "col-new" "new" "New" None 2) _ Hl eq_refl).
  intros c Hc.
  apply elem_of_cons in Hc as [->|Hc]; [vm_compute; discriminate|].
  apply list_elem_of_singleton in Hc as ->. vm_compute. discriminate.
Defined.

(** X6. When reading and writing the configuration succeed, DELETE answers
    200 whether or not a column carries the id: every column with the id is
    removed, the other columns are kept in order, and when no column has the
    id the store is left exactly as it was.  Repeating the request changes
    nothing more. *)
Theorem X6_delete_column_removes_the_id
    (f : Faults) (u columnId : jsstring) (cols : list KanbanColumn) (s : Store) :
  configs s !! u = Some cols →
  findOne_throws f = false →
  config_write_throws f = false →
  let kept := filter (λ c, col_id c ≠ columnId) cols in
  let r := Routes.delete_column f (Some u) columnId s in
  r.2 = Ok200 kept "Column removed successfully"
  ∧ configs r.1 !! u = Some kept
  ∧ (∀ c, c ∈ kept → col_id c ≠ columnId)
  ∧ ((∀ c, c ∈ cols → col_id c ≠ columnId) → kept = cols ∧ r.1 = s)
  ∧ Routes.delete_column f (Some u) columnId r.1 = r.
Proof.
  intros Hl Hread Hf kept r.
  assert (r = (mkStore (<[u := kept]> (configs s)) (emails s) (console s),
               Ok200 kept "Column removed successfully")) as Hr.
  { subst r. unfold Routes.delete_column, try_catch_500, bindM, Routes.findOne,
      Routes.write_config, ret. by rewrite Hread, Hl, Hf. }
  rewrite Hr. cbn [fst snd configs].
  split; [done|]. split; [apply lookup_insert_eq|]. split; [|split].
  - intros c Hc. by apply list_elem_of_filter in Hc as [? _].
  - intros Hnone.
    assert (kept = cols) as Hk.
    { subst kept. clear Hl Hr. induction cols as [|c cols IH]; [done|].
      rewrite filter_cons_True by (apply Hnone; left).
      f_equal. apply IH. intros c' Hc'. apply Hnone. by right. }
    split; [done|]. rewrite Hk, (insert_id _ _ _ Hl). by destruct s.
  - assert (filter (λ c, col_id c ≠ columnId) kept = kept) as Hkk.
    { subst kept. generalize cols. intros l. induction l as [|c l IH]; [done|].
      destruct (decide (col_id c ≠ columnId)).
      - rewrite (filter_cons_True _ c l) by done.
        rewrite filter_cons_True by done. by rewrite IH.
      - by rewrite (filter_cons_False _ c l) by done. }
    unfold Routes.delete_column, try_catch_500, bindM, Routes.findOne,
      Routes.write_config, ret. rewrite Hread. cbn [configs emails console].
    rewrite lookup_insert_eq, Hf. fold kept. rewrite Hkk.
    cbn [configs emails console]. by rewrite insert_insert_eq.
Qed.

Lemma X6_witness :
  configs (store_of two_columns []) !! alice = Some two_columns
  ∧ Routes.delete_column no_faults (Some alice) (str "col-unknown") (store_of two_columns [])
    = (store_of two_columns [], Ok200 two_columns "Column removed successfully").
Proof.
  assert (configs (store_of two_columns []) !! alice = Some two_columns) as Hl
    by apply lookup_singleton_eq.
  split; [exact Hl|].
  destruct (X6_delete_column_removes_the_id no_faults alice (str "col-unknown")
              two_columns _ Hl eq_refl eq_refl) as (H2 & _ & _ & Hsame & _).
  destruct Hsame as [Hk Hs].
  { intros c Hc. apply elem_of_cons in Hc as [->|Hc]; [vm_compute; discriminate|].
    apply list_elem_of_singleton in Hc as ->. vm_compute. discriminate. }
  rewrite Hk in H2.
  destruct (Routes.delete_column no_faults (Some alice) (str "col-unknown")
              (store_of two_columns [])) as [s1 r1].
  simpl in H2, Hs. by rewrite H2, Hs.
Defined.

(** X7. PATCH never changes a column id: an id carried by the patch is
    ignored, the stored columns have the same ids in the same order after
    the request, and a column that does not carry the requested id is left as
    it was.  When no column carries the id the answer, once the
    configuration has been read, is 404 and the store is unchanged. *)
Theorem X7_patch_column_keeps_ids
    (f : Faults) (u columnId : jsstring) (updates : Routes.ColumnPatch)
    (cols : list KanbanColumn) (s : Store) :
  configs s !! u = Some cols →
  let r := Routes.patch_column f (Some u) columnId updates s in
  (∃ after, configs r.1 !! u = Some after
            ∧ col_id <$> after = col_id <$> cols
            ∧ ∀ j c, cols !! j = Some c → col_id c ≠ columnId → after !! j = Some c)
  ∧ (∀ other_id,
       Routes.patch_column f (Some u) columnId
         (Routes.mkPatch other_id (Routes.p_status updates) (Routes.p_title updates)
            (Routes.p_color updates) (Routes.p_icon updates)
            (Routes.p_gmailLabel updates) (Routes.p_order updates)) s
       = r)
  ∧ ((∀ c, c ∈ cols → col_id c ≠ columnId) → findOne_throws f = false →
     r = (s, NotFound404 "Column not found")).
Proof.
  intros Hl r. subst r. split; [|split].
  - unfold Routes.patch_column, try_catch_500, bindM, Routes.findOne,
      Routes.write_config, ret.
    destruct (findOne_throws f);
      [exists cols; split; [done|]; split; [done|]; by intros j c Hj _|].
    rewrite Hl.
    destruct (list_find (λ c, col_id c = columnId) cols) as [[i column]|] eqn:Hfind.
    + apply list_find_Some in Hfind as (Hi & Hid & _).
      destruct (config_write_throws f); cbn [fst configs].
      * exists cols. split; [done|]. split; [done|]. by intros j c Hj _.
      * exists (<[i := Routes.merge column updates columnId]> cols).
        split; [apply lookup_insert_eq|]. split.
        -- rewrite list_fmap_insert. simpl. apply list_insert_id.
           by rewrite list_lookup_fmap, Hi, <- Hid.
        -- intros j c Hj Hc. rewrite list_lookup_insert_ne; [done|]. congruence.
    + exists cols. split; [done|]. split; [done|]. by intros j c Hj _.
  - intros other_id. unfold Routes.patch_column, Routes.merge. done.
  - intros Hnone Hread.
    unfold Routes.patch_column, try_catch_500, bindM, Routes.findOne, ret.
    rewrite Hread, Hl.
    assert (list_find (λ c, col_id c = columnId) cols = None) as ->; [|done].
    apply list_find_None, Forall_forall. intros c Hc. by apply Hnone.
Qed.

Lemma X7_witness :
  configs (store_of two_columns []) !! alice = Some two_columns
  ∧ ∃ after,
      configs (Routes.patch_column no_faults (Some alice) (str "col-done")
                 (Routes.mkPatch (Some (str "col-hijack")) None (Some (str "Finished"))
                                 None None None None)
                 (store_of two_columns [])).1 !! alice = Some after
      ∧ col_id <$> after = [str "col-todo"; str "col-done"].
Proof.
  assert (configs (store_of two_columns []) !! alice = Some two_columns) as Hl
    by apply lookup_singleton_eq.
  split; [exact Hl|].
  destruct (X7_patch_column_keeps_ids no_faults alice (str "col-done")
              (Routes.mkPatch (Some (str "col-hijack")) None (Some (str "Finished"))
                              None None None None)
              two_columns _ Hl) as ((after & H1 & H2 & _) & _ & _).
  exists after. split; [exact H1|]. rewrite H2. reflexivity.
Defined.

(** ** Retrying a migration *)

Module Retry.
Import Routes MigrationFacts.

Lemma renamed_old entries status :
  status ∈ entries.*1 → (status, renamed entries status) ∈ entries.
Proof.
  induction entries as [|[o n] rest IH]; [by intros ?%elem_of_nil|].
  rewrite fmap_cons. simpl. intros Hin.
  destruct (decide (status = o)) as [->|Hne]; [left|].
  apply elem_of_cons in Hin as [?|Hin]; [done|]. right. by apply IH.
Qed.

(** After a migration without chain no email of the user carries an old
    status of the map. *)
Lemma renamed_not_old entries status :
  chain_free entries → renamed entries status ∉ entries.*1.
Proof.
  intros [_ Hfree]. destruct (decide (status ∈ entries.*1)) as [Hin|Hout].
  - eapply Hfree. by apply renamed_old.
  - by rewrite renamed_not_key.
Qed.

Lemma migrated_twice u entries e :
  chain_free entries → migrated u entries (migrated u entries e) = migrated u entries e.
Proof.
  intros Hfree. unfold migrated.
  destruct (decide (doc_userId e = u)) as [Hu|Hu]; simpl.
  - rewrite decide_True by done. simpl.
    by rewrite (renamed_not_key entries) by by apply renamed_not_old.
  - by rewrite decide_False.
Qed.

Lemma matched_count_migrated u entries o mails :
  chain_free entries → o ∈ entries.*1 →
  matched_count u o (migrated u entries <$> mails) = 0%nat.
Proof.
  intros Hfree Ho. unfold matched_count.
  induction mails as [|e mails IH]; [done|]. rewrite fmap_cons.
  rewrite filter_cons_False; [done|].
  unfold matches, migrated. intros [Hu Hs]%andb_true_iff.
  apply bool_decide_eq_true in Hu, Hs.
  destruct (decide (doc_userId e = u)) as [Hu'|Hu']; simpl in *; [|done].
  apply (renamed_not_old entries (doc_status e) Hfree). by rewrite Hs.
Qed.

End Retry.

(** X8. A retried save is safe.  When no new status of the migration map is
    one of its old statuses, sending the same PUT a second time (without
    faults) changes no email and no configuration, and reports the count 0
    for every entry. *)
Theorem X8_put_config_retry_rewrites_nothing
    (u : jsstring) (cols : list KanbanColumn) (migrations : jsobject) (s : Store) :
  existsb Routes.incomplete cols = false →
  chain_free (Object_entries migrations) →
  let body := Routes.mkPut (Some cols) (Some migrations) in
  let s1 := (Routes.put_config no_faults (Some u) body s).1 in
  Routes.put_config no_faults (Some u) body s1
  = (mkStore (configs s1) (emails s1)
             (console s1 ++
                ((λ entry, Migrated 0 entry.1 entry.2) <$> Object_entries migrations)),
     Ok200 cols "Kanban configuration updated successfully").
Proof.
  intros Hvalid Hfree body s1. subst s1 body.
  rewrite (MigrationFacts.put_config_chain_free u cols migrations s Hvalid Hfree).
  cbn [fst].
  rewrite (MigrationFacts.put_config_chain_free u cols migrations _ Hvalid Hfree).
  cbn [configs emails console]. f_equal. f_equal.
  - by rewrite insert_insert_eq.
  - rewrite <- list_fmap_compose. apply list_fmap_ext. intros i e _. simpl.
    by apply Retry.migrated_twice.
  - f_equal. apply list_fmap_ext. intros i [o n] Hin. simpl. f_equal.
    apply Retry.matched_count_migrated; [done|].
    apply list_elem_of_lookup_2 in Hin. by apply (list_elem_of_fmap_2 fst) in Hin.
Qed.

Lemma two_renames_chain_free : chain_free (Object_entries two_renames).
Proof.
  split; [compute_done|]. intros o n Hin.
  apply elem_of_cons in Hin as [[= -> ->]|Hin]; [compute_done|].
  apply list_elem_of_singleton in Hin as [= -> ->]. compute_done.
Defined.

Lemma X8_witness :
  existsb Routes.incomplete two_columns_renamed = false
  ∧ chain_free (Object_entries two_renames)
  ∧ Routes.put_config no_faults (Some alice)
      (Routes.mkPut (Some two_columns_renamed) (Some two_renames))
      (mkStore {[ alice := two_columns_renamed ]}
               [mail "m1" "later"; mail "m2" "archive"]
               [Migrated 1 (str "todo") (str "later");
                Migrated 1 (str "done") (str "archive")])
    = (mkStore {[ alice := two_columns_renamed ]}
               [mail "m1" "later"; mail "m2" "archive"]
               [Migrated 1 (str "todo") (str "later");
                Migrated 1 (str "done") (str "archive");
                Migrated 0 (str "todo") (str "later");
                Migrated 0 (str "done") (str "archive")],
       Ok200 two_columns_renamed "Kanban configuration updated successfully").
Proof.
  split; [reflexivity|]. split; [exact two_renames_chain_free|].
  exact (X8_put_config_retry_rewrites_nothing alice two_columns_renamed two_renames
           (store_of two_columns [mail "m1" "todo"; mail "m2" "done"])
           eq_refl two_renames_chain_free).
Defined.

(** * Sorting with a comparator *)

Module SortFacts.

Section AnyComparator.
Context {A : Type} (cmp : A → A → Z).

Lemma insert_sorted_perm x l : insert_sorted cmp x l ≡ₚ x :: l.
Proof.
  induction l as [|y l IH]; [done|]. simpl.
  destruct (cmp x y <=? 0)%Z; [done|]. rewrite IH. apply Permutation_swap.
Qed.

Lemma Array_sort_perm l : Array_sort cmp l ≡ₚ l.
Proof.
  unfold Array_sort. induction l as [|x l IH]; [done|]. simpl.
  by rewrite insert_sorted_perm, IH.
Qed.

End AnyComparator.

Section ByKey.
Context {A : Type} (key : A → Z).

Let cmp (a b : A) : Z := (key a - key b)%Z.

Lemma insert_sorted_sorted x l :
  StronglySorted (λ a b, (key a ≤ key b)%Z) l →
  StronglySorted (λ a b, (key a ≤ key b)%Z) (insert_sorted cmp x l).
Proof.
  induction 1 as [|y l Hl IH Hy]; simpl; [repeat constructor|].
  unfold cmp at 1. destruct (Z.leb_spec (key x - key y) 0).
  - constructor; [by constructor|]. constructor; [lia|].
    eapply Forall_impl; [exact Hy|]. simpl. intros z Hz. lia.
  - constructor; [done|].
    rewrite (insert_sorted_perm cmp x l). constructor; [lia | done].
Qed.

Lemma Array_sort_sorted l :
  StronglySorted (λ a b, (key a ≤ key b)%Z) (Array_sort cmp l).
Proof.
  unfold Array_sort. induction l as [|x l IH]; simpl; [constructor|].
  by apply insert_sorted_sorted.
Qed.

(** A list already in order is returned as it is. *)
Lemma Array_sort_id l :
  Sorted (λ a b, (key a ≤ key b)%Z) l → Array_sort cmp l = l.
Proof.
  unfold Array_sort. induction 1 as [|x l Hl IH Hx]; [done|]. simpl. rewrite IH.
  destruct Hx as [|y l' Hxy]; [done|]. simpl. unfold cmp.
  destruct (Z.leb_spec (key x - key y) 0); [done | lia].
Qed.

(** The sort is stable: elements with the same key keep their order. *)
Lemma insert_sorted_same_key k x l :
  filter (λ a, key a = k) (insert_sorted cmp x l)
  = filter (λ a, key a = k) (x :: l).
Proof.
  induction l as [|y l IH]; [done|]. simpl. unfold cmp at 1.
  destruct (Z.leb_spec (key x - key y) 0); [done|].
  rewrite (filter_cons _ y), IH, !(filter_cons _ x), (filter_cons _ y).
  destruct (decide (key x = k)), (decide (key y = k)); try done. lia.
Qed.

Lemma Array_sort_stable k l :
  filter (λ a, key a = k) (Array_sort cmp l) = filter (λ a, key a = k) l.
Proof.
  unfold Array_sort. induction l as [|x l IH]; [done|]. simpl.
  by rewrite insert_sorted_same_key, !filter_cons, IH.
Qed.

Lemma Array_sort_twice l : Array_sort cmp (Array_sort cmp l) = Array_sort cmp l.
Proof. apply Array_sort_id, StronglySorted_Sorted, Array_sort_sorted. Qed.

End ByKey.

End SortFacts.

(** * Further properties of the settings editor *)

Module MoveFacts.
Import Settings SettingsOps.

Lemma swap_perm {A} (l : list A) i x y :
  l !! i = Some x → l !! S i = Some y → <[S i := x]> (<[i := y]> l) ≡ₚ l.
Proof.
  revert l. induction i as [|i IH]; intros [|a [|b l]] Hx Hy; simplify_eq/=;
    try done.
  - apply Permutation_swap.
  - f_equiv. by apply (IH (b :: l)).
Qed.

Lemma swap_back {A} (l : list A) i x y :
  l !! i = Some x → l !! S i = Some y →
  <[S i := y]> (<[i := x]> (<[S i := x]> (<[i := y]> l))) = l.
Proof.
  revert l. induction i as [|i IH]; intros [|a [|b l]] Hx Hy; simplify_eq/=;
    try done.
  f_equal. by apply (IH (b :: l)).
Qed.

Lemma list_find_id (cols : list KanbanColumn) i c :
  ids_distinct cols → cols !! i = Some c →
  list_find (λ col, col_id col = col_id c) cols = Some (i, c).
Proof.
  intros Hids Hi. apply list_find_Some. split; [done|]. split; [done|].
  intros j y Hj Hlt Heq.
  assert (j = i); [|lia].
  eapply (NoDup_lookup _ _ _ (col_id c) Hids);
    rewrite list_lookup_fmap; [by rewrite Hj, <- Heq | by rewrite Hi].
Qed.

(** What a move does, by the position of the first column with the id. *)
Lemma handleMoveColumn_up_at st i c b :
  list_find (λ col, col_id col = col_id c) (columns st) = Some (S i, c) →
  columns st !! i = Some b →
  handleMoveColumn (col_id c) up st
  = mkState (<[i := c]> (<[S i := b]> (columns st))) (originalStatuses st).
Proof.
  intros Hfind Hb. unfold handleMoveColumn. rewrite Hfind.
  pose proof Hfind as (Hc & _ & _)%list_find_Some.
  pose proof (lookup_lt_Some _ _ _ Hc) as Hlen.
  replace (Z.of_nat (S i) - 1)%Z with (Z.of_nat i) by lia.
  rewrite Nat2Z.id, Hc, Hb.
  destruct (Z.ltb_spec (Z.of_nat i) 0); [lia|].
  destruct (Z.leb_spec (Z.of_nat (length (columns st))) (Z.of_nat i)); [lia|]. done.
Qed.

Lemma handleMoveColumn_down_at st i c b :
  list_find (λ col, col_id col = col_id c) (columns st) = Some (i, c) →
  columns st !! S i = Some b →
  handleMoveColumn (col_id c) down st
  = mkState (<[S i := c]> (<[i := b]> (columns st))) (originalStatuses st).
Proof.
  intros Hfind Hb. unfold handleMoveColumn. rewrite Hfind.
  pose proof Hfind as (Hc & _ & _)%list_find_Some.
  pose proof (lookup_lt_Some _ _ _ Hb) as Hlen.
  replace (Z.of_nat i + 1)%Z with (Z.of_nat (S i)) by lia.
  rewrite Nat2Z.id, Hc, Hb.
  destruct (Z.ltb_spec (Z.of_nat (S i)) 0); [lia|].
  destruct (Z.leb_spec (Z.of_nat (length (columns st))) (Z.of_nat (S i))); [lia|]. done.
Qed.

Lemma handleMoveColumn_perm columnId direction st :
  columns (handleMoveColumn columnId direction st) ≡ₚ columns st
  ∧ originalStatuses (handleMoveColumn columnId direction st) = originalStatuses st.
Proof.
  unfold handleMoveColumn.
  destruct (list_find _ (columns st)) as [[index c]|] eqn:Hfind; [|done].
  destruct (_ || _)%Z eqn:Hout; [done|].
  apply orb_false_iff in Hout as [H1%Z.ltb_ge H2%Z.leb_gt].
  destruct (columns st !! index) as [a|] eqn:Ha; [|done].
  destruct (columns st !! Z.to_nat _) as [b|] eqn:Hb; [|done].
  split; [|done]. cbn [columns]. destruct direction.
  - destruct index as [|t]; [lia|].
    replace (Z.to_nat (Z.of_nat (S t) - 1)) with t in * by lia.
    rewrite list_insert_insert_ne by lia. by apply swap_perm.
  - replace (Z.to_nat (Z.of_nat index + 1)) with (S index) in * by lia.
    by apply swap_perm.
Qed.

End MoveFacts.

(** X9. Moving a column neither loses nor duplicates a column: the edited
    list after [handleMoveColumn] is a rearrangement of the list before, and
    the statuses recorded at load time are untouched. *)
Theorem X9_handleMoveColumn_rearranges
    (columnId : jsstring) (direction : SettingsOps.Direction) (st : Settings.State) :
  Settings.columns (SettingsOps.handleMoveColumn columnId direction st)
    ≡ₚ Settings.columns st
  ∧ length (Settings.columns (SettingsOps.handleMoveColumn columnId direction st))
    = length (Settings.columns st)
  ∧ Settings.originalStatuses (SettingsOps.handleMoveColumn columnId direction st)
    = Settings.originalStatuses st.
Proof.
  destruct (MoveFacts.handleMoveColumn_perm columnId direction st) as [Hp Ho].
  split; [done|]. split; [by rewrite Hp | done].
Qed.

(** X10. With pairwise distinct ids, moving the column at position i+1 up
    puts it at position i and its neighbour at i+1, and moving it down again
    restores the dialog state.  The first column cannot move up and the last
    cannot move down: those moves change nothing. *)
Theorem X10_handleMoveColumn_up_then_down
    (st : Settings.State) (i : nat) (c b : KanbanColumn) :
  ids_distinct (Settings.columns st) →
  Settings.columns st !! i = Some b →
  Settings.columns st !! S i = Some c →
  let moved := SettingsOps.handleMoveColumn (col_id c) SettingsOps.up st in
  Settings.columns moved !! i = Some c
  ∧ Settings.columns moved !! S i = Some b
  ∧ SettingsOps.handleMoveColumn (col_id c) SettingsOps.down moved = st
  ∧ (i = 0%nat → SettingsOps.handleMoveColumn (col_id b) SettingsOps.up st = st)
  ∧ (S (S i) = length (Settings.columns st) →
     SettingsOps.handleMoveColumn (col_id c) SettingsOps.down st = st).
Proof.
  intros Hids Hb Hc moved.
  pose proof (lookup_lt_Some _ _ _ Hc) as Hlen.
  pose proof (MoveFacts.list_find_id _ _ _ Hids Hc) as Hfind.
  assert (moved = Settings.mkState (<[i := c]> (<[S i := b]> (Settings.columns st)))
                                   (Settings.originalStatuses st)) as Hmoved
    by (by apply MoveFacts.handleMoveColumn_up_at).
  rewrite Hmoved. cbn [Settings.columns].
  assert (<[i := c]> (<[S i := b]> (Settings.columns st)) !! i = Some c) as Hi'.
  { rewrite list_lookup_insert_eq; [done|]. rewrite length_insert. lia. }
  assert (<[i := c]> (<[S i := b]> (Settings.columns st)) !! S i = Some b) as HSi'.
  { rewrite list_lookup_insert_ne by lia. rewrite list_lookup_insert_eq; [done | lia]. }
  split; [done|]. split; [done|]. split; [|split].
  - rewrite (MoveFacts.handleMoveColumn_down_at _ i c b); cbn [Settings.columns
      Settings.originalStatuses]; [| |done].
    + rewrite (list_insert_insert_ne _ i (S i)) by lia.
      rewrite (MoveFacts.swap_back (Settings.columns st) i b c Hb Hc). by destruct st.
    + apply MoveFacts.list_find_id; [|done].
      unfold ids_distinct. rewrite (list_insert_insert_ne _ i (S i)) by lia.
      by rewrite (MoveFacts.swap_perm (Settings.columns st) i b c Hb Hc).
  - intros ->. unfold SettingsOps.handleMoveColumn.
    by rewrite (MoveFacts.list_find_id _ _ _ Hids Hb).
  - intros Hlast. unfold SettingsOps.handleMoveColumn. rewrite Hfind.
    destruct (Z.leb_spec (Z.of_nat (length (Settings.columns st))) (Z.of_nat (S i) + 1));
      [|lia]. by rewrite orb_true_r.
Qed.

Lemma X10_witness :
  ids_distinct (Settings.columns (Settings.loaded Routes.defaultColumns))
  ∧ Settings.columns (SettingsOps.handleMoveColumn (str "col-done") SettingsOps.up
                        (Settings.loaded Routes.defaultColumns)) !! 1%nat
    = Routes.defaultColumns !! 2%nat
  ∧ SettingsOps.handleMoveColumn (str "col-done") SettingsOps.down
      (SettingsOps.handleMoveColumn (str "col-done") SettingsOps.up
         (Settings.loaded Routes.defaultColumns))
    = Settings.loaded Routes.defaultColumns.
Proof.
  assert (ids_distinct (Settings.columns (Settings.loaded Routes.defaultColumns))) as Hids
    by (unfold ids_distinct; compute_done).
  split; [exact Hids|].
  destruct (X10_handleMoveColumn_up_then_down (Settings.loaded Routes.defaultColumns) 1
              (mkColumn (str "col-done") (str "done") (str "Done") (str "bg-green-500")
                        (str "CheckCircle") None 2)
              (mkColumn (str "col-todo") (str "todo") (str "To Do") (str "bg-yellow-500")
                        (str "Clock") (Some (str "STARRED")) 1)
              Hids eq_refl eq_refl) as (H1 & _ & H3 & _).
  split; [exact H1 | exact H3].
Defined.

Module SyncFacts.
Import Settings SettingsOps.

Lemma set_lookup_ne (own : gmap jsstring jsstring) key value k :
  key ≠ k → set key value own !! k = own !! k.
Proof.
  intros Hne. unfold set. destruct (own !! key); [by rewrite lookup_insert_ne|].
  destruct (decide (key = proto)); [done|]. by rewrite lookup_insert_ne.
Qed.

Lemma set_lookup_eq (own : gmap jsstring jsstring) key value :
  key ≠ proto → set key value own !! key = Some value.
Proof.
  intros Hne. unfold set. destruct (own !! key); [by rewrite lookup_insert_eq|].
  rewrite decide_False by done. by rewrite lookup_insert_eq.
Qed.

(** Assigning under the key "__proto__" records nothing in a fresh object. *)
Lemma set_proto (own : gmap jsstring jsstring) value :
  own !! proto = None → set proto value own = own.
Proof. intros H. unfold set. rewrite H. by rewrite decide_True. Qed.

Lemma get_own (own : gmap jsstring jsstring) key value :
  own !! key = Some value → get own key = JString value.
Proof. intros H. unfold get. by rewrite H. Qed.

Lemma track_other (cols : list KanbanColumn) (acc : gmap jsstring jsstring) k :
  k ∉ col_id <$> cols →
  foldl (λ statuses col, set (col_id col) (col_status col) statuses) acc cols !! k
  = acc !! k.
Proof.
  revert acc. induction cols as [|c cols IH]; intros acc Hk; [done|].
  rewrite fmap_cons in Hk. apply not_elem_of_cons in Hk as [Hne Hk]. simpl.
  rewrite IH by done. by rewrite set_lookup_ne.
Qed.

Lemma track_lookup (cols : list KanbanColumn) col :
  ids_distinct cols → col ∈ cols → col_id col ≠ proto →
  track_statuses cols !! col_id col = Some (col_status col).
Proof.
  unfold track_statuses, ids_distinct. generalize (∅ : gmap jsstring jsstring).
  induction cols as [|c cols IH]; intros acc Hids Hin Hp; [by apply elem_of_nil in Hin|].
  rewrite fmap_cons in Hids. apply NoDup_cons in Hids as [Hc Hids]. simpl.
  apply elem_of_cons in Hin as [->|Hin].
  - rewrite track_other by done. by apply set_lookup_eq.
  - by apply IH.
Qed.

(** The object built at load time never has an own property "__proto__". *)
Lemma track_no_proto (cols : list KanbanColumn) : track_statuses cols !! proto = None.
Proof.
  unfold track_statuses.
  assert ((∅ : gmap jsstring jsstring) !! proto = None) as H by apply lookup_empty.
  revert H. generalize (∅ : gmap jsstring jsstring).
  induction cols as [|c cols IH]; intros acc Hacc; [done|]. simpl. apply IH.
  destruct (decide (col_id c = proto)) as [->|Hne].
  - by rewrite set_proto.
  - by rewrite set_lookup_ne.
Qed.

Lemma loaded_in_sync cols :
  ids_distinct cols → proto ∉ col_id <$> cols → in_sync (loaded cols).
Proof.
  intros Hids Hp col Hin. apply track_lookup; [done..|].
  intros Heq. apply Hp. rewrite <- Heq. apply list_elem_of_fmap. eauto.
Qed.

Lemma in_sync_subset st st' :
  in_sync st → originalStatuses st' = originalStatuses st →
  (∀ col', col' ∈ columns st' →
     ∃ col, col ∈ columns st ∧ col_id col' = col_id col ∧ col_status col' = col_status col) →
  in_sync st'.
Proof.
  intros Hs Ho Hsub col' Hin. destruct (Hsub col' Hin) as (col & Hc & -> & ->).
  rewrite Ho. by apply Hs.
Qed.

Lemma apply_edit_in_sync st e : in_sync st → in_sync (apply_edit st e).
Proof.
  intros Hs. destruct e as [columnId d|columnId v|columnId v|confirmed columnId]; simpl.
  - destruct (MoveFacts.handleMoveColumn_perm columnId d st) as [Hp Ho].
    apply (in_sync_subset st); [done..|]. intros col' Hin. exists col'.
    by rewrite Hp in Hin.
  - unfold handleUpdateColumn. simpl. apply (in_sync_subset st); [done..|].
    intros col' (col & -> & Hin)%list_elem_of_fmap. exists col.
    split; [done|]. by destruct (decide _).
  - unfold handleUpdateColumn. simpl. apply (in_sync_subset st); [done..|].
    intros col' (col & -> & Hin)%list_elem_of_fmap. exists col.
    split; [done|]. by destruct (decide _).
  - unfold handleDeleteColumn. destruct (_ <=? _)%nat; [done|].
    destruct confirmed; [|done]. apply (in_sync_subset st); [done..|].
    intros col' [_ Hin]%list_elem_of_filter. by exists col'.
Qed.

Lemma edits_in_sync st edits : in_sync st → in_sync (foldl apply_edit st edits).
Proof.
  revert st. induction edits as [|e edits IH]; intros st Hs; [exact Hs|]. simpl.
  by apply IH, apply_edit_in_sync.
Qed.

Lemma in_sync_no_migrations st : in_sync st → (handleSave st).2 = [].
Proof.
  intros Hs. unfold handleSave. cbn [snd]. unfold statusMigrations.
  assert (∀ col', col' ∈ orderedColumns (columns st) →
            originalStatuses st !! col_id col' = Some (col_status col')) as Hall.
  { intros col' (i & Hi)%list_elem_of_lookup. unfold orderedColumns in Hi.
    rewrite list_lookup_imap in Hi.
    destruct (columns st !! i) as [col|] eqn:E; [|done]. injection Hi as <-. simpl.
    apply Hs. by eapply list_elem_of_lookup_2. }
  revert Hall. generalize (orderedColumns (columns st)). intros l Hall.
  induction l as [|c l IH]; [done|]. simpl.
  rewrite (get_own _ _ _ (Hall c ltac:(left))).
  rewrite (bool_decide_eq_false_2 (_ ≠ _)) by (intros H; done).
  rewrite andb_false_r. apply IH. intros col' Hin. apply Hall. by right.
Qed.

End SyncFacts.

(** X11. A save without a renamed status sends no migration and rewrites no
    email.  After the configuration is loaded, with pairwise distinct column
    ids none of which is "__proto__", any sequence of moves, color and icon
    edits and deletions leaves the statuses of the columns as loaded:
    [handleSave] sends an empty migration map, and the PUT that carries it
    leaves the email collection and the migration log as they were. *)
Theorem X11_edits_without_rename_migrate_nothing
    (fresh : nat → jsstring) (serverColumns : list KanbanColumn)
    (edits : list NeutralEdit) (f : Faults) (u : jsstring) (s : Store) :
  ids_distinct (Settings.columns (SettingsOps.loadConfig fresh serverColumns)) →
  Settings.proto ∉ col_id <$> Settings.columns (SettingsOps.loadConfig fresh serverColumns) →
  let st := foldl apply_edit (SettingsOps.loadConfig fresh serverColumns) edits in
  let sent := Routes.put_config f (Some u)
                (Routes.mkPut (Some (Settings.handleSave st).1)
                              (Some (Settings.handleSave st).2)) s in
  (Settings.handleSave st).2 = []
  ∧ emails sent.1 = emails s
  ∧ console sent.1 = console s.
Proof.
  intros Hids Hproto st sent.
  assert (SettingsOps.in_sync st) as Hsync
    by (apply SyncFacts.edits_in_sync, SyncFacts.loaded_in_sync; [exact Hids | exact Hproto]).
  pose proof (SyncFacts.in_sync_no_migrations st Hsync) as Hnone.
  split; [done|]. subst sent. rewrite Hnone.
  unfold Routes.put_config, try_catch_500, bindM, Routes.migration_step,
    Routes.write_config, ret. cbn [Routes.put_columns Routes.put_statusMigrations].
  destruct (existsb _ _); [done|]. simpl.
  by destruct (config_write_throws f).
Qed.

Lemma X11_witness :
  ids_distinct (Settings.columns (SettingsOps.loadConfig (λ _, str "col-fresh")
                                    Routes.defaultColumns))
  ∧ (Settings.proto ∉ col_id <$> Settings.columns
                         (SettingsOps.loadConfig (λ _, str "col-fresh")
                                                 Routes.defaultColumns))
  ∧ (Settings.handleSave
       (foldl apply_edit (SettingsOps.loadConfig (λ _, str "col-fresh") Routes.defaultColumns)
          [ Move (str "col-done") SettingsOps.up;
            Recolor (str "col-inbox") (Some (str "bg-red-500"));
            Remove true (str "col-snoozed") ])).2 = [].
Proof.
  assert (ids_distinct (Settings.columns (SettingsOps.loadConfig (λ _, str "col-fresh")
                                            Routes.defaultColumns))) as Hids
    by (unfold ids_distinct; compute_done).
  assert (Settings.proto ∉ col_id <$> Settings.columns
                             (SettingsOps.loadConfig (λ _, str "col-fresh")
                                                     Routes.defaultColumns)) as Hproto
    by compute_done.
  split; [exact Hids|]. split; [exact Hproto|].
  apply (X11_edits_without_rename_migrate_nothing (λ _, str "col-fresh")
           Routes.defaultColumns _ no_faults alice empty_store Hids Hproto).
Defined.

(** A stored column with the id "__proto__" is not recorded when the
    configuration is loaded, and a save of the untouched columns then sends a
    migration from the status "[object Object]" to the column's status. *)
Example proto_id_sends_a_migration :
  Settings.originalStatuses
    (Settings.loaded [column "__proto__" "todo" "To Do" None 0]) = ∅
  ∧ (Settings.handleSave (Settings.loaded [column "__proto__" "todo" "To Do" None 0])).2
    = [(str "[object Object]", str "todo")].
Proof. split; vm_compute; reflexivity. Qed.

(** X12. A column added in the dialog keeps its placeholder status when the
    state is saved and adds no entry to the migration map; deleting it again
    restores the dialog state.  (The generated id is new: no column carries
    it and the object of recorded statuses has nothing under it; there is at
    least one other column.) *)
Theorem X12_added_column_is_saved_with_placeholder
    (newColumnId : jsstring) (now : N) (st : Settings.State) :
  newColumnId ∉ col_id <$> Settings.columns st →
  Settings.get (Settings.originalStatuses st) newColumnId = Settings.JUndefined →
  (1 ≤ length (Settings.columns st))%nat →
  let added := Settings.handleAddColumn newColumnId now st in
  Settings.handleDeleteColumn true newColumnId added = st
  ∧ (Settings.handleSave added).2 = (Settings.handleSave st).2
  ∧ (Settings.handleSave added).1
    = (Settings.handleSave st).1
      ++ [mkColumn newColumnId (str "new-status-" ++ Number_toString now)
                   (str "New Column") (str "bg-blue-500") (str "Inbox") None
                   (Z.of_nat (length (Settings.columns st)))].
Proof.
  intros Hfresh Hnone Hlen added. subst added.
  unfold Settings.handleAddColumn, Settings.handleDeleteColumn, Settings.handleSave.
  cbn [Settings.columns Settings.originalStatuses fst snd].
  split; [|split].
  - rewrite length_app. simpl.
    destruct (Nat.leb_spec (length (Settings.columns st) + 1) 1); [lia|].
    rewrite filter_app, filter_cons_False, filter_nil, app_nil_r by (intros ?; done).
    assert (filter (λ col, col_id col ≠ newColumnId) (Settings.columns st)
            = Settings.columns st) as ->; [|by destruct st].
    clear Hlen Hnone H. induction (Settings.columns st) as [|c cols IH]; [done|].
    rewrite fmap_cons in Hfresh. apply not_elem_of_cons in Hfresh as [Hc Hfresh].
    rewrite filter_cons_True by done. f_equal. by apply IH.
  - unfold Settings.orderedColumns, Settings.statusMigrations.
    rewrite imap_app, foldl_app. simpl. by rewrite Hnone.
  - unfold Settings.orderedColumns. rewrite imap_app. simpl.
    by rewrite Nat.add_0_r.
Qed.

Lemma X12_witness :
  (str "col-new" ∉ col_id <$> Settings.columns (Settings.loaded two_columns))
  ∧ Settings.get (Settings.originalStatuses (Settings.loaded two_columns)) (str "col-new")
    = Settings.JUndefined
  ∧ (1 ≤ length (Settings.columns (Settings.loaded two_columns)))%nat
  ∧ Settings.handleDeleteColumn true (str "col-new")
      (Settings.handleAddColumn (str "col-new") 1700000000000 (Settings.loaded two_columns))
    = Settings.loaded two_columns
  ∧ (Settings.handleSave
       (Settings.handleAddColumn (str "col-new") 1700000000000
          (Settings.loaded two_columns))).2 = [].
Proof.
  assert (str "col-new" ∉ col_id <$> Settings.columns (Settings.loaded two_columns))
    as H1 by compute_done.
  assert (Settings.get (Settings.originalStatuses (Settings.loaded two_columns))
            (str "col-new") = Settings.JUndefined)
    as H2 by (vm_compute; reflexivity).
  assert (1 ≤ length (Settings.columns (Settings.loaded two_columns)))%nat
    as H3 by (simpl; lia).
  split; [exact H1|]. split; [exact H2|]. split; [exact H3|].
  destruct (X12_added_column_is_saved_with_placeholder (str "col-new") 1700000000000
              (Settings.loaded two_columns) H1 H2 H3) as (Hdel & Hmig & _).
  split; [exact Hdel|]. rewrite Hmig. vm_compute. reflexivity.
Defined.

Module TitleFacts.
Import Settings.

(** Whether a status is taken does not depend on the columns that carry the
    excluded id. *)
Lemma status_taken_fmap (g : KanbanColumn → KanbanColumn) cols columnId status :
  (∀ col, col_id (g col) = col_id col) →
  (∀ col, col_id col ≠ columnId → g col = col) →
  status_taken (g <$> cols) (Some columnId) status
  = status_taken cols (Some columnId) status.
Proof.
  intros Hid Hother. unfold status_taken.
  induction cols as [|c cols IH]; [done|]. rewrite fmap_cons. simpl. rewrite IH. f_equal.
  destruct (decide (col_id c = columnId)) as [Hc|Hc].
  - rewrite !(bool_decide_eq_false_2 (Some _ ≠ Some columnId)); [by rewrite !andb_false_r | |].
    + intros H. apply H. by rewrite Hc.
    + intros H. apply H. by rewrite Hid, Hc.
  - by rewrite Hother.
Qed.

Lemma unique_status_loop_ext fuel base cols cols' excludeId status counter :
  (∀ s, status_taken cols' excludeId s = status_taken cols excludeId s) →
  unique_status_loop fuel base cols' excludeId status counter
  = unique_status_loop fuel base cols excludeId status counter.
Proof.
  intros H. revert status counter.
  induction fuel as [|fuel IH]; intros status counter; [done|]. simpl.
  rewrite H. destruct (status_taken cols excludeId status); [apply IH | done].
Qed.

Lemma generateUniqueStatus_fmap (g : KanbanColumn → KanbanColumn) label title cols columnId :
  (∀ col, col_id (g col) = col_id col) →
  (∀ col, col_id col ≠ columnId → g col = col) →
  generateUniqueStatus label title (g <$> cols) (Some columnId)
  = generateUniqueStatus label title cols (Some columnId).
Proof.
  intros Hid Hother. unfold generateUniqueStatus, generateUniqueStatus_fuel.
  rewrite length_fmap. f_equal. apply unique_status_loop_ext.
  intros s. by apply status_taken_fmap.
Qed.

End TitleFacts.

(** X13. The status after a title edit depends on the final text only, not
    on the edits before it: a title edit with a non-empty text, made after any
    other title edit of the same column, gives the dialog state that the
    last edit alone gives.  Typing a title letter by letter ends in the same
    state as pasting it. *)
Theorem X13_title_edit_last_write_wins
    (columnId : jsstring) (v1 : option jsstring) (v2 : jsstring) (st : Settings.State) :
  v2 ≠ [] →
  Settings.handleUpdateColumn columnId Settings.F_title (Some v2)
    (Settings.handleUpdateColumn columnId Settings.F_title v1 st)
  = Settings.handleUpdateColumn columnId Settings.F_title (Some v2) st.
Proof.
  intros Hv2. unfold Settings.handleUpdateColumn.
  cbn [bool_decide decide_rel andb Settings.columns Settings.originalStatuses].
  rewrite !(bool_decide_eq_false_2 (Settings.F_title = Settings.F_gmailLabel)) by done.
  cbn [andb Settings.columns Settings.originalStatuses]. f_equal.
  rewrite <- list_fmap_compose. apply list_fmap_ext. intros i col _. simpl.
  assert (truthy v2 = true) as Ht by (by destruct v2).
  rewrite Ht. simpl.
  destruct (decide (col_id col = columnId)) as [Hc|Hc]; simpl.
  - rewrite decide_True by done. unfold set_status, Settings.set_field. simpl.
    f_equal. subst columnId.
    apply (TitleFacts.generateUniqueStatus_fmap _ (col_gmailLabel col) v2
             (Settings.columns st) (col_id col)).
    + intros c. destruct (decide _); [|done]. by destruct v1.
    + intros c Hne. by rewrite decide_False.
  - by rewrite decide_False.
Qed.

Lemma X13_witness :
  str "Done" ≠ []
  ∧ Settings.handleUpdateColumn (str "col-todo") Settings.F_title (Some (str "Done"))
      (Settings.handleUpdateColumn (str "col-todo") Settings.F_title (Some (str "Don"))
         (Settings.handleUpdateColumn (str "col-todo") Settings.F_title (Some (str "Do"))
            (Settings.loaded two_columns)))
    = Settings.handleUpdateColumn (str "col-todo") Settings.F_title (Some (str "Done"))
        (Settings.loaded two_columns).
Proof.
  assert (str "Done" ≠ []) as H by discriminate.
  split; [exact H|].
  rewrite (X13_title_edit_last_write_wins (str "col-todo") (Some (str "Don")) (str "Done")
             _ H).
  apply (X13_title_edit_last_write_wins (str "col-todo") (Some (str "Do")) (str "Done")
           _ H).
Defined.

Module LabelFacts.
Import Settings SettingsOps.

Lemma relabel_keeps_distinct (all cols : list KanbanColumn) (newlab : option jsstring)
    columnId :
  (∀ col, col ∈ cols → col ∈ all) →
  (∀ l other, newlab = Some l → other ∈ all → col_id other ≠ columnId →
              label_of other ≠ Some l) →
  ids_distinct cols → NoDup (omap label_of cols) →
  NoDup (omap (λ col, if decide (col_id col = columnId) then newlab else label_of col)
              cols).
Proof.
  unfold ids_distinct. intros Hsub Hfree.
  induction cols as [|c cs IH]; [constructor|].
  rewrite fmap_cons. intros [Hid Hids]%NoDup_cons Hlabs.
  assert (∀ col, col ∈ cs → col ∈ all) as Hsub' by (intros col ?; apply Hsub; by right).
  assert (NoDup (omap label_of cs)) as Hlabs'.
  { simpl in Hlabs. destruct (label_of c); [by apply NoDup_cons in Hlabs as [_ ?] | done]. }
  specialize (IH Hsub' Hids Hlabs'). simpl.
  destruct (decide (col_id c = columnId)) as [Hc|Hc].
  - destruct newlab as [l|]; [|done]. apply NoDup_cons. split; [|done].
    intros (d & Hd & Hg)%list_elem_of_omap.
    destruct (decide (col_id d = columnId)) as [Hd'|Hd'].
    + apply Hid. apply list_elem_of_fmap. exists d. split; [congruence | done].
    + by apply (Hfree l d eq_refl (Hsub' d Hd) Hd').
  - destruct (label_of c) as [l|] eqn:El; [|done]. apply NoDup_cons. split; [|done].
    intros (d & Hd & Hg)%list_elem_of_omap.
    destruct (decide (col_id d = columnId)) as [Hd'|Hd'].
    + apply (Hfree l c Hg (Hsub c ltac:(left)) Hc El).
    + simpl in Hlabs. rewrite El in Hlabs. apply NoDup_cons in Hlabs as [Hl _].
      apply Hl. apply list_elem_of_omap. by exists d.
Qed.

End LabelFacts.

(** X14. The dialog never maps one Gmail label to two columns.  With
    pairwise distinct column ids, if the non-empty Gmail labels of the edited
    columns are pairwise distinct before a call of [handleUpdateColumn], they
    are pairwise distinct after it, whatever the field and the value. *)
Theorem X14_handleUpdateColumn_keeps_labels_distinct
    (columnId : jsstring) (field : Settings.Field) (value : option jsstring)
    (st : Settings.State) :
  ids_distinct (Settings.columns st) →
  NoDup (SettingsOps.labels (Settings.columns st)) →
  NoDup (SettingsOps.labels
           (Settings.columns (Settings.handleUpdateColumn columnId field value st))).
Proof.
  intros Hids Hlabs. unfold Settings.handleUpdateColumn.
  destruct (_ && _ && _) eqn:Hguard; [done|]. cbn [Settings.columns].
  unfold SettingsOps.labels in *.
  destruct (decide (field = Settings.F_gmailLabel)) as [->|Hfield].
  - rewrite bool_decide_eq_true_2 in Hguard by done. simpl in Hguard.
    erewrite (list_omap_ext _ (λ col, if decide (col_id col = columnId)
                                      then (if truthy_opt value then value else None)
                                      else SettingsOps.label_of col)
                _ (Settings.columns st)).
    + apply (LabelFacts.relabel_keeps_distinct (Settings.columns st)); [done| |done..].
      intros l other Hnew Hin Hne Hl.
      destruct value as [v|]; [|done]. simpl in Hnew, Hguard.
      destruct (truthy v) eqn:Hv; [|done]. injection Hnew as ->. simpl in Hguard.
      apply not_true_iff_false in Hguard. apply Hguard.
      apply isGmailLabelUsed_elem. exists other. split; [done|]. split; [|congruence].
      unfold SettingsOps.label_of in Hl. destruct (col_gmailLabel other) as [l'|]; [|done].
      by destruct (truthy l'); simplify_eq.
    + apply Forall2_fmap_l, Forall_Forall2_diag, Forall_forall. intros col _. simpl.
      destruct (decide (col_id col = columnId)); [|done].
      unfold SettingsOps.label_of, set_status, Settings.set_field. simpl.
      destruct value as [v|]; [|done]. simpl. by destruct (truthy v).
  - erewrite (list_omap_ext _ SettingsOps.label_of _ (Settings.columns st)); [done|].
    apply Forall2_fmap_l, Forall_Forall2_diag, Forall_forall. intros col _. simpl.
    destruct (decide (col_id col = columnId)); [|done].
    unfold SettingsOps.label_of. by destruct field.
Qed.

Lemma X14_witness :
  ids_distinct (Settings.columns (Settings.loaded Routes.defaultColumns))
  ∧ NoDup (SettingsOps.labels (Settings.columns (Settings.loaded Routes.defaultColumns)))
  ∧ NoDup (SettingsOps.labels
             (Settings.columns
                (Settings.handleUpdateColumn (str "col-done") Settings.F_gmailLabel
                   (Some (str "SENT")) (Settings.loaded Routes.defaultColumns)))).
Proof.
  assert (ids_distinct (Settings.columns (Settings.loaded Routes.defaultColumns))) as H1
    by (unfold ids_distinct; compute_done).
  assert (NoDup (SettingsOps.labels
                   (Settings.columns (Settings.loaded Routes.defaultColumns)))) as H2
    by compute_done.
  split; [exact H1|]. split; [exact H2|].
  exact (X14_handleUpdateColumn_keeps_labels_distinct (str "col-done") Settings.F_gmailLabel
           (Some (str "SENT")) (Settings.loaded Routes.defaultColumns) H1 H2).
Defined.

Module LoadFacts.
Import Settings SettingsOps.

Lemma ordered_sorted (cols : list KanbanColumn) (k : nat) :
  Sorted (λ a b, (col_order a ≤ col_order b)%Z)
         (imap (λ index col, set_order (Z.of_nat (k + index)) col) cols).
Proof.
  revert k. induction cols as [|c cols IH]; intros k; [constructor|].
  rewrite imap_cons. constructor.
  - erewrite imap_ext; [apply (IH (S k))|]. intros i x _. simpl. f_equal. lia.
  - destruct cols as [|d cols]; [constructor|]. simpl. constructor. simpl. lia.
Qed.

Lemma sort_ordered (cols : list KanbanColumn) :
  sort_by_order (orderedColumns cols) = orderedColumns cols.
Proof.
  unfold sort_by_order. apply (SortFacts.Array_sort_id col_order).
  unfold orderedColumns. apply (ordered_sorted cols 0).
Qed.

Lemma normalise_id fresh (cols : list KanbanColumn) :
  Forall (λ col, col_status col ≠ []) cols → imap (normalise fresh) cols = cols.
Proof.
  intros H. rewrite (imap_ext _ (const id)), imap_const; [apply list_fmap_id|].
  intros i col Hi. rewrite Forall_forall in H.
  pose proof (H col (list_elem_of_lookup_2 _ _ _ Hi)) as Hc.
  unfold normalise. by destruct (col_status col).
Qed.

Lemma normalise_order fresh (cols : list KanbanColumn) :
  col_order <$> imap (normalise fresh) cols = col_order <$> cols.
Proof.
  rewrite fmap_imap, (imap_ext _ (const col_order)), imap_const; [done|].
  intros i col _. simpl. unfold normalise. by destruct (truthy _).
Qed.

End LoadFacts.

(** X15. What the dialog saves is what it loads back.  When the edited
    columns have non-empty statuses and pairwise distinct ids, none of which
    is "__proto__", loading the columns that [handleSave] sends shows the same
    columns in the same order and records, under each column's id, that
    column's status and nothing under any other key, so that a save right
    after the load sends an empty migration map. *)
Theorem X15_saved_columns_load_back
    (fresh : nat → jsstring) (st : Settings.State) :
  Forall (λ col, col_status col ≠ []) (Settings.columns st) →
  ids_distinct (Settings.columns st) →
  Settings.proto ∉ col_id <$> Settings.columns st →
  let sent := (Settings.handleSave st).1 in
  let reloaded := SettingsOps.loadConfig fresh sent in
  Settings.columns reloaded = sent
  ∧ (∀ col, col ∈ sent →
       Settings.get (Settings.originalStatuses reloaded) (col_id col)
       = Settings.JString (col_status col))
  ∧ (∀ key, key ∉ col_id <$> sent → Settings.originalStatuses reloaded !! key = None)
  ∧ (Settings.handleSave reloaded).2 = [].
Proof.
  intros Hstatus Hids Hproto sent reloaded.
  assert (col_id <$> sent = col_id <$> Settings.columns st) as Hsame.
  { subst sent. unfold Settings.handleSave, Settings.orderedColumns. cbn [fst].
    by rewrite fmap_imap, (imap_ext _ (const col_id)), imap_const. }
  assert (reloaded = Settings.loaded sent) as Hload.
  { subst reloaded sent. unfold SettingsOps.loadConfig, Settings.handleSave. cbn [fst].
    rewrite LoadFacts.sort_ordered, LoadFacts.normalise_id; [done|].
    unfold Settings.orderedColumns. apply Forall_forall.
    intros col' (i & Hi)%list_elem_of_lookup. rewrite list_lookup_imap in Hi.
    destruct (Settings.columns st !! i) as [col|] eqn:E; [|done]. injection Hi as <-.
    simpl. rewrite Forall_forall in Hstatus. apply Hstatus.
    by eapply list_elem_of_lookup_2. }
  assert (SettingsOps.in_sync reloaded) as Hsync.
  { rewrite Hload. apply SyncFacts.loaded_in_sync.
    - unfold ids_distinct. by rewrite Hsame.
    - by rewrite Hsame. }
  rewrite Hload at 1. split; [done|]. split; [|split].
  - intros col Hin. apply SyncFacts.get_own, Hsync. by rewrite Hload.
  - intros key Hkey. rewrite Hload. cbn [Settings.originalStatuses Settings.loaded].
    unfold Settings.track_statuses. by rewrite SyncFacts.track_other, lookup_empty.
  - by apply SyncFacts.in_sync_no_migrations.
Qed.

Lemma X15_witness :
  Forall (λ col, col_status col ≠ []) (Settings.columns three_columns_left)
  ∧ ids_distinct (Settings.columns three_columns_left)
  ∧ (Settings.proto ∉ col_id <$> Settings.columns three_columns_left)
  ∧ Settings.columns
      (SettingsOps.loadConfig (λ _, str "col-fresh") (Settings.handleSave three_columns_left).1)
    = (Settings.handleSave three_columns_left).1
  ∧ (Settings.handleSave
       (SettingsOps.loadConfig (λ _, str "col-fresh")
          (Settings.handleSave three_columns_left).1)).2 = [].
Proof.
  assert (Forall (λ col, col_status col ≠ []) (Settings.columns three_columns_left)) as H.
  { apply Forall_forall. intros col Hin. vm_compute in Hin.
    repeat (apply elem_of_cons in Hin as [->|Hin]; [discriminate|]).
    by apply elem_of_nil in Hin. }
  assert (ids_distinct (Settings.columns three_columns_left)) as Hids
    by (unfold ids_distinct; compute_done).
  assert (Settings.proto ∉ col_id <$> Settings.columns three_columns_left) as Hproto
    by compute_done.
  split; [exact H|]. split; [exact Hids|]. split; [exact Hproto|].
  destruct (X15_saved_columns_load_back (λ _, str "col-fresh") three_columns_left
              H Hids Hproto) as (Hcols & _ & _ & Hnone).
  split; [exact Hcols | exact Hnone].
Defined.

(** X16. Loading normalises the stored columns.  The dialog shows every
    stored column once, in ascending order of the order values, columns with
    the same order value in the order they are stored in; a column that
    carries a status is shown as stored, and a column without one takes its
    stored id as status and the id generated for its position, with its other
    fields kept. *)
Theorem X16_loadConfig_normalises
    (fresh : nat → jsstring) (serverColumns : list KanbanColumn) :
  let shown := Settings.columns (SettingsOps.loadConfig fresh serverColumns) in
  ∃ sorted,
    sorted ≡ₚ serverColumns
    ∧ StronglySorted (λ a b, (col_order a ≤ col_order b)%Z) sorted
    ∧ (∀ k, filter (λ col, col_order col = k) sorted
            = filter (λ col, col_order col = k) serverColumns)
    ∧ length shown = length sorted
    ∧ ∀ i col, sorted !! i = Some col →
        shown !! i
        = Some (if truthy (col_status col) then col
                else mkColumn (fresh i) (col_id col) (col_title col) (col_color col)
                              (col_icon col) (col_gmailLabel col) (col_order col)).
Proof.
  intros shown. subst shown. unfold SettingsOps.loadConfig.
  cbn [Settings.columns Settings.loaded].
  exists (SettingsOps.sort_by_order serverColumns). unfold SettingsOps.sort_by_order.
  split; [apply SortFacts.Array_sort_perm|].
  split; [apply (SortFacts.Array_sort_sorted col_order)|].
  split; [intros k; apply (SortFacts.Array_sort_stable col_order)|].
  split; [apply length_imap|].
  intros i col Hi. by rewrite list_lookup_imap, Hi.
Qed.

(** * Further properties of the board *)

Module FetchFacts.
Import BoardOps.

Lemma all_results_Returned api cols :
  (∀ col, col ∈ cols → api (col_status col) ≠ Thrown) →
  ∃ results, all_results api cols = Returned results
             ∧ Forall2 (λ col emails, api (col_status col) = Returned emails) cols results.
Proof.
  induction cols as [|col cols IH]; intros H; simpl.
  - exists []. by split.
  - destruct IH as (results & -> & HF). { intros c Hc. apply H. by right. }
    pose proof (H col ltac:(left)) as Hcol.
    destruct (api (col_status col)) as [emails|] eqn:E; [|done].
    exists (emails :: results). split; [done|]. by constructor.
Qed.

Lemma all_results_Thrown api cols col :
  col ∈ cols → api (col_status col) = Thrown → all_results api cols = Thrown.
Proof.
  induction 1 as [col cols|col c cols Hin IH]; intros H; simpl.
  - by rewrite H.
  - rewrite (IH H). by destruct (api (col_status c)).
Qed.

Lemma collect_other (status : jsstring) (cols : list KanbanColumn)
    (results : list (list Email))
    (acc : gmap jsstring (list Email)) :
  status ∉ col_status <$> cols →
  foldl (λ m cr, <[col_status cr.1 := cr.2]> m) acc (zip cols results) !! status
  = acc !! status.
Proof.
  revert results acc.
  induction cols as [|c cols IH]; intros [|r results] acc H; try done.
  rewrite fmap_cons in H. apply not_elem_of_cons in H as [Hc H].
  simpl. rewrite IH by done. by rewrite lookup_insert_ne.
Qed.

Lemma collect_lookup api cols results :
  Forall2 (λ col emails, api (col_status col) = Returned emails) cols results →
  ∀ (acc : gmap jsstring (list Email)) col emails,
    col ∈ cols → api (col_status col) = Returned emails →
    foldl (λ m cr, <[col_status cr.1 := cr.2]> m) acc (zip cols results) !! col_status col
    = Some emails.
Proof.
  induction 1 as [|c r cols results Hc HF IH]; intros acc col emails Hin Hapi.
  - by apply elem_of_nil in Hin.
  - simpl. destruct (decide (col_status col ∈ col_status <$> cols)) as [Hlater|Hnot].
    + apply list_elem_of_fmap in Hlater as (col' & Heq & Hin').
      rewrite Heq. apply IH; [done|]. by rewrite <- Heq.
    + rewrite collect_other by done.
      apply elem_of_cons in Hin as [->|Hin].
      * rewrite lookup_insert_eq. congruence.
      * destruct Hnot. apply list_elem_of_fmap. eauto.
Qed.

End FetchFacts.

(** X17. When the board has columns and every request of the email API
    resolves, [fetchEmailsByStatus] gives the bucket of every column's status
    the emails the API returned for that status, leaves no bucket under any
    other status, and keeps the dragged email and the snooze dialog as they
    were. *)
Theorem X17_fetch_fills_one_bucket_per_column
    (api : jsstring → outcome (list Email)) (cols : list KanbanColumn) (st : Board.State) :
  cols ≠ [] →
  (∀ col, col ∈ cols → api (col_status col) ≠ Thrown) →
  let st' := BoardOps.fetchEmailsByStatus api cols st in
  (∀ col, col ∈ cols →
     ∃ emails, api (col_status col) = Returned emails
               ∧ Board.emailsByStatus st' !! col_status col = Some emails)
  ∧ (∀ status, status ∉ col_status <$> cols → Board.emailsByStatus st' !! status = None)
  ∧ Board.draggingEmail st' = Board.draggingEmail st
  ∧ Board.snoozeEmailId st' = Board.snoozeEmailId st.
Proof.
  intros Hne Hapi.
  destruct (FetchFacts.all_results_Returned api cols Hapi) as (results & Hall & HF).
  unfold BoardOps.fetchEmailsByStatus. destruct cols as [|c cols]; [done|].
  rewrite Hall. cbn [Board.emailsByStatus Board.draggingEmail Board.snoozeEmailId].
  split; [|split; [|done]].
  - intros col Hin. pose proof (Hapi col Hin) as Hcol.
    destruct (api (col_status col)) as [emails|] eqn:E; [|done].
    exists emails. split; [done|].
    by apply (FetchFacts.collect_lookup api (c :: cols) results HF ∅ col emails).
  - intros status Hs. unfold BoardOps.collect.
    by rewrite FetchFacts.collect_other.
Qed.

Lemma X17_witness :
  let api := λ status, Returned [mkEmail (str "e1") status None (str "Hello") false] in
  two_columns ≠ []
  ∧ (∀ col, col ∈ two_columns → api (col_status col) ≠ Thrown)
  ∧ Board.emailsByStatus
      (BoardOps.fetchEmailsByStatus api two_columns (Board.mkState ∅ None None))
    !! str "archived" = None.
Proof.
  intros api. split; [done|]. split; [done|].
  apply (X17_fetch_fills_one_bucket_per_column api two_columns (Board.mkState ∅ None None));
    [done | done |].
  compute_done.
Defined.

(** X18. When the request for one column's status fails, [fetchEmailsByStatus]
    leaves the board as it was: no bucket is refreshed, not even those of the
    columns whose request resolved. *)
Theorem X18_failed_fetch_changes_nothing
    (api : jsstring → outcome (list Email)) (cols : list KanbanColumn) (st : Board.State)
    (col : KanbanColumn) :
  col ∈ cols → api (col_status col) = Thrown →
  BoardOps.fetchEmailsByStatus api cols st = st.
Proof.
  intros Hin Hcol. unfold BoardOps.fetchEmailsByStatus.
  rewrite (FetchFacts.all_results_Thrown api cols col Hin Hcol). by destruct cols.
Qed.

Lemma X18_witness :
  let api := λ status, if decide (status = str "done") then Thrown
                       else Returned [mkEmail (str "e1") status None (str "Hello") false] in
  column "col-done" "done" "Done" None 1 ∈ two_columns
  ∧ api (col_status (column "col-done" "done" "Done" None 1)) = Thrown
  ∧ BoardOps.fetchEmailsByStatus api two_columns (Board.mkState sample_board None None)
    = Board.mkState sample_board None None.
Proof.
  intros api.
  assert (column "col-done" "done" "Done" None 1 ∈ two_columns) as Hin
    by (right; left).
  split; [exact Hin|]. split; [reflexivity|].
  exact (X18_failed_fetch_changes_nothing api two_columns
           (Board.mkState sample_board None None) _ Hin eq_refl).
Defined.

(** ** Filters and sort order of a column *)

Module FilterFacts.
Import BoardOps.

Lemma insert_sorted_ext {A} (cmp cmp' : A → A → Z) x l :
  (∀ a b, cmp a b = cmp' a b) → insert_sorted cmp x l = insert_sorted cmp' x l.
Proof.
  intros H. induction l as [|y l IH]; [done|]. simpl. by rewrite H, IH.
Qed.

Lemma Array_sort_ext {A} (cmp cmp' : A → A → Z) l :
  (∀ a b, cmp a b = cmp' a b) → Array_sort cmp l = Array_sort cmp' l.
Proof.
  intros H. unfold Array_sort. induction l as [|x l IH]; [done|]. simpl.
  by rewrite IH, (insert_sorted_ext cmp cmp' _ _ H).
Qed.

Lemma filter_all {A} (P : A → Prop) `{!∀ x, Decision (P x)} (l : list A) :
  Forall P l → filter P l = l.
Proof.
  induction 1 as [|x l Hx Hl IH]; [done|]. by rewrite filter_cons_True, IH.
Qed.

Lemma StronglySorted_weaken {A} (R R' : A → A → Prop) (l : list A) :
  (∀ a b, R a b → R' a b) → StronglySorted R l → StronglySorted R' l.
Proof.
  intros H. induction 1 as [|x l Hl IH Hx]; constructor; [done|].
  eapply Forall_impl; [exact Hx|]. intros y. apply H.
Qed.

Section Filter.
Context (time : Email → Z) (hasAttachments : Email → bool).

(** The comparator of the sort is the difference of the keys: the time stamp
    for "oldest", its opposite for "newest". *)
Lemma by_date_key sortBy a b :
  by_date time sortBy a b
  = ((match sortBy with newest => - time a | oldest => time a end)
     - (match sortBy with newest => - time b | oldest => time b end))%Z.
Proof. destruct sortBy; simpl; lia. Qed.

Lemma sort_by_key sortBy l :
  Array_sort (by_date time sortBy) l
  = Array_sort (λ a b, ((match sortBy with newest => - time a | oldest => time a end)
                        - (match sortBy with newest => - time b | oldest => time b end))%Z) l.
Proof. apply Array_sort_ext, by_date_key. Qed.

(** The two optional filters, as one. *)
Lemma filtered sortBy filterUnread filterAttachments (emails : list Email) :
  getFilteredAndSortedEmails time hasAttachments sortBy filterUnread filterAttachments emails
  = Array_sort (by_date time sortBy)
      (filter (λ e, shown hasAttachments filterUnread filterAttachments e = true) emails).
Proof.
  unfold getFilteredAndSortedEmails. f_equal.
  unfold shown. destruct filterUnread, filterAttachments.
  - rewrite list_filter_filter. apply list_filter_iff. intros e.
    destruct (e_isRead e), (hasAttachments e); simpl; intuition congruence.
  - apply list_filter_iff. intros e. destruct (e_isRead e); simpl; intuition congruence.
  - apply list_filter_iff. intros e. by destruct (hasAttachments e).
  - symmetry. apply filter_all, Forall_forall. done.
Qed.

End Filter.

End FilterFacts.

(** X19. The emails shown in a column are exactly the emails of the bucket
    that pass the filters switched on (unread only, with attachments only),
    each as often as it is in the bucket, in the order of their time stamps
    (descending for "newest", ascending for "oldest"); emails with the same
    time stamp keep the order they have in the bucket. *)
Theorem X19_column_shows_matching_emails_in_date_order
    (time : Email → Z) (hasAttachments : Email → bool) (sortBy : BoardOps.SortBy)
    (filterUnread filterAttachments : bool) (emails : list Email) :
  let visible :=
    BoardOps.getFilteredAndSortedEmails time hasAttachments sortBy
      filterUnread filterAttachments emails in
  let matching :=
    filter (λ e, (filterUnread = true → e_isRead e = false)
                 ∧ (filterAttachments = true → hasAttachments e = true)) emails in
  visible ≡ₚ matching
  ∧ StronglySorted (λ a b, match sortBy with
                           | BoardOps.newest => (time b ≤ time a)%Z
                           | BoardOps.oldest => (time a ≤ time b)%Z
                           end) visible
  ∧ ∀ t, filter (λ e, time e = t) visible = filter (λ e, time e = t) matching.
Proof.
  intros visible matching.
  assert (filter (λ e, BoardOps.shown hasAttachments filterUnread filterAttachments e = true)
            emails = matching) as Hm.
  { apply list_filter_iff. intros e. unfold BoardOps.shown.
    destruct filterUnread, filterAttachments, (e_isRead e), (hasAttachments e);
      simpl; intuition congruence. }
  subst visible. rewrite FilterFacts.filtered, Hm. clear Hm.
  rewrite FilterFacts.sort_by_key. split; [apply SortFacts.Array_sort_perm|]. split.
  - eapply FilterFacts.StronglySorted_weaken; [|apply SortFacts.Array_sort_sorted].
    intros a b. destruct sortBy; simpl; lia.
  - intros t. destruct sortBy.
    + rewrite (list_filter_iff (λ e, time e = t) (λ e, (- time e)%Z = (- t)%Z))
        by (intros e; lia).
      rewrite (list_filter_iff (λ e, time e = t) (λ e, (- time e)%Z = (- t)%Z) matching)
        by (intros e; lia).
      apply (SortFacts.Array_sort_stable (λ e, (- time e)%Z)).
    + apply (SortFacts.Array_sort_stable time).
Qed.

(** X20. Showing a column is idempotent: filtering and sorting the emails
    already shown, with the same settings, gives them back in the same
    order.  With no filter switched on, as many emails are shown as the
    bucket holds. *)
Theorem X20_column_display_is_stable
    (time : Email → Z) (hasAttachments : Email → bool) (sortBy : BoardOps.SortBy)
    (filterUnread filterAttachments : bool) (emails : list Email) :
  let show := BoardOps.getFilteredAndSortedEmails time hasAttachments sortBy in
  show filterUnread filterAttachments (show filterUnread filterAttachments emails)
  = show filterUnread filterAttachments emails
  ∧ length (show false false emails) = length emails.
Proof.
  intros show. subst show. split.
  - rewrite (FilterFacts.filtered _ _ _ _ _ (BoardOps.getFilteredAndSortedEmails _ _ _ _ _ _)).
    rewrite FilterFacts.filtered, FilterFacts.filter_all.
    + rewrite !FilterFacts.sort_by_key. apply SortFacts.Array_sort_twice.
    + rewrite SortFacts.Array_sort_perm. apply Forall_forall.
      by intros e [He _]%list_elem_of_filter.
  - unfold BoardOps.getFilteredAndSortedEmails.
    by rewrite (SortFacts.Array_sort_perm _ emails).
Qed.

(** ** The number of cards on the board *)

Module CountFacts.
Import Board BoardOps.




End CountFacts.



(** ** Snoozing from a column *)

Module RelocateFacts.
Import Board BoardFacts.

Lemma find_id_exists emailId (bucket : list Email) e :
  e ∈ bucket → e_id e = emailId →
  ∃ found, find (λ e, bool_decide (e_id e = emailId)) bucket = Some found.
Proof.
  intros Hin Hid. destruct (find _ bucket) as [found|] eqn:Hfind; [eauto|].
  apply list_elem_of_In in Hin. eapply (find_none _ _ Hfind) in Hin.
  by apply bool_decide_eq_false in Hin.
Qed.


(** When the search finds nothing, none of the buckets searched holds the
    email. *)
Lemma locate_None (prev : gmap jsstring (list Email)) emailId statuses :
  locate prev emailId statuses = Returned None →
  ∀ status bucket e, status ∈ statuses → prev !! status = Some bucket → e ∈ bucket →
                     e_id e ≠ emailId.
Proof.
  induction statuses as [|s rest IH]; intros Hloc status bucket e Hin Hb He.
  - by apply elem_of_nil in Hin.
  - cbn [locate] in Hloc. destruct (prev !! s) as [b|] eqn:Hs; [|done].
    destruct (find _ b) as [found|] eqn:Hfind; [done|].
    apply elem_of_cons in Hin as [->|Hin].
    + intros Hid. rewrite Hs in Hb. injection Hb as ->.
      destruct (find_id_exists emailId bucket e He Hid) as [? Hf]. congruence.
    + by apply (IH Hloc status bucket e).
Qed.

End RelocateFacts.



(** X23. The projection that [handleSnooze] builds has the four default
    buckets only: whenever the snoozed email is found in one of "inbox",
    "todo", "done" and "snoozed", every bucket under another status, such as
    the bucket of a custom column, is gone from the board after the snooze. *)
Theorem X23_snooze_drops_the_buckets_of_custom_columns
    (zone : TimeZone) (now hours : Z) (emailId status : jsstring) (st st' : Board.State)
    (bucket : list Email) (e : Email) :
  status ∈ [Board.inbox; Board.todo; Board.done; Board.snoozed] →
  Board.emailsByStatus st !! status = Some bucket →
  e ∈ bucket → e_id e = emailId →
  Board.next (Board.handleSnooze zone now true emailId hours st) = Returned st' →
  ∀ custom, custom ∉ [Board.inbox; Board.todo; Board.done; Board.snoozed] →
            Board.emailsByStatus st' !! custom = None.
Proof.
  intros Hs Hb He Hid Hnext custom Hcustom.
  unfold Board.handleSnooze in Hnext. cbn [Board.next] in Hnext.
  unfold Board.snooze_update in Hnext.
  destruct (Board.locate _ _ _) as [[[found source]|]|] eqn:Hloc; [| |done].
  - destruct (Board.emailsByStatus st !! Board.snoozed) as [sb|]; [|done].
    match type of Hnext with
    | context [Board.literal [(_, ?a); (_, ?b); (_, ?c); (_, Some ?v)]] =>
        destruct (SnoozeFacts.literal_four a b c v) as (_ & _ & _ & _ & Hrest)
    end.
    specialize (Hrest custom Hcustom).
    injection Hnext as <-. exact Hrest.
  - by destruct (RelocateFacts.locate_None _ _ _ Hloc status bucket e Hs Hb He).
Qed.

Lemma X23_witness :
  Board.snoozed ∈ [Board.inbox; Board.todo; Board.done; Board.snoozed]
  ∧ sample_board !! Board.snoozed
    = Some [card "e3" "snoozed" (Some 500%Z); card "e4" "snoozed" (Some 700%Z)]
  ∧ sample_board !! str "archived" = Some [card "e5" "archived" None]
  ∧ ∃ st',
      Board.next (Board.handleSnooze utc 1000 true (str "e4") 2
                    (Board.mkState sample_board None (Some (str "e4"))))
      = Returned st'
      ∧ Board.emailsByStatus st' !! str "archived" = None.
Proof.
  split; [by do 3 right; left|]. split; [reflexivity|]. split; [reflexivity|].
  destruct (Board.next (Board.handleSnooze utc 1000 true (str "e4") 2
                          (Board.mkState sample_board None (Some (str "e4")))))
    as [st'|] eqn:Hnext; [|vm_compute in Hnext; discriminate].
  exists st'. split; [reflexivity|].
  apply (X23_snooze_drops_the_buckets_of_custom_columns utc 1000 2 (str "e4") Board.snoozed
           (Board.mkState sample_board None (Some (str "e4"))) st'
           [card "e3" "snoozed" (Some 500%Z); card "e4" "snoozed" (Some 700%Z)]
           (card "e4" "snoozed" (Some 700%Z)));
    [by do 3 right; left | reflexivity | by right; left | reflexivity | exact Hnext
    | compute_done].
Defined.

(** * Properties of the search bar *)

Module TrimFacts.
Import Slug.

Lemma trimStart_split s :
  ∃ before, s = before ++ trimStart s ∧ Forall (λ c, is_space c = true) before.
Proof.
  induction s as [|c s (before & IH & Hb)]; [by exists []|]. simpl.
  destruct (is_space c) eqn:E.
  - exists (c :: before). split; [simpl; by rewrite <- IH | by constructor].
  - by exists [].
Qed.

Lemma trimStart_head s c : head (trimStart s) = Some c → is_space c = false.
Proof.
  induction s as [|c' s IH]; [done|]. simpl.
  destruct (is_space c') eqn:E; [done|]. simpl. by intros [= <-].
Qed.

Lemma trimEnd_split s :
  ∃ after, s = trimEnd s ++ after ∧ Forall (λ c, is_space c = true) after.
Proof.
  destruct (trimStart_split (reverse s)) as (before & Hs & Hb).
  exists (reverse before). split; [|by apply Forall_reverse].
  unfold trimEnd. rewrite <- reverse_app, <- Hs. by rewrite reverse_involutive.
Qed.

Lemma trimEnd_last s c : last (trimEnd s) = Some c → is_space c = false.
Proof. unfold trimEnd. rewrite last_reverse. apply trimStart_head. Qed.

Lemma trim_split s :
  ∃ before after,
    s = before ++ trim s ++ after
    ∧ Forall (λ c, is_space c = true) before ∧ Forall (λ c, is_space c = true) after.
Proof.
  destruct (trimStart_split s) as (before & Hs & Hb).
  destruct (trimEnd_split (trimStart s)) as (after & Hs' & Ha).
  exists before, after. unfold trim. by rewrite <- Hs', <- Hs.
Qed.

Lemma trim_head s c : head (trim s) = Some c → is_space c = false.
Proof.
  destruct (trimEnd_split (trimStart s)) as (after & Hs & _). unfold trim.
  intros H. apply (trimStart_head s). rewrite Hs.
  by destruct (trimEnd (trimStart s)).
Qed.

Lemma trim_last s c : last (trim s) = Some c → is_space c = false.
Proof. apply trimEnd_last. Qed.

End TrimFacts.

Module SearchFacts.
Import SearchBar.

Lemma handleSearch_state searchQuery st :
  query (handleSearch searchQuery st).1 = query st
  ∧ suggestions (handleSearch searchQuery st).1 = suggestions st
  ∧ selectedIndex (handleSearch searchQuery st).1 = selectedIndex st
  ∧ searchType (handleSearch searchQuery st).1 = searchType st.
Proof. unfold handleSearch. by destruct (truthy _). Qed.

(** [k] presses of the down arrow from a selected suggestion. *)
Lemma arrow_down_iter (k : nat) st :
  let n := Z.of_nat (length (suggestions st)) in
  (0 ≤ selectedIndex st < n)%Z →
  Nat.iter k (λ s, (handleKeyDown ArrowDown s).1) st
  = mkState (query st) (suggestions st) (showSuggestions st)
            ((selectedIndex st + Z.of_nat k) `mod` n)%Z (searchType st).
Proof.
  intros n Hidx. induction k as [|k IH].
  - simpl. rewrite Z.add_0_r, Z.mod_small by done. by destruct st.
  - rewrite Nat.iter_succ, IH. cbn [handleKeyDown fst query suggestions showSuggestions
                                     selectedIndex searchType]. fold n.
    f_equal.
    pose proof (Z.mod_pos_bound (selectedIndex st + Z.of_nat k) n ltac:(lia)) as Hr.
    replace (selectedIndex st + Z.of_nat (S k))%Z
      with (selectedIndex st + Z.of_nat k + 1)%Z by lia.
    rewrite <- (Zplus_mod_idemp_l (selectedIndex st + Z.of_nat k)).
    destruct (Z.ltb_spec ((selectedIndex st + Z.of_nat k) `mod` n) (n - 1)).
    + by rewrite (Z.mod_small (_ + 1)) by lia.
    + replace ((selectedIndex st + Z.of_nat k) `mod` n + 1)%Z with n by lia.
      by rewrite Z.mod_same by lia.
Qed.

End SearchFacts.

(** X24. [handleSearch] sends the query without its leading and trailing white
    space, and sends nothing for a query of white space only.  When a search
    is sent, the text sent is not empty, neither starts nor ends with white
    space, is the typed text up to white space before and after it, carries
    the semantic flag exactly when the search type is "semantic", and the
    suggestion list is closed; when none is sent the state is unchanged. *)
Theorem X24_handleSearch_sends_the_trimmed_query
    (searchQuery : jsstring) (st : SearchBar.State) :
  match SearchBar.handleSearch searchQuery st with
  | (st', None) => Forall (λ c, Slug.is_space c = true) searchQuery ∧ st' = st
  | (st', Some search) =>
      let sent := SearchBar.search_query search in
      (∃ before after,
         searchQuery = before ++ sent ++ after
         ∧ Forall (λ c, Slug.is_space c = true) before
         ∧ Forall (λ c, Slug.is_space c = true) after)
      ∧ sent ≠ []
      ∧ (∀ c, head sent = Some c → Slug.is_space c = false)
      ∧ (∀ c, last sent = Some c → Slug.is_space c = false)
      ∧ (SearchBar.search_semantic search = true
         ↔ SearchBar.searchType st = SearchBar.semantic)
      ∧ st' = SearchBar.mkState (SearchBar.query st) (SearchBar.suggestions st) false
                (SearchBar.selectedIndex st) (SearchBar.searchType st)
  end.
Proof.
  unfold SearchBar.handleSearch.
  destruct (TrimFacts.trim_split searchQuery) as (before & after & Hsplit & Hb & Ha).
  pose proof (TrimFacts.trim_head searchQuery) as Hhead.
  pose proof (TrimFacts.trim_last searchQuery) as Hlast.
  revert Hsplit Hhead Hlast.
  destruct (Slug.trim searchQuery) as [|c sent]; intros Hsplit Hhead Hlast;
    cbn [truthy SearchBar.search_query SearchBar.search_semantic].
  - split; [|done]. rewrite Hsplit. simpl. by apply Forall_app.
  - split; [by exists before, after|]. split; [done|].
    split; [exact Hhead|]. split; [exact Hlast|].
    split; [|done]. by destruct (SearchBar.searchType st).
Qed.

(** X25. The keyboard keeps the selected index in range.  If the index lies
    between -1 (nothing highlighted) and the index of the last suggestion, or
    between -1 and 0 when there is no suggestion, it does so again after any
    key, and no key changes the suggestions.  With at least one suggestion the
    index stays -1 or the index of a suggestion, and after an arrow key a
    suggestion is highlighted.  Without suggestions the down arrow sets the
    index to 0, which is the index of no suggestion. *)
Theorem X25_keys_keep_the_selection_in_range
    (key : SearchBar.Key) (st : SearchBar.State) :
  let n := Z.of_nat (length (SearchBar.suggestions st)) in
  (-1 ≤ SearchBar.selectedIndex st ≤ Z.max 0 (n - 1))%Z →
  let st' := (SearchBar.handleKeyDown key st).1 in
  SearchBar.suggestions st' = SearchBar.suggestions st
  ∧ (-1 ≤ SearchBar.selectedIndex st' ≤ Z.max 0 (n - 1))%Z
  ∧ (SearchBar.suggestions st ≠ [] → (-1 ≤ SearchBar.selectedIndex st' < n)%Z)
  ∧ (key = SearchBar.ArrowDown ∨ key = SearchBar.ArrowUp →
     SearchBar.suggestions st ≠ [] →
     (0 ≤ SearchBar.selectedIndex st' < n)%Z)
  ∧ (key = SearchBar.ArrowDown → SearchBar.suggestions st = [] →
     SearchBar.selectedIndex st' = 0%Z).
Proof.
  intros n Hidx st'. subst st'.
  assert (SearchBar.suggestions st ≠ [] → (0 < n)%Z) as Hn.
  { subst n. destruct (SearchBar.suggestions st); [done | simpl; lia]. }
  assert (SearchBar.suggestions st = [] → n = 0%Z) as Hz.
  { subst n. by intros ->. }
  assert (∀ s, SearchBar.suggestions s = SearchBar.suggestions st →
               SearchBar.selectedIndex s = SearchBar.selectedIndex st →
               key ≠ SearchBar.ArrowDown → key ≠ SearchBar.ArrowUp →
            SearchBar.suggestions s = SearchBar.suggestions st
            ∧ (-1 ≤ SearchBar.selectedIndex s ≤ Z.max 0 (n - 1))%Z
            ∧ (SearchBar.suggestions st ≠ [] → (-1 ≤ SearchBar.selectedIndex s < n)%Z)
            ∧ (key = SearchBar.ArrowDown ∨ key = SearchBar.ArrowUp →
               SearchBar.suggestions st ≠ [] →
               (0 ≤ SearchBar.selectedIndex s < n)%Z)
            ∧ (key = SearchBar.ArrowDown → SearchBar.suggestions st = [] →
               SearchBar.selectedIndex s = 0%Z)) as Hsame.
  { intros s Hs1 Hs2 Hd Hu. rewrite Hs2. split; [done|]. split; [done|].
    split; [intros Hne; specialize (Hn Hne); lia|]. split; [by intros [|]|done]. }
  destruct key; cbn [SearchBar.handleKeyDown]; fold n.
  - assert (∀ q s, SearchBar.suggestions s = SearchBar.suggestions st →
                   SearchBar.selectedIndex s = SearchBar.selectedIndex st →
              SearchBar.suggestions (SearchBar.handleSearch q s).1
              = SearchBar.suggestions st
              ∧ SearchBar.selectedIndex (SearchBar.handleSearch q s).1
                = SearchBar.selectedIndex st) as Hsearch.
    { intros q s Hs1 Hs2.
      destruct (SearchFacts.handleSearch_state q s) as (_ & -> & -> & _). done. }
    destruct (_ && _).
    + destruct (_ !! _) as [selected|]; [|by apply Hsame].
      destruct (Hsearch selected
                  (SearchBar.mkState selected (SearchBar.suggestions st)
                     (SearchBar.showSuggestions st) (SearchBar.selectedIndex st)
                     (SearchBar.searchType st)) eq_refl eq_refl) as [H1 H2].
      by apply Hsame.
    + destruct (Hsearch (SearchBar.query st) st eq_refl eq_refl) as [H1 H2].
      by apply Hsame.
  - simpl. split; [done|].
    destruct (Z.ltb_spec (SearchBar.selectedIndex st) (n - 1));
      (split; [lia|]; split; [intros Hne; specialize (Hn Hne); lia|];
       split; [intros _ Hne; specialize (Hn Hne); lia|];
       intros _ Hnil; specialize (Hz Hnil); lia).
  - simpl. split; [done|].
    destruct (Z.ltb_spec 0 (SearchBar.selectedIndex st));
      (split; [lia|]; split; [intros Hne; specialize (Hn Hne); lia|];
       split; [intros _ Hne; specialize (Hn Hne); lia | done]).
  - simpl. split; [done|]. split; [lia|].
    split; [intros Hne; specialize (Hn Hne); lia|]. split; [by intros [|] | done].
  - by apply Hsame.
Qed.

Lemma X25_witness :
  let st := SearchBar.mkState (str "inv") [str "invoice"; str "invitation"] true (-1)
                              SearchBar.fuzzy in
  (-1 ≤ SearchBar.selectedIndex st
   ≤ Z.max 0 (Z.of_nat (length (SearchBar.suggestions st)) - 1))%Z
  ∧ (0 ≤ SearchBar.selectedIndex (SearchBar.handleKeyDown SearchBar.ArrowUp st).1
     < Z.of_nat (length (SearchBar.suggestions st)))%Z.
Proof.
  intros st.
  assert (-1 ≤ SearchBar.selectedIndex st
          ≤ Z.max 0 (Z.of_nat (length (SearchBar.suggestions st)) - 1))%Z as Hidx
    by (simpl; lia).
  split; [exact Hidx|].
  apply (X25_keys_keep_the_selection_in_range SearchBar.ArrowUp st Hidx);
    [by right | done].
Defined.

(** X26. The arrow keys walk the suggestions in a cycle.  From a highlighted
    suggestion, pressing the down arrow once per suggestion comes back to the
    same state, and the up arrow undoes the down arrow and the other way
    round, also across the ends of the list. *)
Theorem X26_arrow_keys_cycle (st : SearchBar.State) :
  (0 ≤ SearchBar.selectedIndex st < Z.of_nat (length (SearchBar.suggestions st)))%Z →
  Nat.iter (length (SearchBar.suggestions st))
           (λ s, (SearchBar.handleKeyDown SearchBar.ArrowDown s).1) st = st
  ∧ (SearchBar.handleKeyDown SearchBar.ArrowUp
       (SearchBar.handleKeyDown SearchBar.ArrowDown st).1).1 = st
  ∧ (SearchBar.handleKeyDown SearchBar.ArrowDown
       (SearchBar.handleKeyDown SearchBar.ArrowUp st).1).1 = st.
Proof.
  intros Hidx. split; [|split].
  - rewrite SearchFacts.arrow_down_iter by done.
    rewrite <- (Z.mul_1_l (Z.of_nat (length (SearchBar.suggestions st)))) at 1.
    rewrite Z.mod_add, Z.mod_small by lia. by destruct st.
  - destruct st as [q sugg shown idx ty]. simpl in *. f_equal.
    destruct (Z.ltb_spec idx (Z.of_nat (length sugg) - 1)).
    + destruct (Z.ltb_spec 0 (idx + 1)); lia.
    + simpl. lia.
  - destruct st as [q sugg shown idx ty]. simpl in *. f_equal.
    destruct (Z.ltb_spec 0 idx).
    + destruct (Z.ltb_spec (idx - 1) (Z.of_nat (length sugg) - 1)); lia.
    + destruct (Z.ltb_spec (Z.of_nat (length sugg) - 1) (Z.of_nat (length sugg) - 1)); lia.
Qed.

Lemma X26_witness :
  let st := SearchBar.mkState (str "inv") [str "invoice"; str "invitation"; str "invite"]
                              true 2 SearchBar.fuzzy in
  (0 ≤ SearchBar.selectedIndex st < Z.of_nat (length (SearchBar.suggestions st)))%Z
  ∧ (SearchBar.handleKeyDown SearchBar.ArrowUp
       (SearchBar.handleKeyDown SearchBar.ArrowDown st).1).1 = st.
Proof.
  intros st.
  assert (0 ≤ SearchBar.selectedIndex st
          < Z.of_nat (length (SearchBar.suggestions st)))%Z as Hidx by (simpl; lia).
  split; [exact Hidx|]. apply (X26_arrow_keys_cycle st Hidx).
Defined.

(** X27. Choosing a suggestion with the keyboard is choosing it with the
    mouse: Enter on the highlighted suggestion does what a click on that
    suggestion does.  The query becomes the suggestion, and the suggestion is
    searched for, trimmed, unless it is white space only. *)
Theorem X27_enter_on_a_suggestion_is_a_click
    (st : SearchBar.State) (i : nat) (suggestion : jsstring) :
  SearchBar.suggestions st !! i = Some suggestion →
  SearchBar.selectedIndex st = Z.of_nat i →
  SearchBar.handleKeyDown SearchBar.Enter st
  = SearchBar.handleSuggestionClick suggestion st
  ∧ SearchBar.query (SearchBar.handleKeyDown SearchBar.Enter st).1 = suggestion
  ∧ (SearchBar.search_query <$> (SearchBar.handleKeyDown SearchBar.Enter st).2
     = if truthy (Slug.trim suggestion) then Some (Slug.trim suggestion) else None).
Proof.
  intros Hlook Hidx. pose proof (lookup_lt_Some _ _ _ Hlook) as Hlt.
  assert (SearchBar.handleKeyDown SearchBar.Enter st
          = SearchBar.handleSuggestionClick suggestion st) as ->.
  { cbn [SearchBar.handleKeyDown]. rewrite Hidx, Nat2Z.id, Hlook.
    destruct (Z.leb_spec 0 (Z.of_nat i)); [|lia].
    destruct (Z.ltb_spec (Z.of_nat i) (Z.of_nat (length (SearchBar.suggestions st))));
      [|lia].
    unfold SearchBar.handleSuggestionClick. by rewrite Hidx. }
  split; [done|]. unfold SearchBar.handleSuggestionClick, SearchBar.handleSearch.
  by destruct (truthy (Slug.trim suggestion)).
Qed.

Lemma X27_witness :
  let st := SearchBar.mkState (str "inv") [str "invoice"; str " invitation "] true 1
                              SearchBar.semantic in
  SearchBar.suggestions st !! 1%nat = Some (str " invitation ")
  ∧ SearchBar.selectedIndex st = Z.of_nat 1
  ∧ SearchBar.search_query <$> (SearchBar.handleKeyDown SearchBar.Enter st).2
    = Some (str "invitation").
Proof.
  intros st. split; [reflexivity|]. split; [reflexivity|].
  destruct (X27_enter_on_a_suggestion_is_a_click st 1 (str " invitation ")
              eq_refl eq_refl) as (_ & _ & ->).
  reflexivity.
Defined.

(** X28. After the clear button the search bar sends nothing: the query and
    the suggestions are empty, and no key, Enter included, starts a search
    until something is typed. *)
Theorem X28_nothing_is_searched_after_clear (key : SearchBar.Key) (st : SearchBar.State) :
  SearchBar.query (SearchBar.handleClear st) = []
  ∧ SearchBar.suggestions (SearchBar.handleClear st) = []
  ∧ SearchBar.showSuggestions (SearchBar.handleClear st) = false
  ∧ (SearchBar.handleKeyDown key (SearchBar.handleClear st)).2 = None.
Proof.
  split; [done|]. split; [done|]. split; [done|].
  destruct key; try done. cbn.
  destruct (_ && _); [|done]. by rewrite lookup_nil.
Qed.

(** ** The board right after its configuration is loaded *)

Module InitFacts.
Import BoardOps.

Lemma initial_lookup (cols : list KanbanColumn) (acc : gmap jsstring (list Email))
    (status : jsstring) :
  foldl (λ initialEmails col, <[col_status col := []]> initialEmails) acc cols !! status
  = if decide (status ∈ col_status <$> cols) then Some [] else acc !! status.
Proof.
  revert acc. induction cols as [|col cols IH]; intros acc; [done|].
  cbn [foldl]. rewrite IH, fmap_cons.
  destruct (decide (status ∈ col_status <$> cols)) as [Hin|Hnot].
  - rewrite decide_True; [done | by right].
  - destruct (decide (status = col_status col)) as [->|Hne].
    + rewrite lookup_insert_eq, decide_True; [done | left].
    + rewrite lookup_insert_ne by done. rewrite decide_False; [done|].
      by intros [?|?]%elem_of_cons.
Qed.

Lemma allEmailsCount_empty_buckets (m : gmap jsstring (list Email)) :
  (∀ status bucket, m !! status = Some bucket → bucket = []) → allEmailsCount m = 0%nat.
Proof.
  unfold allEmailsCount. induction m as [|status bucket m Hfresh IH] using map_ind;
    intros Hempty.
  - apply map_fold_empty.
  - rewrite map_fold_insert_L; [|intros; lia|done].
    rewrite (Hempty status bucket) by apply lookup_insert_eq.
    rewrite IH; [done|]. intros s b Hs. apply (Hempty s b).
    rewrite lookup_insert_ne; [done|]. intros ->. congruence.
Qed.

End InitFacts.

(** X29. Right after the board has loaded its configuration, every column's
    status has an empty bucket, no other status has a bucket, and the board
    counts no email, whatever the columns are and also when two columns share
    a status. *)
Theorem X29_loaded_board_has_one_empty_bucket_per_status
    (cols : list KanbanColumn) (status : jsstring) :
  BoardOps.initial_buckets cols !! status
  = (if decide (status ∈ col_status <$> cols) then Some [] else None)
  ∧ BoardOps.allEmailsCount (BoardOps.initial_buckets cols) = 0%nat.
Proof.
  unfold BoardOps.initial_buckets. split.
  - by rewrite InitFacts.initial_lookup, lookup_empty.
  - apply InitFacts.allEmailsCount_empty_buckets. intros s b.
    rewrite InitFacts.initial_lookup, lookup_empty. by destruct (decide _); intros [=].
Qed.

(** ** A drop on a column *)


